(** * FileSearch: edit distance, tag similarity guard, taxonomy store

    A shallow embedding of [src/filesearch_v3.c].  C strings are modelled by
    their contents before the terminating NUL ([list ascii], written with
    string literals through [str]); a C [int] is a [Z] whose conversions and
    additions are normalised to 32 bits by [to_int]; the two heap rows of the
    distance computation are [list Z] updated in place with stdpp's list
    insert; the SQLite store is a record of tables, each a list of rows in
    scan order. *)

From Stdlib Require Import ZArith List Ascii String Lia Bool.
From stdpp Require Import base tactics option list numbers strings pretty relations sorting.

Local Open Scope Z_scope.

(** ** C integers and characters *)

Definition INT_MAX : Z := 2147483647.

(** Conversion of a mathematical integer to a 32-bit two's complement [int]. *)
Definition to_int (z : Z) : Z := (z + 2147483648) `mod` 4294967296 - 2147483648.

Definition int_add (a b : Z) : Z := to_int (a + b).
Definition int_sub (a b : Z) : Z := to_int (a - b).

(** A C string: the bytes before the terminator. *)
Definition cstring : Type := list ascii.

Definition str (s : string) : cstring := list_ascii_of_string s.

(** [strlen], a [size_t]. *)
Definition strlen (s : cstring) : Z := Z.of_nat (length s).

(** [s[i]]; the byte at the end of the contents is the terminator. *)
Definition char_at (s : cstring) (i : Z) : ascii := nth (Z.to_nat i) s zero.

(** [tolower] in the "C" locale (the program never calls [setlocale]). *)
Definition tolower (c : ascii) : ascii :=
  let n := N_of_ascii c in
  if ((65 <=? n) && (n <=? 90))%N then ascii_of_N (n + 32) else c.

(** [isspace] in the "C" locale. *)
Definition isspace (c : ascii) : bool :=
  let n := N_of_ascii c in
  ((n =? 32) || ((9 <=? n) && (n <=? 13)))%N.

(** [str_to_lower]: fold every byte in place. *)
Definition str_to_lower (s : cstring) : cstring := tolower <$> s.

(** [strncpy(dst, src, n - 1); dst[n - 1] = 0] into a buffer of [n] bytes. *)
Definition strncpy_buf (n : nat) (src : cstring) : cstring := take (n - 1) src.

Definition MAX_TAG_LENGTH : nat := 256.
Definition DEFAULT_SCHEMA_VERSION : Z := 1.
Definition DEFAULT_APP_VERSION : Z := 1.
Definition DEFAULT_SIMILARITY_THRESHOLD : Z := 3.
Definition DEFAULT_MAX_RESULTS : Z := 20.
Definition DEFAULT_FUZZY_DISTANCE : Z := 3.

(** ** Utility functions *)

Definition min3 (a b c : Z) : Z :=
  let min := a in
  let min := if b <? min then b else min in
  let min := if c <? min then c else min in
  min.

(** ** Levenshtein distance *)

(** The outcome of the two [malloc] calls of [levenshtein]. *)
Record alloc : Type := Alloc { prev_ok : bool; curr_ok : bool }.

Definition alloc_ok : alloc := Alloc true true.

(** A block of [n] ints as [malloc] returns it.  Its contents are not
    initialised; every cell is stored before it is loaded, so the filler is
    never observed. *)
Definition malloc_ints (n : Z) : list Z := replicate (Z.to_nat n) 0.

(** [for (i = 0; i <= len1; i++) prev[i] = i;] *)
Definition init_prev (len1 : Z) (prev : list Z) : list Z :=
  foldl (fun row i => <[Z.to_nat i := i]> row) prev (seqZ 0 (len1 + 1)).

(** One iteration of the inner loop: the store to [curr[i]]. *)
Definition inner_step (s1 s2 : cstring) (j : Z) (prev curr : list Z) (i : Z)
  : list Z :=
  let cost :=
    if decide (tolower (char_at s1 (i - 1)) = tolower (char_at s2 (j - 1)))
    then 0 else 1 in
  <[Z.to_nat i :=
      min3 (int_add (prev !!! Z.to_nat i) 1)
           (int_add (curr !!! Z.to_nat (i - 1)) 1)
           (int_add (prev !!! Z.to_nat (i - 1)) cost)]> curr.

(** One iteration of the outer loop, ending with the swap of the two rows. *)
Definition outer_step (s1 s2 : cstring) (len1 : Z)
    (rows : list Z * list Z) (j : Z) : list Z * list Z :=
  let '(prev, curr) := rows in
  let curr := <[0%nat := j]> curr in
  let curr := foldl (inner_step s1 s2 j prev) curr (seqZ 1 len1) in
  (curr, prev).

Definition levenshtein (al : alloc) (s1 s2 : cstring) : Z :=
  let len1 := to_int (strlen s1) in
  let len2 := to_int (strlen s2) in
  if len1 =? 0 then len2
  else if len2 =? 0 then len1
  else
    let '(s1, s2, len1, len2) :=
      if len1 >? len2 then (s2, s1, len2, len1) else (s1, s2, len1, len2) in
    if negb (prev_ok al) || negb (curr_ok al) then -1
    else
      let prev := init_prev len1 (malloc_ints (int_add len1 1)) in
      let curr := malloc_ints (int_add len1 1) in
      let '(prev, _) := foldl (outer_step s1 s2 len1) (prev, curr) (seqZ 1 len2) in
      prev !!! Z.to_nat len1.

(** The SQL function [levenshtein]: an error for a wrong argument count,
    NULL when an argument is NULL, the distance as an integer otherwise. *)
Inductive sql_result : Type :=
| SqlError
| SqlNull
| SqlInt (n : Z).

Definition sqlite_levenshtein (al : alloc) (argv : list (option cstring))
  : sql_result :=
  match argv with
  | [a; b] =>
      match a, b with
      | Some s1, Some s2 => SqlInt (levenshtein al s1 s2)
      | _, _ => SqlNull
      end
  | _ => SqlError
  end.


(** ** Edit distance as the specification words it *)

(** One single-character insertion, deletion or substitution. *)
Inductive edit_step : cstring -> cstring -> Prop :=
| edit_insert l c r : edit_step (l ++ r) (l ++ c :: r)
| edit_delete l c r : edit_step (l ++ c :: r) (l ++ r)
| edit_subst l c d r : edit_step (l ++ c :: r) (l ++ d :: r).

(** [n] edits transform [a] into [b]. *)
Definition transforms (n : nat) (a b : cstring) : Prop := nsteps edit_step n a b.

(** [n] is the minimum number of edits transforming [a] into [b]. *)
Definition is_edit_distance (a b : cstring) (n : nat) : Prop :=
  transforms n a b /\ forall m, transforms m a b -> (n <= m)%nat.

(** The textbook recurrence, used to connect the two rows of the code with
    the minimum over edit sequences. *)
Fixpoint lev (a : cstring) : cstring -> nat :=
  match a with
  | [] => fun b => length b
  | x :: a' =>
      fix lev_x (b : cstring) : nat :=
        match b with
        | [] => length a
        | y :: b' =>
            Nat.min (S (lev a' b))
              (Nat.min (S (lev_x b'))
                 ((if decide (x = y) then 0 else 1) + lev a' b'))%nat
        end
  end.

(** Edit scripts read from left to right over both strings at once. *)
Inductive aligned : cstring -> cstring -> nat -> Prop :=
| al_nil : aligned [] [] 0
| al_ins c a b n : aligned a b n -> aligned a (c :: b) (S n)
| al_del c a b n : aligned a b n -> aligned (c :: a) b (S n)
| al_sub c d a b n : aligned a b n -> aligned (c :: a) (d :: b) (S n)
| al_keep c a b n : aligned a b n -> aligned (c :: a) (c :: b) n.

(** The entry [(i, j)] of the full distance matrix of [s1] and [s2], of which
    the code keeps two rows: the distance between the first [i] folded
    characters of [s1] and the first [j] of [s2]. *)
Definition cell (s1 s2 : cstring) (i j : nat) : Z :=
  Z.of_nat (lev (rev (take i (str_to_lower s1)))
                (rev (take j (str_to_lower s2)))).

(** [row] holds row [j] of the matrix. *)
Definition row_ok (s1 s2 : cstring) (j : nat) (row : list Z) : Prop :=
  length row = S (length s1) /\
  forall i, (i <= length s1)%nat -> row !!! i = cell s1 s2 i j.

(** A working-row allocation fails: [malloc] is reached (both strings are
    non-empty) and at least one of the two calls returns NULL. *)
Definition alloc_failed (al : alloc) (s1 s2 : cstring) : bool :=
  negb (strlen s1 =? 0) && negb (strlen s2 =? 0) &&
  (negb (prev_ok al) || negb (curr_ok al)).

(** Strings whose length, and length plus one, are representable as [int]. *)
Definition fits_int (s : cstring) : Prop := strlen s < INT_MAX.

(** ** String helpers of the C library and of SQLite *)

(** [strstr haystack needle != NULL]. *)
Fixpoint has_prefix (needle haystack : cstring) : bool :=
  match needle, haystack with
  | [], _ => true
  | _ :: _, [] => false
  | c :: needle', d :: haystack' =>
      bool_decide (c = d) && has_prefix needle' haystack'
  end.

Fixpoint strstr (haystack needle : cstring) : bool :=
  has_prefix needle haystack ||
  match haystack with
  | [] => false
  | _ :: haystack' => strstr haystack' needle
  end.

(** Case-insensitive substring check, in either direction, on copies
    truncated to the [MAX_TAG_LENGTH] buffers. *)
Definition is_substring_match (s1 s2 : cstring) : bool :=
  let lower1 := str_to_lower (strncpy_buf MAX_TAG_LENGTH s1) in
  let lower2 := str_to_lower (strncpy_buf MAX_TAG_LENGTH s2) in
  strstr lower1 lower2 || strstr lower2 lower1.

(** The leading-space loop of [trim_whitespace] and of [atoi]. *)
Fixpoint skip_spaces (s : cstring) : cstring :=
  match s with
  | c :: s' => if isspace c then skip_spaces s' else s
  | [] => []
  end.

Definition trim_whitespace (s : cstring) : cstring :=
  rev (skip_spaces (rev (skip_spaces s))).

Definition digit_value (c : ascii) : option Z :=
  let n := N_of_ascii c in
  if ((48 <=? n) && (n <=? 57))%N then Some (Z.of_N n - 48) else None.

Fixpoint atoi_digits (acc : Z) (s : cstring) : Z :=
  match s with
  | c :: s' =>
      match digit_value c with
      | Some d => atoi_digits (10 * acc + d) s'
      | None => acc
      end
  | [] => acc
  end.

(** [atoi]: optional white space, optional sign, decimal digits.  A numeral
    outside the range of [int] is undefined in C; the model keeps its low 32
    bits. *)
Definition atoi (s : cstring) : Z :=
  match skip_spaces s with
  | "-"%char :: s' => to_int (- atoi_digits 0 s')
  | "+"%char :: s' => to_int (atoi_digits 0 s')
  | s' => to_int (atoi_digits 0 s')
  end.

(** [snprintf(buf, 32, "%d", value)]. *)
Definition format_int (value : Z) : cstring := str (pretty value).

(** SQLite's NOCASE collation compares the ASCII-folded bytes. *)
Definition nocase_eqb (a b : cstring) : bool :=
  bool_decide (str_to_lower a = str_to_lower b).

(** SQLite's BINARY collation: [memcmp] order, a proper prefix first. *)
Fixpoint bytes_leb (a b : cstring) : bool :=
  match a, b with
  | [], _ => true
  | _ :: _, [] => false
  | x :: a', y :: b' =>
      if (N_of_ascii x <? N_of_ascii y)%N then true
      else if (N_of_ascii y <? N_of_ascii x)%N then false
      else bytes_leb a' b'
  end.

(** SQLite's [LIKE]: [%] matches any run of characters, [_] any one
    character, every other pattern character matches itself up to ASCII
    case.  Characters are bytes here, which is how SQLite reads ASCII text;
    a character of several bytes is one character to SQLite's [_] and
    several to this one, so the properties that evaluate a pattern are
    stated for ASCII names and patterns. *)
Fixpoint like_match (pat s : cstring) {struct pat} : bool :=
  match pat with
  | [] => match s with [] => true | _ :: _ => false end
  | c :: pat' =>
      if bool_decide (c = "%"%char) then
        (fix any_suffix (s : cstring) : bool :=
           like_match pat' s ||
           match s with
           | [] => false
           | _ :: s' => any_suffix s'
           end) s
      else
        match s with
        | [] => false
        | d :: s' =>
            (bool_decide (c = "_"%char) || bool_decide (tolower c = tolower d))
            && like_match pat' s'
        end
  end.

(** [name LIKE '%' || ? || '%'] *)
Definition like_contains (name arg : cstring) : bool :=
  like_match ("%"%char :: arg ++ ["%"%char]) name.

(** [LIMIT ?]: a negative bound puts no limit on the rows. *)
Definition sql_limit {A : Type} (n : Z) (rows : list A) : list A :=
  if n <? 0 then rows else take (Z.to_nat n) rows.

(** ** The store *)

Record path_row : Type := PathRow {
  p_id : Z;
  p_path : cstring;
  p_name : cstring;
  p_is_directory : Z;
  p_size : option Z;
  p_parent_path : option cstring
}.

(** A row of [categories] or of [tags]. *)
Record name_row : Type := NameRow { n_id : Z; n_name : cstring }.

(** The tables of the schema; [None] is a table that does not exist.  Rows
    are listed in the order a scan of the table visits them.  Indexes carry
    no data of their own and are left out. *)
Record database : Type := Database {
  paths : option (list path_row);
  categories : option (list name_row);
  path_categories : option (list (Z * Z));
  tags : option (list name_row);
  path_tags : option (list (Z * Z));
  settings : option (list (cstring * cstring))
}.

Global Instance path_row_eq_dec : EqDecision path_row.
Proof. solve_decision. Defined.
Global Instance name_row_eq_dec : EqDecision name_row.
Proof. solve_decision. Defined.
Global Instance database_eq_dec : EqDecision database.
Proof. solve_decision. Defined.

Definition empty_database : database :=
  Database None None None None None None.

Definition set_categories (d : database) (t : option (list name_row)) : database :=
  Database (paths d) t (path_categories d) (tags d) (path_tags d) (settings d).
Definition set_path_categories (d : database) (t : option (list (Z * Z))) : database :=
  Database (paths d) (categories d) t (tags d) (path_tags d) (settings d).
Definition set_tags (d : database) (t : option (list name_row)) : database :=
  Database (paths d) (categories d) (path_categories d) t (path_tags d) (settings d).
Definition set_settings (d : database) (t : option (list (cstring * cstring))) : database :=
  Database (paths d) (categories d) (path_categories d) (tags d) (path_tags d) t.

(** The rowid SQLite gives a row inserted without one: 1 in an empty table,
    one more than the largest in use otherwise. *)
Definition new_rowid (ids : list Z) : Z :=
  match ids with
  | [] => 1
  | i :: ids' => foldl Z.max i ids' + 1
  end.

(** [sqlite3_column_int]: the low 32 bits of the 64-bit column value. *)
Definition column_int (v : Z) : Z := to_int v.

(** [SELECT value FROM settings WHERE key = ?], first row. *)
Fixpoint select_setting (key : cstring) (rows : list (cstring * cstring))
  : option cstring :=
  match rows with
  | [] => None
  | (k, v) :: rows' => if decide (k = key) then Some v else select_setting key rows'
  end.

(** [SELECT id FROM t WHERE name = ? COLLATE NOCASE], first row. *)
Fixpoint select_id_nocase (name : cstring) (rows : list name_row) : option Z :=
  match rows with
  | [] => None
  | r :: rows' =>
      if nocase_eqb (n_name r) name then Some (n_id r)
      else select_id_nocase name rows'
  end.

(** [INSERT INTO t (name) VALUES (?)] on a table whose [name] column is
    [UNIQUE] under the BINARY collation: a row with the same bytes makes the
    statement fail; otherwise the row is appended under a new rowid. *)
Definition insert_name (name : cstring) (rows : list name_row)
  : option (Z * list name_row) :=
  if bool_decide (name ∈ n_name <$> rows) then None
  else
    let id := new_rowid (n_id <$> rows) in
    Some (id, rows ++ [NameRow id name]).

(** [INSERT OR IGNORE INTO t (name) VALUES (?)]. *)
Definition insert_or_ignore_name (name : cstring) (rows : list name_row)
  : list name_row :=
  match insert_name name rows with
  | Some (_, rows') => rows'
  | None => rows
  end.

(** [INSERT OR REPLACE INTO settings (key, value) VALUES (?, ?)]. *)
Definition replace_setting (key value : cstring)
    (rows : list (cstring * cstring)) : list (cstring * cstring) :=
  filter (fun kv => kv.1 <> key) rows ++ [(key, value)].

(** [INSERT OR IGNORE INTO path_categories (path_id, category_id)]. *)
Definition insert_or_ignore_link (l : Z * Z) (rows : list (Z * Z))
  : list (Z * Z) :=
  if bool_decide (l ∈ rows) then rows else rows ++ [l].

(** ** The process: store, connection, terminal *)

Inductive prompt : Type :=
| PromptMigration
| PromptCreateAnyway (tag_name : cstring)
| PromptUseInstead (similar_name : cstring).

Inductive sql_stmt : Type :=
| PragmaForeignKeys
| CreateSchema
| MigratePaths
| ProbeTable (table_name : cstring)
| SelectSetting (key : cstring)
| ReplaceSetting (key value : cstring)
| InsertOrIgnoreCategory (name : cstring)
| SelectCategoryId (name : cstring)
| InsertCategory (name : cstring)
| SelectTagId (name : cstring)
| SelectAllTags
| InsertTag (name : cstring).

Inductive message : Type :=
| MsgDirectoryMissing
| MsgCannotOpen
| MsgCannotRegister
| MsgSchemaError
| MsgCreatingDatabase
| MsgDatabaseInitialized
| MsgDatabaseOpened
| MsgUpdateRequired
| MsgMigrationCancelled
| MsgMigrationComplete
| MsgSchemaUpToDate (version : Z)
| MsgCreatedCategory (name : cstring)
| MsgCreateCategoryFailed
| MsgSimilarSubstring (similar_name : cstring)
| MsgSimilarDistance (similar_name : cstring) (distance : option Z)
| MsgCancelled
| MsgCreatedTag (name : cstring).

(** What the process does that can be observed from outside: the SQL
    statements it runs, the questions it asks, the lines it prints. *)
Inductive event : Type :=
| EvSql (s : sql_stmt)
| EvPrompt (p : prompt)
| EvPrint (m : message).

(** The world the program runs in.  [dir_exists], [open_ok], [register_ok],
    [schema_ok] and [malloc_outcome] are the answers of the operating system
    and of SQLite; [file_exists] and [store] are the database file; [handle]
    is the global [db] being non-NULL; [stdin] is the input still unread;
    [out] is the trace so far, oldest event first. *)
Record world : Type := World {
  dir_exists : bool;
  open_ok : bool;
  register_ok : bool;
  schema_ok : bool;
  malloc_outcome : nat -> alloc;
  file_exists : bool;
  store : database;
  handle : bool;
  stdin : list ascii;
  out : list event
}.

Definition set_file (b : bool) (d : database) (w : world) : world :=
  World (dir_exists w) (open_ok w) (register_ok w) (schema_ok w)
    (malloc_outcome w) b d (handle w) (stdin w) (out w).
Definition set_store (d : database) (w : world) : world :=
  set_file (file_exists w) d w.
Definition set_handle (h : bool) (w : world) : world :=
  World (dir_exists w) (open_ok w) (register_ok w) (schema_ok w)
    (malloc_outcome w) (file_exists w) (store w) h (stdin w) (out w).
Definition set_stdin (i : list ascii) (w : world) : world :=
  World (dir_exists w) (open_ok w) (register_ok w) (schema_ok w)
    (malloc_outcome w) (file_exists w) (store w) (handle w) i (out w).
Definition log (e : event) (w : world) : world :=
  World (dir_exists w) (open_ok w) (register_ok w) (schema_ok w)
    (malloc_outcome w) (file_exists w) (store w) (handle w) (stdin w)
    (out w ++ [e]).

(** Computations that read and change the world. *)
Definition M (A : Type) : Type := world -> A * world.

Global Instance M_ret : MRet M := fun A (a : A) w => (a, w).
Global Instance M_bind : MBind M :=
  fun A B (f : A -> M B) (m : M A) w => let '(a, w') := m w in f a w'.

Definition get_world : M world := fun w => (w, w).
Definition put_store (d : database) : M unit := fun w => (tt, set_store d w).
Definition put_stdin (i : list ascii) : M unit := fun w => (tt, set_stdin i w).
Definition put_handle (h : bool) : M unit := fun w => (tt, set_handle h w).
Definition touch_file : M unit := fun w => (tt, set_file true (store w) w).
Definition emit (e : event) : M unit := fun w => (tt, log e w).
Definition print (m : message) : M unit := emit (EvPrint m).
Definition sql (s : sql_stmt) : M unit := emit (EvSql s).

(** [fgets(buf, n, stdin)]: at most [n - 1] characters, up to and including
    the first newline; NULL at end of input. *)
Fixpoint read_line (k : nat) (input : list ascii) : cstring * list ascii :=
  match k, input with
  | O, _ => ([], input)
  | S _, [] => ([], [])
  | S k', c :: rest =>
      if bool_decide (c = "010"%char) then ([c], rest)
      else let '(line, rest') := read_line k' rest in (c :: line, rest')
  end.

Definition fgets (n : nat) (input : list ascii) : option (cstring * list ascii) :=
  match input with
  | [] => None
  | _ :: _ => Some (read_line (n - 1) input)
  end.

Definition is_yes (response : cstring) : bool :=
  bool_decide (char_at response 0 = "y"%char) ||
  bool_decide (char_at response 0 = "Y"%char).

(** The answer [get_confirmation] reads from the input, and the input left:
    no line is a refusal, a line is a consent when its first character after
    trimming is [y] or [Y]. *)
Definition read_answer (input : list ascii) : bool * list ascii :=
  match fgets 16 input with
  | None => (false, input)
  | Some (response, rest) => (is_yes (trim_whitespace response), rest)
  end.

Definition get_confirmation (p : prompt) : M bool :=
  emit (EvPrompt p) ;;
  w ← get_world;
  put_stdin (read_answer (stdin w)).2 ;;
  mret (read_answer (stdin w)).1.

(** ** Settings operations *)

(** The value [get_int_setting] reads from a store: the default when the
    statement cannot be prepared or finds no row. *)
Definition read_int_setting (d : database) (key : cstring) (default_value : Z)
  : Z :=
  match settings d with
  | None => default_value
  | Some rows =>
      match select_setting key rows with
      | Some value => atoi value
      | None => default_value
      end
  end.

Definition get_int_setting (key : cstring) (default_value : Z) : M Z :=
  sql (SelectSetting key) ;;
  w ← get_world;
  mret (read_int_setting (store w) key default_value).

Definition set_string_setting (key value : cstring) : M Z :=
  sql (ReplaceSetting key value) ;;
  w ← get_world;
  match settings (store w) with
  | None => mret (-1)
  | Some rows =>
      put_store (set_settings (store w) (Some (replace_setting key value rows))) ;;
      mret 0
  end.

Definition set_int_setting (key : cstring) (value : Z) : M Z :=
  set_string_setting key (format_int value).

(** ** Database initialization *)

Definition table_present (d : database) (table_name : cstring) : bool :=
  if decide (table_name = str "paths") then bool_decide (is_Some (paths d))
  else if decide (table_name = str "categories") then bool_decide (is_Some (categories d))
  else if decide (table_name = str "path_categories") then bool_decide (is_Some (path_categories d))
  else if decide (table_name = str "tags") then bool_decide (is_Some (tags d))
  else if decide (table_name = str "path_tags") then bool_decide (is_Some (path_tags d))
  else if decide (table_name = str "settings") then bool_decide (is_Some (settings d))
  else false.

Definition table_exists (table_name : cstring) : M bool :=
  sql (ProbeTable table_name) ;;
  w ← get_world;
  mret (table_present (store w) table_name).

(** [CREATE TABLE IF NOT EXISTS]. *)
Definition create_if_missing {A : Type} (t : option (list A)) : option (list A) :=
  match t with
  | None => Some []
  | Some rows => Some rows
  end.

(** The schema script.  Whether SQLite accepts it is the world's
    [schema_ok]; a rejected script is taken to change nothing. *)
Definition create_schema_v1 : M Z :=
  sql CreateSchema ;;
  w ← get_world;
  if schema_ok w then
    let d := store w in
    put_store
      (Database (create_if_missing (paths d)) (create_if_missing (categories d))
         (create_if_missing (path_categories d)) (create_if_missing (tags d))
         (create_if_missing (path_tags d)) (create_if_missing (settings d))) ;;
    mret 0
  else
    print MsgSchemaError ;; mret (-1).

Definition insert_default_settings : M Z :=
  set_int_setting (str "schema_version") DEFAULT_SCHEMA_VERSION ;;
  set_int_setting (str "app_version") DEFAULT_APP_VERSION ;;
  set_int_setting (str "similarity_threshold") DEFAULT_SIMILARITY_THRESHOLD ;;
  set_int_setting (str "max_results") DEFAULT_MAX_RESULTS ;;
  set_int_setting (str "fuzzy_default_distance") DEFAULT_FUZZY_DISTANCE ;;
  mret 0.

Definition default_categories : list cstring :=
  [str "Games"; str "Music"; str "Photos"; str "Documents"; str "Uncategorized"].

Definition insert_default_categories : M Z :=
  w ← get_world;
  match categories (store w) with
  | None => mret (-1)
  | Some _ =>
      foldl (fun (m : M unit) name =>
               m ;;
               sql (InsertOrIgnoreCategory name) ;;
               w ← get_world;
               put_store (set_categories (store w)
                            (insert_or_ignore_name name <$> categories (store w))))
            (mret tt) default_categories ;;
      mret 0
  end.

(** [INSERT OR IGNORE INTO path_categories (path_id, category_id)
     SELECT p.id, c.id FROM paths p, categories c
     WHERE c.name = 'Uncategorized';] *)
Definition migrate_paths : M unit :=
  sql MigratePaths ;;
  w ← get_world;
  let d := store w in
  match paths d, categories d, path_categories d with
  | Some ps, Some cs, Some links =>
      let selected :=
        p ← ps;
        c ← filter (fun c => n_name c = str "Uncategorized") cs;
        [(p_id p, n_id c)] in
      put_store (set_path_categories d
                   (Some (foldl (fun rows l => insert_or_ignore_link l rows)
                            links selected)))
  | _, _, _ => mret tt
  end.

Definition init_database : M Z :=
  w ← get_world;
  if negb (dir_exists w) then print MsgDirectoryMissing ;; mret (-1)
  else
    let is_new_db := negb (file_exists w) in
    if negb (open_ok w) then print MsgCannotOpen ;; mret (-1)
    else
      touch_file ;;
      put_handle true ;;
      sql PragmaForeignKeys ;;
      if negb (register_ok w) then print MsgCannotRegister ;; mret (-1)
      else if is_new_db then
        print MsgCreatingDatabase ;;
        rc ← create_schema_v1;
        if negb (rc =? 0) then mret (-1)
        else
          insert_default_settings ;;
          insert_default_categories ;;
          print MsgDatabaseInitialized ;;
          mret 0
      else
        print MsgDatabaseOpened ;;
        current_version ← get_int_setting (str "schema_version") 0;
        has_settings ← (if current_version =? 0
                         then table_exists (str "settings") else mret true);
        if (current_version =? 0) && negb has_settings then
          print MsgUpdateRequired ;;
          proceed ← get_confirmation PromptMigration;
          if negb proceed then
            print MsgMigrationCancelled ;;
            put_handle false ;;
            mret (-1)
          else
            rc ← create_schema_v1;
            if negb (rc =? 0) then mret (-1)
            else
              insert_default_settings ;;
              insert_default_categories ;;
              migrate_paths ;;
              print MsgMigrationComplete ;;
              mret 0
        else if current_version <? DEFAULT_SCHEMA_VERSION then
          print (MsgSchemaUpToDate current_version) ;;
          mret 0
        else mret 0.

Section cli.
(** The command loop, which the properties below do not look into. *)
Variable run_interactive_cli : M unit.

(** [main] once the command line has named the database file. *)
Definition main : M Z :=
  rc ← init_database;
  if negb (rc =? 0) then mret 1
  else
    run_interactive_cli ;;
    put_handle false ;;
    mret 0.
End cli.

(** ** Category operations *)

(** The id a case-insensitive lookup by name reads from a table: -1 when
    the statement cannot be prepared or finds no row. *)
Definition lookup_id (t : option (list name_row)) (name : cstring) : Z :=
  match t with
  | None => -1
  | Some rows =>
      match select_id_nocase name rows with
      | Some id => column_int id
      | None => -1
      end
  end.

Definition get_category_id (name : cstring) : M Z :=
  sql (SelectCategoryId name) ;;
  w ← get_world;
  mret (lookup_id (categories (store w)) name).

Definition create_category (name : cstring) : M Z :=
  sql (InsertCategory name) ;;
  w ← get_world;
  match categories (store w) with
  | None => mret (-1)
  | Some rows =>
      match insert_name name rows with
      | Some (id, rows') =>
          put_store (set_categories (store w) (Some rows')) ;;
          print (MsgCreatedCategory name) ;;
          mret (to_int id)
      | None =>
          print MsgCreateCategoryFailed ;;
          mret (-1)
      end
  end.

(** ** Tag operations *)

Definition get_tag_id (name : cstring) : M Z :=
  sql (SelectTagId name) ;;
  w ← get_world;
  mret (lookup_id (tags (store w)) name).

Definition create_tag (name : cstring) : M Z :=
  sql (InsertTag name) ;;
  w ← get_world;
  match tags (store w) with
  | None => mret (-1)
  | Some rows =>
      match insert_name name rows with
      | Some (id, rows') =>
          put_store (set_tags (store w) (Some rows')) ;;
          mret (to_int id)
      | None => mret (-1)
      end
  end.

(** The locals and out-parameters of [find_similar_tags].  The caller leaves
    [similar_distance] uninitialised, hence the option. *)
Record similar : Type := Similar {
  found_count : Z;
  best_distance : Z;
  similar_name : cstring;
  similar_distance : option Z;
  is_substring : bool
}.

(** The body of the scan loop for the [k]-th row, whose name is [existing]. *)
Definition find_similar_step (al : nat -> alloc) (new_tag : cstring)
    (name_size : nat) (threshold : Z) (acc : similar)
    (row : nat * cstring) : similar :=
  let '(k, existing) := row in
  if is_substring_match new_tag existing then
    if (found_count acc =? 0) || negb (is_substring acc) then
      Similar (int_add (found_count acc) 1) (best_distance acc)
        (strncpy_buf name_size existing)
        (Some (to_int (Z.abs (int_sub (to_int (strlen new_tag))
                                      (to_int (strlen existing))))))
        true
    else acc
  else
    let dist := levenshtein (al k) new_tag existing in
    if (dist >? 0) && (dist <=? threshold) && (dist <? best_distance acc) then
      Similar (int_add (found_count acc) 1) dist
        (strncpy_buf name_size existing) (Some dist) false
    else acc.

(** The scan over the rows of [SELECT name FROM tags]. *)
Definition scan_tags (al : nat -> alloc) (new_tag : cstring) (name_size : nat)
    (threshold : Z) (names : list cstring) : similar :=
  foldl (find_similar_step al new_tag name_size threshold)
    (Similar 0 (int_add threshold 1) [] None false)
    (zip (seq 0 (length names)) names).

(** What [find_similar_tags] finds in a store.  When the statement cannot be
    prepared the function returns 0 at once. *)
Definition similar_tags (al : nat -> alloc) (d : database) (new_tag : cstring)
    (name_size : nat) (threshold : Z) : similar :=
  match tags d with
  | None => Similar 0 (int_add threshold 1) [] None false
  | Some rows => scan_tags al new_tag name_size threshold (n_name <$> rows)
  end.

Definition find_similar_tags (new_tag : cstring) (name_size : nat) : M similar :=
  threshold ← get_int_setting (str "similarity_threshold")
                 DEFAULT_SIMILARITY_THRESHOLD;
  sql SelectAllTags ;;
  w ← get_world;
  mret (similar_tags (malloc_outcome w) (store w) new_tag name_size threshold).

Definition create_new_tag (tag_name : cstring) : M Z :=
  tag_id ← create_tag tag_name;
  if tag_id >=? 0 then print (MsgCreatedTag tag_name) ;; mret tag_id
  else mret tag_id.

(** Get or create a tag, with the similarity warning. *)
Definition get_or_create_tag_with_check (tag_name : cstring) : M Z :=
  tag_id ← get_tag_id tag_name;
  if tag_id >=? 0 then mret tag_id
  else
    found ← find_similar_tags tag_name MAX_TAG_LENGTH;
    if found_count found >? 0 then
      print (if is_substring found
             then MsgSimilarSubstring (similar_name found)
             else MsgSimilarDistance (similar_name found)
                    (similar_distance found)) ;;
      create_anyway ← get_confirmation (PromptCreateAnyway tag_name);
      if negb create_anyway then
        use_existing ← get_confirmation (PromptUseInstead (similar_name found));
        if (use_existing : bool) then get_tag_id (similar_name found)
        else print MsgCancelled ;; mret (-1)
      else create_new_tag tag_name
    else create_new_tag tag_name.

(** ** Search *)

(** [ORDER BY dist, name]: the distance first, then the name under the
    column's BINARY collation. *)
Definition fuzzy_le {A : Type} (name_of : A -> cstring) (x y : A * Z) : Prop :=
  x.2 < y.2 \/ (x.2 = y.2 /\ bytes_leb (name_of x.1) (name_of y.1) = true).

Global Instance fuzzy_le_dec {A : Type} (name_of : A -> cstring) (x y : A * Z) :
  Decision (fuzzy_le name_of x y).
Proof. unfold fuzzy_le. apply _. Defined.

(** The value of the column [levenshtein(name, ?) as dist] for one row; NULL
    and errors do not arise for two text arguments. *)
Definition dist_column (al : alloc) (name query : cstring) : option Z :=
  match sqlite_levenshtein al [Some name; Some query] with
  | SqlInt d => Some d
  | SqlNull | SqlError => None
  end.

(** [SELECT ..., levenshtein(name, ?) as dist FROM t
     WHERE dist <= ? ORDER BY dist, name LIMIT ?]
    over the rows of [t] in scan order; the evaluation of the function for
    the [k]-th row meets the allocator's [k]-th answer.  SQLite evaluates
    the function for [WHERE] and once more for the column it shows; the two
    values are one when the allocations succeed, which the properties of the
    listing assume.  SQLite leaves open the order of rows that tie on both
    sort keys; here it is the one the merge sort gives. *)
Definition fuzzy_select {A : Type} (al : nat -> alloc) (name_of : A -> cstring)
    (query : cstring) (max_distance max_results : Z) (rows : list A)
  : list (A * Z) :=
  let scored :=
    omap (fun kr : nat * A =>
            match dist_column (al kr.1) (name_of kr.2) query with
            | Some d => if d <=? max_distance then Some (kr.2, d) else None
            | None => None
            end)
         (zip (seq 0 (length rows)) rows) in
  sql_limit max_results (merge_sort (fuzzy_le name_of) scored).

(** The rows [search_paths_fuzzy] prints, in the order printed, each with
    the distance shown next to it. *)
Definition search_paths_fuzzy (query : cstring) (max_distance : Z)
  : M (list (path_row * Z)) :=
  max_results ← get_int_setting (str "max_results") DEFAULT_MAX_RESULTS;
  max_distance ← (if max_distance <? 0
                   then get_int_setting (str "fuzzy_default_distance")
                          DEFAULT_FUZZY_DISTANCE
                   else mret max_distance);
  w ← get_world;
  match paths (store w) with
  | None => mret []
  | Some rows =>
      mret (fuzzy_select (malloc_outcome w) p_name query max_distance
              max_results rows)
  end.

(** The three sections [search_tags_fuzzy] prints: exact, substring and
    fuzzy matches. *)
Definition search_tags_fuzzy (query : cstring)
  : M (list cstring * list cstring * list (name_row * Z)) :=
  max_results ← get_int_setting (str "max_results") DEFAULT_MAX_RESULTS;
  fuzzy_dist ← get_int_setting (str "fuzzy_default_distance")
                 DEFAULT_FUZZY_DISTANCE;
  w ← get_world;
  match tags (store w) with
  | None => mret ([], [], [])
  | Some rows =>
      mret (filter (fun n => nocase_eqb n query = true) (n_name <$> rows),
            sql_limit max_results
              (filter (fun n => like_contains n query = true) (n_name <$> rows)),
            fuzzy_select (malloc_outcome w) n_name query fuzzy_dist
              max_results rows)
  end.

(** *** Structured search *)

(** The columns [print_path_result] shows. *)
Record path_result : Type := PathResult {
  r_path : cstring;
  r_is_directory : Z;
  r_size : option Z
}.

Global Instance path_result_eq_dec : EqDecision path_result.
Proof. solve_decision. Defined.

Definition project (p : path_row) : path_result :=
  PathResult (p_path p) (p_is_directory p) (p_size p).

(** The terms of the [WHERE] clause. *)
Inductive where_term : Type :=
| CategoryIs (name : cstring)
| TagIs (name : cstring)
| NameLike (arg : cstring).

(** The statement the function assembles: which pairs of [JOIN]s it has, the
    terms of its [WHERE] clause in order (the first introduced by [WHERE],
    the others by [AND]), and the bound [LIMIT]. *)
Record select_paths : Type := SelectPaths {
  join_categories : bool;
  join_tags : bool;
  where_terms : list where_term;
  limit : Z
}.

(** [arg && strlen(arg) > 0] *)
Definition supplied (arg : option cstring) : option cstring :=
  match arg with
  | Some s => if 0 <? strlen s then Some s else None
  | None => None
  end.

Definition build_query (category tag name : option cstring) (max_results : Z)
  : select_paths :=
  let joins_c := bool_decide (is_Some (supplied category)) in
  let joins_t := bool_decide (is_Some (supplied tag)) in
  let terms := [] in
  let terms := match supplied category with
               | Some c => terms ++ [CategoryIs c] | None => terms end in
  let terms := match supplied tag with
               | Some t => terms ++ [TagIs t] | None => terms end in
  let terms := match supplied name with
               | Some n => terms ++ [NameLike n] | None => terms end in
  SelectPaths joins_c joins_t terms max_results.

(** [JOIN link ON p.id = link.path_id JOIN t ON link.other_id = t.id] for one
    row [p] of [paths]; without the join, the single row with no partner. *)
Definition join_names (enabled : bool) (links : list (Z * Z))
    (names : list name_row) (p : path_row) : list (option name_row) :=
  if enabled then
    l ← links;
    if decide (p_id p = l.1) then
      n ← names;
      if decide (l.2 = n_id n) then [Some n] else []
    else []
  else [None].

Definition term_holds (row : path_row * option name_row * option name_row)
    (t : where_term) : bool :=
  let '(p, c, g) := row in
  match t with
  | CategoryIs name =>
      match c with Some c => nocase_eqb (n_name c) name | None => false end
  | TagIs name =>
      match g with Some g => nocase_eqb (n_name g) name | None => false end
  | NameLike arg => like_contains (p_name p) arg
  end.

Definition by_path (x y : path_result) : Prop :=
  bytes_leb (r_path x) (r_path y) = true.

Global Instance by_path_dec (x y : path_result) : Decision (by_path x y).
Proof. unfold by_path. apply _. Defined.

(** The rows of the statement before [LIMIT]: joins, [WHERE], the projection
    under [DISTINCT], [ORDER BY p.path].  A statement naming a missing table
    is not prepared and yields nothing. *)
Definition run_unlimited (d : database) (q : select_paths) : list path_result :=
  match paths d with
  | None => []
  | Some ps =>
      let links_c := default [] (path_categories d) in
      let links_t := default [] (path_tags d) in
      let cs := default [] (categories d) in
      let ts := default [] (tags d) in
      let prepared :=
        (negb (join_categories q) ||
           (bool_decide (is_Some (path_categories d)) &&
            bool_decide (is_Some (categories d)))) &&
        (negb (join_tags q) ||
           (bool_decide (is_Some (path_tags d)) &&
            bool_decide (is_Some (tags d)))) in
      if prepared then
        let joined :=
          p ← ps;
          c ← join_names (join_categories q) links_c cs p;
          g ← join_names (join_tags q) links_t ts p;
          [(p, c, g)] in
        let kept :=
          filter (fun row => forallb (term_holds row) (where_terms q) = true)
            joined in
        merge_sort by_path (remove_dups ((fun row => project row.1.1) <$> kept))
      else []
  end.

Definition run_query (d : database) (q : select_paths) : list path_result :=
  sql_limit (limit q) (run_unlimited d q).

(** The rows [structured_search] prints, in the order printed. *)
Definition structured_search (category tag name : option cstring)
  : M (list path_result) :=
  max_results ← get_int_setting (str "max_results") DEFAULT_MAX_RESULTS;
  w ← get_world;
  mret (run_query (store w) (build_query category tag name max_results)).

(** ** Vocabulary of the properties *)

(** Rowids as SQLite hands them out, within the range [sqlite3_column_int]
    returns unchanged. *)
Definition rowids_ok (rows : list name_row) : Prop :=
  Forall (fun r => 1 <= n_id r <= INT_MAX) rows.

(** The similarity guard runs on [tag_name] (no tag has that name up to
    case) and reports a similar tag. *)
Definition conflict_reported (tag_name : cstring) (w : world) : Prop :=
  lookup_id (tags (store w)) tag_name < 0 /\
  found_count
    (similar_tags (malloc_outcome w) (store w) tag_name MAX_TAG_LENGTH
       (read_int_setting (store w) (str "similarity_threshold")
          DEFAULT_SIMILARITY_THRESHOLD)) > 0.

(** A legacy store: the file exists and holds the base path table but no
    settings table. *)
Definition legacy_store (w : world) : Prop :=
  file_exists w = true /\ is_Some (paths (store w)) /\ settings (store w) = None.

(** A store whose recorded schema version is [v]. *)
Definition stored_version (w : world) (v : Z) : Prop :=
  file_exists w = true /\
  read_int_setting (store w) (str "schema_version") 0 = v.

(** The operating system and SQLite raise no obstacle to opening the store. *)
Definition openable (w : world) : Prop :=
  dir_exists w = true /\ open_ok w = true /\ register_ok w = true.

(** Store initialization fails. *)
Definition init_fails (w : world) : Prop := (init_database w).1 <> 0.

(** Case-insensitive lexical order of names, as the specification has it for
    ties between fuzzy results. *)
Definition nocase_leb (a b : cstring) : bool :=
  bytes_leb (str_to_lower a) (str_to_lower b).

Definition claimed_fuzzy_le {A : Type} (name_of : A -> cstring)
    (x y : A * Z) : Prop :=
  x.2 < y.2 \/ (x.2 = y.2 /\ nocase_leb (name_of x.1) (name_of y.1) = true).

(** The fuzzy-search property as the specification states it: every hit
    within the threshold, hits in ascending distance with ties in
    case-insensitive order of name, and no more than [max_results] hits. *)
Definition fuzzy_claim {A : Type} (name_of : A -> cstring)
    (threshold max_results : Z) (hits : list (A * Z)) : Prop :=
  Forall (fun h => h.2 <= threshold) hits /\
  Sorted (claimed_fuzzy_le name_of) hits /\
  Z.of_nat (length hits) <= max_results.

(** The threshold a fuzzy path search works with: the caller's, or the
    configured default when the caller's is negative. *)
Definition effective_distance (d : database) (max_distance : Z) : Z :=
  if max_distance <? 0
  then read_int_setting d (str "fuzzy_default_distance") DEFAULT_FUZZY_DISTANCE
  else max_distance.

(** Every allocation of the run succeeds. *)
Definition mallocs_succeed (w : world) : Prop :=
  forall k, malloc_outcome w k = alloc_ok.

(** What holds of the hits of a fuzzy search over [rows]: each is a row
    together with its edit distance to the query, which is within the
    threshold; hits ascend by distance, ties by the bytes of the name; a
    non-negative [max_results] bounds their number. *)
Definition fuzzy_outcome {A : Type} (name_of : A -> cstring) (rows : list A)
    (query : cstring) (threshold max_results : Z) (hits : list (A * Z)) : Prop :=
  Forall (fun h =>
            h.1 ∈ rows /\
            h.2 <= threshold /\
            exists n : nat,
              h.2 = Z.of_nat n /\
              is_edit_distance (str_to_lower (name_of h.1))
                (str_to_lower query) n) hits /\
  Sorted (fuzzy_le name_of) hits /\
  (0 <= max_results -> Z.of_nat (length hits) <= max_results).

(** [p] belongs to a category whose name is [name] up to case. *)
Definition in_category (d : database) (p : path_row) (name : cstring) : Prop :=
  exists cs links c,
    categories d = Some cs /\ path_categories d = Some links /\
    c ∈ cs /\ (p_id p, n_id c) ∈ links /\
    str_to_lower (n_name c) = str_to_lower name.

(** [p] carries a tag whose name is [name] up to case. *)
Definition has_tag (d : database) (p : path_row) (name : cstring) : Prop :=
  exists ts links t,
    tags d = Some ts /\ path_tags d = Some links /\
    t ∈ ts /\ (p_id p, n_id t) ∈ links /\
    str_to_lower (n_name t) = str_to_lower name.

(** The name of [p] contains [arg] up to case: the name filter as the
    specification has it. *)
Definition name_contains (p : path_row) (arg : cstring) : Prop :=
  exists l r, str_to_lower (p_name p) = l ++ str_to_lower arg ++ r.

(** The name of [p] matches the pattern [%arg%]: the name filter as the
    statement has it. *)
Definition name_like (p : path_row) (arg : cstring) : Prop :=
  like_contains (p_name p) arg = true.

(** [p] satisfies every supplied filter; a filter that is absent or empty
    asks nothing. *)
Definition meets (name_filter : path_row -> cstring -> Prop) (d : database)
    (category tag name : option cstring) (p : path_row) : Prop :=
  (forall c, supplied category = Some c -> in_category d p c) /\
  (forall t, supplied tag = Some t -> has_tag d p t) /\
  (forall n, supplied name = Some n -> name_filter p n).

(** Two parts of the structured-search property as the specification states
    it: every path returned satisfies the supplied filters, the name filter
    being containment; and no more than [max_results] paths are returned. *)
Definition structured_claim (d : database) (category tag name : option cstring)
    (max_results : Z) (results : list path_result) : Prop :=
  (forall r, r ∈ results ->
     exists ps p, paths d = Some ps /\ p ∈ ps /\ r = project p /\
                  meets name_contains d category tag name p) /\
  Z.of_nat (length results) <= max_results.

(** Every byte of [s] is an ASCII character: on such text the characters
    of SQLite's [LIKE] are the bytes. *)
Definition ascii_only (s : cstring) : Prop :=
  Forall (fun c => (N_of_ascii c < 128)%N) s.

(** The names of the rows [ps] of [paths] are ASCII text. *)
Definition ascii_names (ps : list path_row) : Prop :=
  Forall (fun p => ascii_only (p_name p)) ps.

(** No [LIKE] wildcard occurs in [arg]. *)
Definition plain (arg : cstring) : Prop :=
  Forall (fun c => c <> "%"%char /\ c <> "_"%char) arg.

(** The partner [c] that a pair of joins gives the path row [p]: a row of
    [names] linked to [p] when the joins are part of the statement, none
    otherwise. *)
Definition joined_ok (enabled : bool) (links : option (list (Z * Z)))
    (names : option (list name_row)) (p : path_row) (c : option name_row)
  : Prop :=
  if enabled then
    exists ls ns n,
      links = Some ls /\ names = Some ns /\ c = Some n /\
      n ∈ ns /\ (p_id p, n_id n) ∈ ls
  else c = None.

(** ** Further functions of the program *)

(** *** Paths as strings *)

Definition PATH_SEPARATOR : ascii := "/"%char.

(** [strrchr(s, c)]: the part of [s] before the last [c] and the part after
    it, when [c] occurs. *)
Fixpoint strrchr_split (c : ascii) (s : cstring) : option (cstring * cstring) :=
  match s with
  | [] => None
  | x :: s' =>
      match strrchr_split c s' with
      | Some (before, after) => Some (x :: before, after)
      | None => if decide (x = c) then Some ([], s') else None
      end
  end.

(** The contents of [dir_buffer], of [size] bytes, on return. *)
Definition get_directory_from_path (filepath : cstring) (size : nat) : cstring :=
  let dir_buffer := strncpy_buf size filepath in
  match strrchr_split PATH_SEPARATOR dir_buffer with
  | Some (before, _) => before
  | None => dir_buffer
  end.

Definition get_filename_from_path (path : cstring) : cstring :=
  match strrchr_split PATH_SEPARATOR path with
  | Some (_, after) => after
  | None => path
  end.

(** *** String settings *)

(** The contents of [buffer], of [size] bytes, that [get_string_setting]
    returns. *)
Definition get_string_setting (key : cstring) (size : nat)
    (default_value : cstring) : M cstring :=
  sql (SelectSetting key) ;;
  w ← get_world;
  match settings (store w) with
  | None => mret (strncpy_buf size default_value)
  | Some rows =>
      match select_setting key rows with
      | Some val => mret (strncpy_buf size val)
      | None => mret (strncpy_buf size default_value)
      end
  end.

(** *** Paths, categories and tags of a path *)

(** The lines these functions print.  Each function returns its lines, in
    the order printed, next to its result; the statements they run
    themselves are not added to the trace [out], which keeps the events of
    the functions above. *)
Inductive notice : Type :=
| PrepareError
| PathNotFound (path : cstring)
| Removed (path : cstring)
| CategoryNotFound (name : cstring)
| CreateCategoryFirst (name : cstring)
| Categorized (path name : cstring)
| Uncategorized (path name : cstring)
| TagNotFound (name : cstring)
| AlreadyTagged (actual_name : cstring)
| Tagged (path actual_name : cstring)
| Untagged (path name : cstring).

Definition set_paths (d : database) (t : option (list path_row)) : database :=
  Database t (categories d) (path_categories d) (tags d) (path_tags d)
    (settings d).
Definition set_path_tags (d : database) (t : option (list (Z * Z))) : database :=
  Database (paths d) (categories d) (path_categories d) (tags d) t
    (settings d).

(** [SELECT id FROM paths WHERE path = ?], first row; the column has the
    BINARY collation. *)
Fixpoint select_path_id (path : cstring) (rows : list path_row) : option Z :=
  match rows with
  | [] => None
  | p :: rows' =>
      if decide (p_path p = path) then Some (p_id p)
      else select_path_id path rows'
  end.

Definition get_path_id (path : cstring) : M Z :=
  w ← get_world;
  match paths (store w) with
  | None => mret (-1)
  | Some rows =>
      match select_path_id path rows with
      | Some id => mret (column_int id)
      | None => mret (-1)
      end
  end.

(** [INSERT OR IGNORE INTO paths (path, name, is_directory, size,
    parent_path)]: the column [path] is [UNIQUE]; a row with that path makes
    the statement do nothing. *)
Definition insert_or_ignore_path (path name : cstring) (is_directory : Z)
    (size : option Z) (parent_path : option cstring) (rows : list path_row)
  : list path_row :=
  if bool_decide (path ∈ p_path <$> rows) then rows
  else rows ++ [PathRow (new_rowid (p_id <$> rows)) path name is_directory
                  size parent_path].

(** [size] is the [long long] argument; [parent_path] is [None] for NULL. *)
Definition add_path_to_db (path name : cstring) (is_directory size : Z)
    (parent_path : option cstring) : M (Z * list notice) :=
  w ← get_world;
  match paths (store w) with
  | None => mret (-1, [PrepareError])
  | Some rows =>
      put_store
        (set_paths (store w)
           (Some (insert_or_ignore_path path name is_directory
                    (if size >=? 0 then Some size else None) parent_path
                    rows))) ;;
      mret (0, [])
  end.

Section connection.
(** Whether the connection enforces foreign keys.  [init_database] runs
    [PRAGMA foreign_keys = ON] and does not look at the outcome; the pragma
    has no effect on a SQLite built without foreign keys. *)
Variable foreign_keys : bool.

(** [DELETE FROM paths WHERE id = ?], with [ON DELETE CASCADE] on both link
    tables when foreign keys are enforced and a row goes. *)
Definition delete_path (path_id : Z) (d : database) : database :=
  let cascade :=
    foreign_keys &&
    bool_decide (path_id ∈ p_id <$> default [] (paths d)) in
  Database (filter (fun p => p_id p <> path_id) <$> paths d)
    (categories d)
    (if cascade
     then filter (fun l => l.1 <> path_id) <$> path_categories d
     else path_categories d)
    (tags d)
    (if cascade
     then filter (fun l => l.1 <> path_id) <$> path_tags d
     else path_tags d)
    (settings d).

Definition remove_path_from_db (path : cstring) : M (Z * list notice) :=
  path_id ← get_path_id path;
  if path_id <? 0 then mret (-1, [PathNotFound path])
  else
    w ← get_world;
    match paths (store w) with
    | None => mret (-1, [])
    | Some _ =>
        put_store (delete_path path_id (store w)) ;;
        mret (0, [Removed path])
    end.

(** The foreign keys of a new link row [(path_id, other_id)] are violated:
    they are enforced and one of the rows it names does not exist.  [OR
    IGNORE] does not cover this violation: the statement fails. *)
Definition link_rejected (ps : option (list path_row))
    (others : option (list name_row)) (l : Z * Z) : bool :=
  foreign_keys &&
  negb (bool_decide (l.1 ∈ p_id <$> default [] ps) &&
        bool_decide (l.2 ∈ n_id <$> default [] others)).

(** [INSERT OR IGNORE INTO path_categories]: a link that is there already is
    passed over, and the statement is done; a new one is checked against the
    foreign keys and appended. *)
Definition categorize_path (path category_name : cstring)
  : M (Z * list notice) :=
  path_id ← get_path_id path;
  if path_id <? 0 then mret (-1, [PathNotFound path])
  else
    category_id ← get_category_id category_name;
    if category_id <? 0 then
      mret (-1, [CategoryNotFound category_name;
                 CreateCategoryFirst category_name])
    else
      w ← get_world;
      let d := store w in
      match path_categories d with
      | None => mret (-1, [])
      | Some links =>
          if bool_decide ((path_id, category_id) ∈ links) then
            mret (0, [Categorized path category_name])
          else if link_rejected (paths d) (categories d)
                    (path_id, category_id) then mret (-1, [])
          else
            put_store (set_path_categories d
                         (Some (links ++ [(path_id, category_id)]))) ;;
            mret (0, [Categorized path category_name])
      end.

Definition uncategorize_path (path category_name : cstring)
  : M (Z * list notice) :=
  path_id ← get_path_id path;
  if path_id <? 0 then mret (-1, [PathNotFound path])
  else
    category_id ← get_category_id category_name;
    if category_id <? 0 then mret (-1, [CategoryNotFound category_name])
    else
      w ← get_world;
      let d := store w in
      match path_categories d with
      | None => mret (-1, [])
      | Some links =>
          put_store (set_path_categories d
                       (Some (filter (fun l => l <> (path_id, category_id))
                                links))) ;;
          mret (0, [Uncategorized path category_name])
      end.

(** [SELECT name FROM tags WHERE id = ?] into [actual_name], which starts
    out empty. *)
Fixpoint select_name_by_id (id : Z) (rows : list name_row) : option cstring :=
  match rows with
  | [] => None
  | r :: rows' =>
      if decide (n_id r = id) then Some (n_name r)
      else select_name_by_id id rows'
  end.

Definition actual_tag_name (d : database) (tag_id : Z) : cstring :=
  match tags d with
  | None => []
  | Some rows =>
      match select_name_by_id tag_id rows with
      | Some name => strncpy_buf MAX_TAG_LENGTH name
      | None => []
      end
  end.

Definition tag_path (path tag_name : cstring) : M (Z * list notice) :=
  path_id ← get_path_id path;
  if path_id <? 0 then mret (-1, [PathNotFound path])
  else
    tag_id ← get_or_create_tag_with_check tag_name;
    if tag_id <? 0 then mret (-1, [])
    else
      w ← get_world;
      let d := store w in
      match path_tags d with
      | None => mret (-1, [])
      | Some links =>
          if bool_decide ((path_id, tag_id) ∈ links) then
            mret (0, [AlreadyTagged (actual_tag_name d tag_id)])
          else if link_rejected (paths d) (tags d) (path_id, tag_id) then
            mret (-1, [])
          else
            put_store (set_path_tags d (Some (links ++ [(path_id, tag_id)]))) ;;
            w' ← get_world;
            mret (0, [Tagged path (actual_tag_name (store w') tag_id)])
      end.

Definition untag_path (path tag_name : cstring) : M (Z * list notice) :=
  path_id ← get_path_id path;
  if path_id <? 0 then mret (-1, [PathNotFound path])
  else
    tag_id ← get_tag_id tag_name;
    if tag_id <? 0 then mret (-1, [TagNotFound tag_name])
    else
      w ← get_world;
      let d := store w in
      match path_tags d with
      | None => mret (-1, [])
      | Some links =>
          put_store (set_path_tags d
                       (Some (filter (fun l => l <> (path_id, tag_id)) links))) ;;
          mret (0, [Untagged path tag_name])
      end.

End connection.

(** *** Search by name *)

(** The rows [search_paths_exact] prints, in the order printed:
    [WHERE name = ? COLLATE NOCASE LIMIT ?] over the table in scan order. *)
Definition search_paths_exact (query : cstring) : M (list path_result) :=
  max_results ← get_int_setting (str "max_results") DEFAULT_MAX_RESULTS;
  w ← get_world;
  match paths (store w) with
  | None => mret []
  | Some rows =>
      mret (sql_limit max_results
              (project <$>
               filter (fun p => nocase_eqb (p_name p) query = true) rows))
  end.

(** [WHERE name LIKE ? || '%' COLLATE NOCASE LIMIT ?]; the collation is
    attached to the literal and [LIKE] folds ASCII case whatever it is. *)
Definition search_paths_prefix (query : cstring) : M (list path_result) :=
  max_results ← get_int_setting (str "max_results") DEFAULT_MAX_RESULTS;
  w ← get_world;
  match paths (store w) with
  | None => mret []
  | Some rows =>
      mret (sql_limit max_results
              (project <$>
               filter (fun p => like_match (query ++ ["%"%char]) (p_name p)
                                = true) rows))
  end.

(** [WHERE name LIKE '%' || ? || '%' COLLATE NOCASE LIMIT ?] *)
Definition search_paths_substring (query : cstring) : M (list path_result) :=
  max_results ← get_int_setting (str "max_results") DEFAULT_MAX_RESULTS;
  w ← get_world;
  match paths (store w) with
  | None => mret []
  | Some rows =>
      mret (sql_limit max_results
              (project <$>
               filter (fun p => like_contains (p_name p) query = true) rows))
  end.

(** The four sections [search_paths_all] prints. *)
Definition search_paths_all (query : cstring)
  : M (list path_result * list path_result * list path_result *
       list (path_row * Z)) :=
  exact ← search_paths_exact query;
  prefix ← search_paths_prefix query;
  substring ← search_paths_substring query;
  fuzzy ← search_paths_fuzzy query (-1);
  mret (exact, prefix, substring, fuzzy).

(** *** Command arguments *)

Definition MAX_INPUT_LENGTH : nat := 512.

(** The tokens [strtok(s, " ")] and its continuations return, in order. *)
Fixpoint strtok_from (token : cstring) (s : cstring) : list cstring :=
  match s with
  | [] => match token with [] => [] | _ :: _ => [token] end
  | c :: s' =>
      if decide (c = " "%char) then
        match token with
        | [] => strtok_from [] s'
        | _ :: _ => token :: strtok_from [] s'
        end
      else strtok_from (token ++ [c]) s'
  end.

Definition strtok (s : cstring) : list cstring := strtok_from [] s.

(** The loop of [parse_find_args] over the tokens still to come; [found] is
    the contents of [category], [tag] and [name]. *)
Fixpoint parse_find_tokens (size : nat) (tokens : list cstring)
    (found : cstring * cstring * cstring) : cstring * cstring * cstring :=
  let '(category, tag, name) := found in
  match tokens with
  | [] => found
  | token :: rest =>
      if bool_decide (token = str "--category") ||
         bool_decide (token = str "-c") then
        match rest with
        | value :: rest' =>
            parse_find_tokens size rest' (strncpy_buf size value, tag, name)
        | [] => found
        end
      else if bool_decide (token = str "--tag") ||
              bool_decide (token = str "-t") then
        match rest with
        | value :: rest' =>
            parse_find_tokens size rest' (category, strncpy_buf size value, name)
        | [] => found
        end
      else if bool_decide (token = str "--name") ||
              bool_decide (token = str "-n") then
        match rest with
        | value :: rest' =>
            parse_find_tokens size rest' (category, tag, strncpy_buf size value)
        | [] => found
        end
      else parse_find_tokens size rest found
  end.

(** The contents of [category], [tag] and [name], each of [size] bytes, on
    return. *)
Definition parse_find_args (args : cstring) (size : nat)
  : cstring * cstring * cstring :=
  let args_copy := strncpy_buf MAX_INPUT_LENGTH args in
  parse_find_tokens size (strtok args_copy) ([], [], []).

(** The contents of [arg1] and [arg2], of [size1] and [size2] bytes, on
    return. *)
Definition parse_two_args (input : cstring) (size1 size2 : nat)
  : cstring * cstring :=
  match strrchr_split " "%char input with
  | Some (before, after) =>
      let path_len := length before in
      let path_len :=
        if (size1 <=? path_len)%nat then (size1 - 1)%nat else path_len in
      (trim_whitespace (take path_len input),
       trim_whitespace (strncpy_buf size2 after))
  | None => ([], [])
  end.

(** *** Vocabulary of the further properties *)

(** The id [get_path_id] reads for [path] in a store. *)
Definition path_id_of (d : database) (path : cstring) : Z :=
  match paths d with
  | None => -1
  | Some rows =>
      match select_path_id path rows with
      | Some id => column_int id
      | None => -1
      end
  end.

(** Rowids of [paths] as SQLite hands them out, within the range
    [sqlite3_column_int] returns unchanged. *)
Definition path_ids_ok (rows : list path_row) : Prop :=
  Forall (fun p => 1 <= p_id p <= INT_MAX) rows.

(** A [LIMIT] of [n] has cut nothing off the [shown] rows. *)
Definition not_cut {A : Type} (n : Z) (shown : list A) : Prop :=
  n < 0 \/ Z.of_nat (length shown) < n.

(** A word as [strtok] delimits it: not empty, no space inside. *)
Definition word (s : cstring) : Prop := s <> [] /\ " "%char ∉ s.

(** Words with single spaces between them. *)
Fixpoint join_words (ws : list cstring) : cstring :=
  match ws with
  | [] => []
  | [w] => w
  | w :: ws' => w ++ " "%char :: join_words ws'
  end.

(** The fields [parse_find_args] fills, and the flags that name each. *)
Inductive find_field : Type := FindCategory | FindTag | FindName.

Global Instance find_field_eq_dec : EqDecision find_field.
Proof. solve_decision. Defined.

Definition flags_of (f : find_field) : list cstring :=
  match f with
  | FindCategory => [str "--category"; str "-c"]
  | FindTag => [str "--tag"; str "-t"]
  | FindName => [str "--name"; str "-n"]
  end.

(** A flag of the command line with the word that follows it. *)
Record find_option : Type := FindOption {
  fo_field : find_field;
  fo_flag : cstring;
  fo_value : cstring
}.

Definition well_formed (o : find_option) : Prop :=
  fo_flag o ∈ flags_of (fo_field o) /\ word (fo_value o).

(** The command line that gives the options in this order. *)
Definition render_options (opts : list find_option) : cstring :=
  join_words (o ← opts; [fo_flag o; fo_value o]).

(** The value of the last option for the field [f]; empty without one. *)
Definition last_value (f : find_field) (opts : list find_option) : cstring :=
  default [] (last (fo_value <$> filter (fun o => fo_field o = f) opts)).

(* ===================================================================== *)
(** * Properties *)
(* ===================================================================== *)

(** ** The model on small inputs *)

Example levenshtein_kitten :
  levenshtein alloc_ok (str "kitten") (str "Sitting") = 3.
Proof. reflexivity. Qed.

Example levenshtein_finance :
  levenshtein alloc_ok (str "Finance") (str "finanse") = 1.
Proof. reflexivity. Qed.

Example levenshtein_no_memory :
  levenshtein (Alloc false true) (str "flaw") (str "lawn") = -1.
Proof. reflexivity. Qed.

Example levenshtein_empty_no_memory :
  levenshtein (Alloc false false) (str "") (str "lawn") = 4.
Proof. reflexivity. Qed.

Example is_substring_match_either_way :
  is_substring_match (str "Work") (str "homework") = true /\
  is_substring_match (str "homework") (str "WORK") = true /\
  is_substring_match (str "work") (str "word") = false.
Proof. by vm_compute. Qed.

Example atoi_examples :
  atoi (str "  -12 apples") = -12 /\ atoi (str "+7") = 7 /\
  atoi (str "x3") = 0 /\ atoi (format_int 20) = 20.
Proof. by vm_compute. Qed.

Example like_examples :
  like_contains (str "Zelda.sav") (str "zel") = true /\
  like_contains (str "Zelda.sav") (str "z_l") = true /\
  like_contains (str "Zelda.sav") (str "a%v") = true /\
  like_contains (str "Zelda.sav") (str "zed") = false.
Proof. by vm_compute. Qed.

Example read_answer_examples :
  read_answer (str "  Yes please") = (true, []) /\
  read_answer ["n"; "010"; "y"; "010"]%char = (false, ["y"; "010"]%char) /\
  read_answer [] = (false, []) /\
  read_answer (str "no, not at all, yes") = (false, str " yes").
Proof. by vm_compute. Qed.

Example new_store_is_seeded :
  let r := init_database
             (World true true true true (fun _ => alloc_ok) false
                empty_database false [] []) in
  r.1 = 0 /\
  n_name <$> default [] (categories (store r.2)) = default_categories /\
  read_int_setting (store r.2) (str "schema_version") 0 = 1 /\
  read_int_setting (store r.2) (str "max_results") 0 = 20.
Proof. by vm_compute. Qed.

Example use_existing_tag :
  let w := World true true true true (fun _ => alloc_ok) true
             (Database (Some []) (Some []) (Some [])
                (Some [NameRow 1 (str "Urgent")]) (Some []) (Some []))
             true ["n"; "010"; "y"; "010"]%char [] in
  let r := get_or_create_tag_with_check (str "Urgant") w in
  r.1 = 1 /\ store r.2 = store w.
Proof. by vm_compute. Qed.

(** ** The recurrence computes the minimum over edit sequences *)

Lemma lev_nil_r (a : cstring) : lev a [] = length a.
Proof. by destruct a. Qed.

Lemma lev_cons (x y : ascii) (a b : cstring) :
  lev (x :: a) (y :: b) =
    Nat.min (S (lev a (y :: b)))
      (Nat.min (S (lev (x :: a) b))
         ((if decide (x = y) then 0 else 1) + lev a b))%nat.
Proof. reflexivity. Qed.

Lemma aligned_nil_l (b : cstring) : aligned [] b (length b).
Proof. induction b; simpl; by constructor. Qed.

Lemma aligned_nil_r (a : cstring) : aligned a [] (length a).
Proof. induction a; simpl; by constructor. Qed.

Lemma lev_aligned (a b : cstring) : aligned a b (lev a b).
Proof.
  revert b. induction a as [|x a IHa]; intros b.
  - apply aligned_nil_l.
  - induction b as [|y b IHb].
    + rewrite lev_nil_r. apply aligned_nil_r.
    + rewrite lev_cons.
      destruct (Nat.min_spec (S (lev a (y :: b)))
                  (Nat.min (S (lev (x :: a) b))
                     ((if decide (x = y) then 0 else 1) + lev a b)))
        as [[_ ->]|[_ ->]].
      { apply al_del, IHa. }
      destruct (Nat.min_spec (S (lev (x :: a) b))
                  ((if decide (x = y) then 0 else 1) + lev a b))
        as [[_ ->]|[_ ->]].
      { apply al_ins, IHb. }
      destruct (decide (x = y)) as [->|_]; simpl.
      * apply al_keep, IHa.
      * apply al_sub, IHa.
Qed.

Lemma aligned_lev_le (a b : cstring) (n : nat) :
  aligned a b n -> (lev a b <= n)%nat.
Proof.
  induction 1 as [|c a b n _ IH|c a b n _ IH|c d a b n _ IH|c a b n _ IH].
  - simpl. lia.
  - destruct a as [|x a]; [simpl in *; lia|]. rewrite lev_cons. lia.
  - destruct b as [|y b]; [rewrite lev_nil_r in *; simpl; lia|].
    rewrite lev_cons. lia.
  - rewrite lev_cons. destruct (decide (c = d)); lia.
  - rewrite lev_cons. rewrite decide_True by done. lia.
Qed.

Lemma aligned_refl (a : cstring) : aligned a a 0.
Proof. induction a; by constructor. Qed.

(** Scripts compose: the triangle inequality. *)
Lemma aligned_trans (a b : cstring) (n : nat) :
  aligned a b n ->
  forall c m, aligned b c m -> exists k, (k <= n + m)%nat /\ aligned a c k.
Proof.
  induction 1 as [|x a b n _ IH|x a b n _ IH|x y a b n _ IH|x a b n _ IH];
    intros c m Hbc.
  - exists m. split; [lia|done].
  - remember (x :: b) as xb eqn:E. revert E.
    induction Hbc as [|z b0 c m _ IHin|z b0 c m Hb|z w b0 c m Hb|z b0 c m Hb];
      intros E; simplify_eq.
    + destruct (IHin eq_refl) as (k & ? & ?).
      exists (S k). split; [lia|by constructor].
    + destruct (IH _ _ Hb) as (k & ? & ?). exists k. split; [lia|done].
    + destruct (IH _ _ Hb) as (k & ? & ?).
      exists (S k). split; [lia|by constructor].
    + destruct (IH _ _ Hb) as (k & ? & ?).
      exists (S k). split; [lia|by constructor].
  - destruct (IH _ _ Hbc) as (k & ? & ?).
    exists (S k). split; [lia|by constructor].
  - remember (y :: b) as yb eqn:E. revert E.
    induction Hbc as [|z b0 c m _ IHin|z b0 c m Hb|z w b0 c m Hb|z b0 c m Hb];
      intros E; simplify_eq.
    + destruct (IHin eq_refl) as (k & ? & ?).
      exists (S k). split; [lia|by constructor].
    + destruct (IH _ _ Hb) as (k & ? & ?).
      exists (S k). split; [lia|by constructor].
    + destruct (IH _ _ Hb) as (k & ? & ?).
      exists (S k). split; [lia|by constructor].
    + destruct (IH _ _ Hb) as (k & ? & ?).
      exists (S k). split; [lia|by constructor].
  - remember (x :: b) as xb eqn:E. revert E.
    induction Hbc as [|z b0 c m _ IHin|z b0 c m Hb|z w b0 c m Hb|z b0 c m Hb];
      intros E; simplify_eq.
    + destruct (IHin eq_refl) as (k & ? & ?).
      exists (S k). split; [lia|by constructor].
    + destruct (IH _ _ Hb) as (k & ? & ?).
      exists (S k). split; [lia|by constructor].
    + destruct (IH _ _ Hb) as (k & ? & ?).
      exists (S k). split; [lia|by constructor].
    + destruct (IH _ _ Hb) as (k & ? & ?).
      exists k. split; [lia|by constructor].
Qed.

Lemma edit_step_aligned (a b : cstring) : edit_step a b -> aligned a b 1.
Proof.
  destruct 1 as [l c r|l c r|l c d r]; induction l as [|x l IH]; simpl;
    try (by apply al_keep).
  - apply al_ins, aligned_refl.
  - apply al_del, aligned_refl.
  - apply al_sub, aligned_refl.
Qed.

Lemma edit_step_cons (c : ascii) (a b : cstring) :
  edit_step a b -> edit_step (c :: a) (c :: b).
Proof.
  destruct 1 as [l x r|l x r|l x y r].
  - apply (edit_insert (c :: l)).
  - apply (edit_delete (c :: l)).
  - apply (edit_subst (c :: l)).
Qed.

Lemma edit_step_sym (a b : cstring) : edit_step a b -> edit_step b a.
Proof. destruct 1; constructor. Qed.

Lemma edit_step_rev (a b : cstring) :
  edit_step a b -> edit_step (rev a) (rev b).
Proof.
  destruct 1 as [l x r|l x r|l x y r];
    rewrite !rev_app_distr; simpl; rewrite <- !app_assoc; simpl; constructor.
Qed.

Lemma transforms_cons (c : ascii) (n : nat) (a b : cstring) :
  transforms n a b -> transforms n (c :: a) (c :: b).
Proof.
  unfold transforms. induction 1 as [|n a a' b Hstep _ IH]; [constructor|].
  eapply nsteps_l; [by apply edit_step_cons|done].
Qed.

Lemma transforms_sym (n : nat) (a b : cstring) :
  transforms n a b -> transforms n b a.
Proof.
  unfold transforms. induction 1 as [|n a a' b Hstep _ IH]; [constructor|].
  eapply nsteps_r; [done|by apply edit_step_sym].
Qed.

Lemma transforms_rev (n : nat) (a b : cstring) :
  transforms n a b -> transforms n (rev a) (rev b).
Proof.
  unfold transforms. induction 1 as [|n a a' b Hstep _ IH]; [constructor|].
  eapply nsteps_l; [by apply edit_step_rev|done].
Qed.

Lemma aligned_transforms (a b : cstring) (n : nat) :
  aligned a b n -> transforms n a b.
Proof.
  induction 1 as [|c a b n _ IH|c a b n _ IH|c d a b n _ IH|c a b n _ IH].
  - constructor.
  - eapply nsteps_r; [exact IH|]. apply (edit_insert []).
  - eapply nsteps_l; [apply (edit_delete [])|exact IH].
  - eapply nsteps_l; [apply (edit_subst [] c d)|]. by apply transforms_cons.
  - by apply transforms_cons.
Qed.

Lemma transforms_lev_le (n : nat) (a b : cstring) :
  transforms n a b -> (lev a b <= n)%nat.
Proof.
  unfold transforms. induction 1 as [a|n a a' b Hstep _ IH].
  - apply aligned_lev_le, aligned_refl.
  - destruct (aligned_trans _ _ _ (edit_step_aligned _ _ Hstep) _ _
                (lev_aligned a' b)) as (k & Hk & Hal).
    apply aligned_lev_le in Hal. lia.
Qed.

Lemma lev_is_edit_distance (a b : cstring) : is_edit_distance a b (lev a b).
Proof.
  split.
  - apply aligned_transforms, lev_aligned.
  - intros m. apply transforms_lev_le.
Qed.

Lemma is_edit_distance_unique (a b : cstring) (n m : nat) :
  is_edit_distance a b n -> is_edit_distance a b m -> n = m.
Proof. intros [Hn Hn'] [Hm Hm']. apply Hn' in Hm. apply Hm' in Hn. lia. Qed.

Lemma lev_sym (a b : cstring) : lev a b = lev b a.
Proof.
  apply Nat.le_antisymm; apply transforms_lev_le, transforms_sym,
    aligned_transforms, lev_aligned.
Qed.

Lemma lev_rev (a b : cstring) : lev (rev a) (rev b) = lev a b.
Proof.
  apply Nat.le_antisymm.
  - apply transforms_lev_le, transforms_rev, aligned_transforms, lev_aligned.
  - rewrite <- (rev_involutive a), <- (rev_involutive b) at 1.
    apply transforms_lev_le, transforms_rev, aligned_transforms, lev_aligned.
Qed.

Lemma lev_refl (a : cstring) : lev a a = 0%nat.
Proof. pose proof (aligned_lev_le _ _ _ (aligned_refl a)). lia. Qed.

Lemma lev_le_max (a b : cstring) : (lev a b <= Nat.max (length a) (length b))%nat.
Proof.
  revert b. induction a as [|x a IH]; intros [|y b]; [simpl; lia..|].
  rewrite lev_cons. specialize (IH b). simpl length.
  destruct (decide (x = y)); lia.
Qed.

(** ** The two-row computation *)

Lemma to_int_id (z : Z) : -2147483648 <= z <= INT_MAX -> to_int z = z.
Proof.
  unfold to_int, INT_MAX. intros Hz.
  rewrite Z.mod_small by lia. lia.
Qed.

Lemma min3_min (a b c : Z) : min3 a b c = Z.min a (Z.min b c).
Proof. unfold min3. repeat case_match; lia. Qed.

(** A loop [for (k = m; k < m + n; k++) s = f s k] keeps an invariant. *)
Lemma foldl_seqZ_inv {St : Type} (P : Z -> St -> Prop) (f : St -> Z -> St)
    (m n : Z) (s : St) :
  0 <= n ->
  P m s ->
  (forall k t, m <= k < m + n -> P k t -> P (k + 1) (f t k)) ->
  P (m + n) (foldl f s (seqZ m n)).
Proof.
  intros Hn Hs Hstep. rewrite <- (Z2Nat.id n) in Hstep |- * by done.
  clear Hn. induction (Z.to_nat n) as [|k IH].
  - by rewrite seqZ_nil, Z.add_0_r by done.
  - rewrite seqZ_S, foldl_app. simpl.
    replace (m + Z.of_nat (S k)) with (m + Z.of_nat k + 1) by lia.
    apply Hstep; [lia|]. apply IH. intros; apply Hstep; [lia|done].
Qed.

Section two_rows.
Variables s1 s2 : cstring.
Hypothesis Hfit : strlen s2 < INT_MAX.
Hypothesis Hle : strlen s1 <= strlen s2.

Let n1 : nat := length s1.
Let n2 : nat := length s2.

Local Abbreviation cell := (cell s1 s2).
Local Abbreviation row_ok := (row_ok s1 s2).

Lemma cell_0_r (i : nat) : (i <= n1)%nat -> cell i 0 = Z.of_nat i.
Proof.
  intros Hi. unfold cell. rewrite take_0. simpl rev. rewrite lev_nil_r.
  rewrite length_rev, length_take_le; [done|].
  unfold str_to_lower. rewrite length_fmap. done.
Qed.

Lemma cell_0_l (j : nat) : (j <= n2)%nat -> cell 0 j = Z.of_nat j.
Proof.
  intros Hj. unfold cell. rewrite take_0. simpl.
  rewrite length_rev, length_take_le; [done|].
  unfold str_to_lower. rewrite length_fmap. done.
Qed.

Lemma cell_bound (i j : nat) :
  (i <= n1)%nat -> (j <= n2)%nat -> 0 <= cell i j < INT_MAX.
Proof.
  intros Hi Hj. unfold cell.
  pose proof (lev_le_max (rev (take i (str_to_lower s1)))
                (rev (take j (str_to_lower s2)))) as Hmax.
  rewrite !length_rev, !length_take in Hmax.
  unfold strlen in *. subst n1 n2. lia.
Qed.

Lemma take_lower_S (s : cstring) (i : nat) :
  (i < length s)%nat ->
  rev (take (S i) (str_to_lower s)) =
    tolower (char_at s (Z.of_nat i)) :: rev (take i (str_to_lower s)).
Proof.
  intros Hi. destruct (lookup_lt_is_Some_2 s i Hi) as [c Hc].
  unfold char_at. rewrite Nat2Z.id, (nth_lookup_Some _ _ _ _ Hc).
  rewrite (take_S_r _ _ (tolower c)).
  - by rewrite rev_unit.
  - unfold str_to_lower. by rewrite list_lookup_fmap, Hc.
Qed.

Lemma cell_S (i j : nat) :
  (i < n1)%nat -> (j < n2)%nat ->
  cell (S i) (S j) =
    min3 (cell (S i) j + 1) (cell i (S j) + 1)
      (cell i j +
         (if decide (tolower (char_at s1 (Z.of_nat i)) =
                     tolower (char_at s2 (Z.of_nat j)))
          then 0 else 1)).
Proof.
  intros Hi Hj. unfold cell.
  rewrite !take_lower_S by done. rewrite lev_cons.
  rewrite <- !take_lower_S by done.
  rewrite min3_min, !Nat2Z.inj_min.
  destruct (decide _); lia.
Qed.

Lemma init_prev_ok :
  row_ok 0 (init_prev (Z.of_nat n1) (malloc_ints (Z.of_nat n1 + 1))).
Proof.
  unfold init_prev.
  pose (P := fun (k : Z) (row : list Z) =>
    length row = S n1 /\
    forall i : nat, Z.of_nat i < k -> row !!! i = Z.of_nat i).
  assert (P (0 + (Z.of_nat n1 + 1))
            (foldl (fun row i => <[Z.to_nat i := i]> row)
               (malloc_ints (Z.of_nat n1 + 1))
               (seqZ 0 (Z.of_nat n1 + 1)))) as [Hlen Hrow].
  { apply foldl_seqZ_inv; [lia| |].
    - split; [|lia]. unfold malloc_ints. rewrite length_replicate. lia.
    - intros k row Hk [Hlen Hrow]. split; [by rewrite length_insert|].
      intros i Hi. destruct (decide (i = Z.to_nat k)) as [->|Hne].
      + rewrite list_lookup_total_insert_eq by lia. lia.
      + rewrite list_lookup_total_insert_ne by done. apply Hrow. lia. }
  split; [done|]. intros i Hi. rewrite cell_0_r by done. apply Hrow. lia.
Qed.

Lemma inner_loop_ok (j : nat) (prev curr : list Z) :
  (j < n2)%nat ->
  row_ok j prev ->
  length curr = S n1 ->
  row_ok (S j)
    (foldl (inner_step s1 s2 (Z.of_nat (S j)) prev)
       (<[0%nat := Z.of_nat (S j)]> curr) (seqZ 1 (Z.of_nat n1))).
Proof.
  intros Hj [Hplen Hprev] Hclen.
  pose (P := fun (k : Z) (row : list Z) =>
    length row = S n1 /\
    forall i : nat, Z.of_nat i < k -> row !!! i = cell i (S j)).
  assert (P (1 + Z.of_nat n1)
            (foldl (inner_step s1 s2 (Z.of_nat (S j)) prev)
               (<[0%nat := Z.of_nat (S j)]> curr) (seqZ 1 (Z.of_nat n1))))
    as [Hlen Hrow].
  { apply foldl_seqZ_inv; [lia| |].
    - split; [by rewrite length_insert|].
      intros i Hi. assert (i = 0%nat) as -> by lia.
      rewrite list_lookup_total_insert_eq by lia.
      by rewrite cell_0_l by lia.
    - intros k row Hk [Hlen Hrow]. unfold inner_step.
      split; [by rewrite length_insert|].
      intros i Hi. destruct (decide (i = Z.to_nat k)) as [->|Hne].
      + rewrite list_lookup_total_insert_eq by lia.
        pose (i := Z.to_nat (k - 1)).
        replace (Z.to_nat k) with (S i) by lia.
        replace (k - 1) with (Z.of_nat i) by lia.
        replace (Z.of_nat (S j) - 1) with (Z.of_nat j) by lia.
        rewrite Nat2Z.id, !Hprev, Hrow by lia.
        pose proof (cell_bound (S i) j ltac:(lia) ltac:(lia)).
        pose proof (cell_bound i (S j) ltac:(lia) ltac:(lia)).
        pose proof (cell_bound i j ltac:(lia) ltac:(lia)).
        unfold int_add. rewrite !to_int_id by (try case_decide; lia).
        rewrite cell_S by lia. done.
      + rewrite list_lookup_total_insert_ne by done. apply Hrow. lia. }
  split; [done|]. intros i Hi. apply Hrow. lia.
Qed.

Lemma outer_loop_ok (curr : list Z) :
  length curr = S n1 ->
  row_ok n2
    (foldl (outer_step s1 s2 (Z.of_nat n1))
       (init_prev (Z.of_nat n1) (malloc_ints (Z.of_nat n1 + 1)), curr)
       (seqZ 1 (Z.of_nat n2))).1.
Proof.
  intros Hclen.
  pose (P := fun (j : Z) (rows : list Z * list Z) =>
    row_ok (Z.to_nat (j - 1)) rows.1 /\ length rows.2 = S n1).
  assert (P (1 + Z.of_nat n2)
            (foldl (outer_step s1 s2 (Z.of_nat n1))
               (init_prev (Z.of_nat n1) (malloc_ints (Z.of_nat n1 + 1)), curr)
               (seqZ 1 (Z.of_nat n2)))) as [Hrow _].
  { apply foldl_seqZ_inv; [lia| |].
    - split; [apply init_prev_ok|done].
    - intros j [prev cur] Hj [Hprev Hcur]. simpl in *. split; simpl.
      + remember (Z.to_nat (j - 1)) as j' eqn:Ej.
        assert (j = Z.of_nat (S j')) as -> by lia.
        replace (Z.to_nat (Z.of_nat (S j') + 1 - 1)) with (S j') by lia.
        apply inner_loop_ok; [lia|done|done].
      + apply Hprev. }
  replace (Z.to_nat (1 + Z.of_nat n2 - 1)) with n2 in Hrow by lia. done.
Qed.

Lemma two_rows_result (curr : list Z) :
  length curr = S n1 ->
  (foldl (outer_step s1 s2 (Z.of_nat n1))
     (init_prev (Z.of_nat n1) (malloc_ints (Z.of_nat n1 + 1)), curr)
     (seqZ 1 (Z.of_nat n2))).1 !!! n1 =
  Z.of_nat (lev (str_to_lower s1) (str_to_lower s2)).
Proof.
  intros Hclen. destruct (outer_loop_ok curr Hclen) as [_ Hrow].
  rewrite Hrow by done. unfold cell.
  rewrite !take_ge by (unfold str_to_lower; rewrite length_fmap; done).
  by rewrite lev_rev.
Qed.
End two_rows.

(** ** What [levenshtein] returns *)

Lemma strlen_to_int (s : cstring) : fits_int s -> to_int (strlen s) = strlen s.
Proof. unfold fits_int, strlen. intros. apply to_int_id. unfold INT_MAX in *. lia. Qed.

Lemma levenshtein_spec (al : alloc) (s1 s2 : cstring) :
  fits_int s1 -> fits_int s2 ->
  levenshtein al s1 s2 =
    if alloc_failed al s1 s2 then -1
    else Z.of_nat (lev (str_to_lower s1) (str_to_lower s2)).
Proof.
  intros H1 H2. unfold levenshtein, alloc_failed.
  rewrite !strlen_to_int by done.
  destruct (Z.eqb_spec (strlen s1) 0) as [E1|E1]; simpl.
  { destruct s1; [|discriminate]. simpl. unfold strlen, str_to_lower.
    by rewrite length_fmap. }
  destruct (Z.eqb_spec (strlen s2) 0) as [E2|E2]; simpl.
  { destruct s2; [|discriminate]. simpl. unfold strlen, str_to_lower.
    by rewrite lev_nil_r, length_fmap. }
  assert (forall a b, fits_int b -> strlen a <= strlen b ->
    (foldl (outer_step a b (strlen a))
       (init_prev (strlen a) (malloc_ints (int_add (strlen a) 1)),
        malloc_ints (int_add (strlen a) 1))
       (seqZ 1 (strlen b))).1 !!! Z.to_nat (strlen a) =
    Z.of_nat (lev (str_to_lower a) (str_to_lower b))) as Hrows.
  { intros a b Hb Hab. unfold int_add.
    rewrite to_int_id by (unfold fits_int, strlen, INT_MAX in *; lia).
    change (Z.to_nat (strlen a)) with (Z.to_nat (Z.of_nat (length a))).
    rewrite Nat2Z.id.
    apply two_rows_result; [done|done|].
    unfold malloc_ints, strlen. rewrite length_replicate. lia. }
  destruct (Z.gtb_spec (strlen s1) (strlen s2)) as [Hgt|Hle];
    destruct (negb (prev_ok al) || negb (curr_ok al)); try done.
  - specialize (Hrows s2 s1 H1 ltac:(lia)).
    destruct (foldl _ _ _) as [prev cur]. simpl in Hrows.
    by rewrite Hrows, lev_sym.
  - specialize (Hrows s1 s2 H2 ltac:(lia)).
    destruct (foldl _ _ _) as [prev cur]. simpl in Hrows. done.
Qed.

(** C1. When both working rows are allocated, [levenshtein a b] is
    the Levenshtein distance computed case-insensitively: the minimum number
    of single-character insertions, deletions and substitutions that
    transform the ASCII-lowercase folding of [a] into that of [b].  In
    particular [levenshtein s s = 0] and [levenshtein "" s = strlen s].
    Strings are those whose length fits an [int]. *)
Theorem levenshtein_edit_distance (al : alloc) (a b : cstring) :
  prev_ok al = true -> curr_ok al = true ->
  fits_int a -> fits_int b ->
  (exists n : nat,
      levenshtein al a b = Z.of_nat n /\
      is_edit_distance (str_to_lower a) (str_to_lower b) n) /\
  levenshtein al a a = 0 /\
  levenshtein al [] a = strlen a.
Proof.
  intros Hp Hc Ha Hb.
  assert (forall x y, alloc_failed al x y = false) as Hok.
  { intros x y. unfold alloc_failed. rewrite Hp, Hc. simpl.
    by rewrite andb_false_r. }
  split; [|split].
  - exists (lev (str_to_lower a) (str_to_lower b)). split.
    + by rewrite levenshtein_spec, Hok.
    + apply lev_is_edit_distance.
  - by rewrite levenshtein_spec, Hok, lev_refl.
  - rewrite levenshtein_spec, Hok by (done || by unfold fits_int).
    simpl. unfold strlen, str_to_lower. by rewrite length_fmap.
Qed.

Lemma levenshtein_edit_distance_witness :
  (prev_ok alloc_ok = true /\ curr_ok alloc_ok = true /\
   fits_int (str "kitten") /\ fits_int (str "Sitting")) /\
  (exists n : nat,
      levenshtein alloc_ok (str "kitten") (str "Sitting") = Z.of_nat n /\
      is_edit_distance (str_to_lower (str "kitten"))
        (str_to_lower (str "Sitting")) n) /\
  levenshtein alloc_ok (str "kitten") (str "kitten") = 0 /\
  levenshtein alloc_ok [] (str "kitten") = strlen (str "kitten").
Proof.
  assert (fits_int (str "kitten")) as Ha by (by vm_compute).
  assert (fits_int (str "Sitting")) as Hb by (by vm_compute).
  split; [by repeat split|].
  apply (levenshtein_edit_distance alloc_ok (str "kitten") (str "Sitting"));
    done.
Defined.

(** C10. [levenshtein a b] is negative, and then equal to the
    sentinel -1, exactly when a working-row allocation fails; when both
    allocations succeed the result is non-negative; and the SQL function
    forwards whatever [levenshtein] returns, the sentinel included. *)
Theorem levenshtein_sentinel (al : alloc) (a b : cstring) :
  fits_int a -> fits_int b ->
  (levenshtein al a b < 0 <-> alloc_failed al a b = true) /\
  (alloc_failed al a b = true -> levenshtein al a b = -1) /\
  (alloc_failed al a b = false -> 0 <= levenshtein al a b) /\
  sqlite_levenshtein al [Some a; Some b] = SqlInt (levenshtein al a b).
Proof.
  intros Ha Hb.
  assert (sqlite_levenshtein al [Some a; Some b] = SqlInt (levenshtein al a b))
    as Hsql by reflexivity.
  rewrite Hsql, levenshtein_spec by done.
  destruct (alloc_failed al a b).
  - split; [split; [done|lia]|]. split; [done|]. split; [done|done].
  - split; [split; [lia|done]|]. split; [done|]. split; [lia|done].
Qed.

Lemma levenshtein_sentinel_witness :
  (fits_int (str "flaw") /\ fits_int (str "lawn")) /\
  (levenshtein (Alloc true false) (str "flaw") (str "lawn") < 0 <->
   alloc_failed (Alloc true false) (str "flaw") (str "lawn") = true) /\
  (alloc_failed (Alloc true false) (str "flaw") (str "lawn") = true ->
   levenshtein (Alloc true false) (str "flaw") (str "lawn") = -1) /\
  (alloc_failed (Alloc true false) (str "flaw") (str "lawn") = false ->
   0 <= levenshtein (Alloc true false) (str "flaw") (str "lawn")) /\
  sqlite_levenshtein (Alloc true false) [Some (str "flaw"); Some (str "lawn")] =
    SqlInt (levenshtein (Alloc true false) (str "flaw") (str "lawn")).
Proof.
  assert (fits_int (str "flaw")) as Ha by (by vm_compute).
  assert (fits_int (str "lawn")) as Hb by (by vm_compute).
  split; [by split|].
  apply (levenshtein_sentinel (Alloc true false) (str "flaw") (str "lawn"));
    done.
Defined.

(** ** The similarity guard *)

Lemma get_int_setting_run (key : cstring) (dflt : Z) (w : world) :
  get_int_setting key dflt w =
    (read_int_setting (store w) key dflt, log (EvSql (SelectSetting key)) w).
Proof. reflexivity. Qed.

Lemma get_tag_id_run (name : cstring) (w : world) :
  get_tag_id name w =
    (lookup_id (tags (store w)) name, log (EvSql (SelectTagId name)) w).
Proof. reflexivity. Qed.

Lemma find_similar_tags_run (new_tag : cstring) (size : nat) (w : world) :
  find_similar_tags new_tag size w =
    (similar_tags (malloc_outcome w) (store w) new_tag size
       (read_int_setting (store w) (str "similarity_threshold")
          DEFAULT_SIMILARITY_THRESHOLD),
     log (EvSql SelectAllTags)
       (log (EvSql (SelectSetting (str "similarity_threshold"))) w)).
Proof. reflexivity. Qed.

Lemma get_confirmation_run (p : prompt) (w : world) :
  get_confirmation p w =
    ((read_answer (stdin w)).1,
     set_stdin (read_answer (stdin w)).2 (log (EvPrompt p) w)).
Proof. reflexivity. Qed.

Lemma select_id_nocase_first (name : cstring) (rows : list name_row) :
  (exists r, r ∈ rows /\ str_to_lower (n_name r) = str_to_lower name) ->
  exists r, r ∈ rows /\ str_to_lower (n_name r) = str_to_lower name /\
            select_id_nocase name rows = Some (n_id r).
Proof.
  induction rows as [|r0 rows IH]; intros (r & Hin & Hr).
  - by apply elem_of_nil in Hin.
  - simpl. unfold nocase_eqb. case_bool_decide as Hr0.
    + exists r0. split; [left|done].
    + apply elem_of_cons in Hin as [->|Hin]; [done|].
      destruct IH as (r' & Hin' & Hr' & Hsel); [by exists r|].
      exists r'. split; [by right|done].
Qed.

(** C7. If a tag whose name equals [n] up to case exists,
    get-or-create-with-check returns the id of such a tag after the one
    lookup by name and nothing else: no setting is read and no tag scanned,
    nothing is asked or printed, the input is not consumed, and the store is
    left as it was. *)
Theorem exact_tag_skips_guard (n : cstring) (w : world) (rows : list name_row) :
  tags (store w) = Some rows ->
  rowids_ok rows ->
  (exists r, r ∈ rows /\ str_to_lower (n_name r) = str_to_lower n) ->
  exists r, r ∈ rows /\ str_to_lower (n_name r) = str_to_lower n /\
    get_or_create_tag_with_check n w =
      (n_id r, log (EvSql (SelectTagId n)) w).
Proof.
  intros Htags Hids Hex.
  destruct (select_id_nocase_first n rows Hex) as (r & Hin & Hr & Hsel).
  exists r. split; [done|]. split; [done|].
  assert (1 <= n_id r <= INT_MAX) as Hid.
  { unfold rowids_ok in Hids. rewrite Forall_forall in Hids. by apply Hids. }
  unfold get_or_create_tag_with_check, mbind, M_bind.
  rewrite get_tag_id_run. unfold lookup_id. rewrite Htags, Hsel.
  unfold column_int. rewrite to_int_id by (unfold INT_MAX in *; lia).
  destruct (Z.geb_spec (n_id r) 0); [done|lia].
Qed.

Lemma exact_tag_skips_guard_witness :
  let rows := [NameRow 1 (str "Work"); NameRow 2 (str "Urgent")] in
  let w := World true true true true (fun _ => alloc_ok) true
             (Database (Some []) (Some []) (Some []) (Some rows)
                (Some []) (Some []))
             true (str "y") [] in
  exists r, r ∈ rows /\
    str_to_lower (n_name r) = str_to_lower (str "URGENT") /\
    get_or_create_tag_with_check (str "URGENT") w =
      (n_id r, log (EvSql (SelectTagId (str "URGENT"))) w).
Proof.
  intros rows w.
  apply (exact_tag_skips_guard (str "URGENT") w rows).
  - reflexivity.
  - repeat constructor; simpl; unfold INT_MAX; lia.
  - exists (NameRow 2 (str "Urgent")). split; [|reflexivity].
    right. left.
Defined.

(** Projections of an updated world. *)
Lemma stdin_log (e : event) (w : world) : stdin (log e w) = stdin w.
Proof. reflexivity. Qed.
Lemma store_log (e : event) (w : world) : store (log e w) = store w.
Proof. reflexivity. Qed.
Lemma out_log (e : event) (w : world) : out (log e w) = out w ++ [e].
Proof. reflexivity. Qed.
Lemma store_set_stdin (i : list ascii) (w : world) :
  store (set_stdin i w) = store w.
Proof. reflexivity. Qed.
Lemma stdin_set_stdin (i : list ascii) (w : world) : stdin (set_stdin i w) = i.
Proof. reflexivity. Qed.
Lemma out_set_stdin (i : list ascii) (w : world) : out (set_stdin i w) = out w.
Proof. reflexivity. Qed.

Create Rewrite HintDb world.
#[local] Hint Rewrite stdin_log store_log out_log store_set_stdin
  stdin_set_stdin out_set_stdin : world.

(** The three ways out of a reported conflict. *)
Lemma conflict_outcome (tag_name : cstring) (w : world) :
  conflict_reported tag_name w ->
  exists w1 found,
    store w1 = store w /\ stdin w1 = stdin w /\
    get_or_create_tag_with_check tag_name w =
      if (read_answer (stdin w)).1 then
        create_new_tag tag_name
          (set_stdin (read_answer (stdin w)).2
             (log (EvPrompt (PromptCreateAnyway tag_name)) w1))
      else
        let w2 := set_stdin (read_answer (read_answer (stdin w)).2).2
                    (log (EvPrompt (PromptUseInstead (similar_name found)))
                       (set_stdin (read_answer (stdin w)).2
                          (log (EvPrompt (PromptCreateAnyway tag_name)) w1))) in
        if (read_answer (read_answer (stdin w)).2).1 then
          get_tag_id (similar_name found) w2
        else (-1, log (EvPrint MsgCancelled) w2).
Proof.
  intros [Hmiss Hfound].
  set (found := similar_tags _ _ _ _ _) in Hfound.
  exists (log (EvPrint (if is_substring found
                        then MsgSimilarSubstring (similar_name found)
                        else MsgSimilarDistance (similar_name found)
                               (similar_distance found)))
            (log (EvSql SelectAllTags)
               (log (EvSql (SelectSetting (str "similarity_threshold")))
                  (log (EvSql (SelectTagId tag_name)) w)))), found.
  split; [done|]. split; [done|].
  unfold get_or_create_tag_with_check, mbind, M_bind.
  rewrite get_tag_id_run.
  destruct (Z.geb_spec (lookup_id (tags (store w)) tag_name) 0) as [|_]; [lia|].
  rewrite find_similar_tags_run. autorewrite with world.
  change (malloc_outcome (log _ w)) with (malloc_outcome w).
  fold found.
  destruct (Z.gtb_spec (found_count found) 0) as [_|]; [|lia].
  unfold print, emit. rewrite get_confirmation_run. autorewrite with world.
  destruct (read_answer (stdin w)).1; unfold negb; cbv beta iota; [done|].
  rewrite get_confirmation_run. autorewrite with world.
  destruct (read_answer (read_answer (stdin w)).2).1; done.
Qed.

(** C9. When the similarity guard reports a similar tag, the store
    is changed only if the answer to "create anyway?" is a consent: after a
    refusal the tag table is as it was, whatever is answered next; and when
    "use existing?" is refused as well, the operation ends cancelled, with
    -1 in place of a tag id and the store unchanged. *)
Theorem guard_needs_confirmation (tag_name : cstring) (w : world) :
  conflict_reported tag_name w ->
  let r := get_or_create_tag_with_check tag_name w in
  let first := read_answer (stdin w) in
  let second := read_answer first.2 in
  (first.1 = false -> store r.2 = store w) /\
  (first.1 = false -> second.1 = false ->
   r.1 = -1 /\ store r.2 = store w /\
   last (out r.2) = Some (EvPrint MsgCancelled)).
Proof.
  intros Hconflict. simpl.
  destruct (conflict_outcome tag_name w Hconflict)
    as (w1 & found & Hstore & _ & ->).
  split.
  - intros ->. cbv zeta.
    destruct (read_answer (read_answer (stdin w)).2).1.
    + rewrite get_tag_id_run. simpl. by autorewrite with world.
    + simpl. by autorewrite with world.
  - intros -> ->. cbv zeta. simpl. autorewrite with world.
    split; [done|]. split; [done|]. by rewrite last_snoc.
Qed.

Lemma guard_needs_confirmation_witness :
  let w := World true true true true (fun _ => alloc_ok) true
             (Database (Some []) (Some []) (Some [])
                (Some [NameRow 1 (str "Urgent")]) (Some [])
                (Some [(str "similarity_threshold", str "3")]))
             true ["n"; "o"; "010"; "n"; "010"]%char [] in
  conflict_reported (str "Urgant") w /\
  let r := get_or_create_tag_with_check (str "Urgant") w in
  let first := read_answer (stdin w) in
  let second := read_answer first.2 in
  (first.1 = false -> store r.2 = store w) /\
  (first.1 = false -> second.1 = false ->
   r.1 = -1 /\ store r.2 = store w /\
   last (out r.2) = Some (EvPrint MsgCancelled)).
Proof.
  intros w.
  assert (conflict_reported (str "Urgant") w) as H by (by vm_compute).
  split; [exact H|].
  apply (guard_needs_confirmation (str "Urgant") w H).
Defined.

(** ** Store initialization *)

Lemma table_exists_run (name : cstring) (w : world) :
  table_exists name w =
    (table_present (store w) name, log (EvSql (ProbeTable name)) w).
Proof. reflexivity. Qed.

Lemma read_int_setting_no_table (d : database) (key : cstring) (dflt : Z) :
  settings d = None -> read_int_setting d key dflt = dflt.
Proof. unfold read_int_setting. by intros ->. Qed.

Lemma table_present_settings (d : database) :
  table_present d (str "settings") = bool_decide (is_Some (settings d)).
Proof. reflexivity. Qed.

(** Closes the cases of [init_database] that fail before the schema is
    looked at. *)
Local Ltac blocked :=
  simpl; repeat (split; [done|]); intros (? & ? & ?); congruence.

(** C6. On a legacy store, when the answer to the migration
    question is a refusal, store initialization fails with -1 and the store
    is exactly as it was: no table and no row is created.  The failure is
    fatal: [main] exits with status 1 without entering the command loop.
    When nothing else stands in the way of opening the store, the failure is
    the declined migration itself and the connection is closed. *)
Theorem declined_migration_is_fatal (cli : M unit) (w : world) :
  legacy_store w ->
  (read_answer (stdin w)).1 = false ->
  let r := init_database w in
  r.1 = -1 /\
  store r.2 = store w /\
  file_exists r.2 = true /\
  main cli w = (1, r.2) /\
  (openable w ->
   handle r.2 = false /\
   EvPrompt PromptMigration ∈ out r.2 /\
   last (out r.2) = Some (EvPrint MsgMigrationCancelled)).
Proof.
  intros (Hfile & Hpaths & Hsettings) Hanswer.
  assert (init_database w =
    if negb (dir_exists w) then (-1, log (EvPrint MsgDirectoryMissing) w)
    else if negb (open_ok w) then (-1, log (EvPrint MsgCannotOpen) w)
    else
      let w1 := log (EvSql PragmaForeignKeys)
                  (set_handle true (set_file true (store w) w)) in
      if negb (register_ok w) then (-1, log (EvPrint MsgCannotRegister) w1)
      else
        (-1, set_handle false
               (log (EvPrint MsgMigrationCancelled)
                  (set_stdin (read_answer (stdin w)).2
                     (log (EvPrompt PromptMigration)
                        (log (EvPrint MsgUpdateRequired)
                           (log (EvSql (ProbeTable (str "settings")))
                              (log (EvSql (SelectSetting (str "schema_version")))
                                 (log (EvPrint MsgDatabaseOpened) w1))))))))) as Hrun.
  { unfold init_database, mbind, M_bind, get_world.
    destruct (dir_exists w); [|done].
    destruct (open_ok w); [|done].
    destruct (register_ok w); [|done].
    cbn [negb touch_file put_handle sql print emit].
    rewrite Hfile. cbn [negb].
    rewrite get_int_setting_run.
    change (store (log _ (log _ (set_handle _ (set_file _ _ w)))))
      with (store w).
    rewrite read_int_setting_no_table by done.
    cbn [Z.eqb]. rewrite table_exists_run.
    change (store (log _ (log _ (log _ (set_handle _ (set_file _ _ w))))))
      with (store w).
    rewrite table_present_settings, Hsettings.
    rewrite bool_decide_false by (by intros []).
    cbn [negb andb]. rewrite get_confirmation_run.
    change (stdin (log _ (log _ (log _ (log _ (log _ (set_handle _ (set_file _ _ w))))))))
      with (stdin w).
    rewrite Hanswer. reflexivity. }
  simpl. unfold main, mbind, M_bind. rewrite Hrun.
  destruct (dir_exists w) eqn:Hd; [|blocked].
  destruct (open_ok w) eqn:Ho; [|blocked].
  destruct (register_ok w) eqn:Hr; [|blocked].
  simpl. repeat split; try done.
  - set_solver.
  - by rewrite last_snoc.
Qed.

Lemma declined_migration_is_fatal_witness :
  let w := World true true true true (fun _ => alloc_ok) true
             (Database (Some [PathRow 1 (str "/srv/a.txt") (str "a.txt") 0
                                (Some 12) (Some (str "/srv"))])
                None None None None None)
             false ["n"; "010"]%char [] in
  let cli : M unit := fun w => (tt, w) in
  (legacy_store w /\ (read_answer (stdin w)).1 = false) /\
  let r := init_database w in
  r.1 = -1 /\
  store r.2 = store w /\
  file_exists r.2 = true /\
  main cli w = (1, r.2) /\
  (openable w ->
   handle r.2 = false /\
   EvPrompt PromptMigration ∈ out r.2 /\
   last (out r.2) = Some (EvPrint MsgMigrationCancelled)).
Proof.
  intros w cli.
  assert (legacy_store w) as Hlegacy.
  { split; [reflexivity|]. split; [by eexists|reflexivity]. }
  assert ((read_answer (stdin w)).1 = false) as Hanswer by reflexivity.
  split; [by split|].
  apply (declined_migration_is_fatal cli w Hlegacy Hanswer).
Defined.

(** C4, as stated, fails: a store recording schema version 2, above the
    supported version 1, is opened without complaint. *)
Lemma future_version_not_rejected :
  let w := World true true true true (fun _ => alloc_ok) true
             (Database (Some []) (Some []) (Some []) (Some []) (Some [])
                (Some [(str "schema_version", str "2")]))
             false [] [] in
  openable w /\ stored_version w 2 /\ DEFAULT_SCHEMA_VERSION < 2 /\
  ~ init_fails w.
Proof.
  intros w. split; [by repeat split|]. split; [by split|]. split; [done|].
  unfold init_fails. intros H. by apply H.
Qed.

(** C4, amended. For every stored schema version above the supported one,
    store initialization makes no version check: it returns 0, leaves the
    store as it was and the connection open, having only switched foreign
    keys on, announced the opening and read the version. *)
Theorem future_version_accepted (w : world) (v : Z) :
  openable w ->
  stored_version w v ->
  DEFAULT_SCHEMA_VERSION < v ->
  let r := init_database w in
  r.1 = 0 /\
  store r.2 = store w /\
  handle r.2 = true /\
  out r.2 = out w ++ [EvSql PragmaForeignKeys; EvPrint MsgDatabaseOpened;
                      EvSql (SelectSetting (str "schema_version"))].
Proof.
  intros (Hd & Ho & Hr) (Hfile & Hv) Hlt. simpl.
  unfold init_database, mbind, M_bind, get_world.
  rewrite Hd, Ho, Hr, Hfile.
  cbn [negb touch_file put_handle sql print emit].
  rewrite get_int_setting_run.
  change (store (log _ (log _ (set_handle _ (set_file _ _ w)))))
    with (store w).
  rewrite Hv. unfold DEFAULT_SCHEMA_VERSION in *.
  destruct (Z.eqb_spec v 0) as [|_]; [lia|].
  destruct (Z.ltb_spec v 1) as [|_]; [lia|].
  cbn [andb]. simpl. by rewrite <- !app_assoc.
Qed.

Lemma future_version_accepted_witness :
  let w := World true true true true (fun _ => alloc_ok) true
             (Database (Some []) (Some []) (Some []) (Some []) (Some [])
                (Some [(str "schema_version", str "7")]))
             false [] [] in
  (openable w /\ stored_version w 7 /\ DEFAULT_SCHEMA_VERSION < 7) /\
  let r := init_database w in
  r.1 = 0 /\
  store r.2 = store w /\
  handle r.2 = true /\
  out r.2 = out w ++ [EvSql PragmaForeignKeys; EvPrint MsgDatabaseOpened;
                      EvSql (SelectSetting (str "schema_version"))].
Proof.
  intros w.
  assert (openable w) as H1 by (by repeat split).
  assert (stored_version w 7) as H2 by (by split).
  assert (DEFAULT_SCHEMA_VERSION < 7) as H3 by done.
  split; [by repeat split|].
  apply (future_version_accepted w 7 H1 H2 H3).
Defined.

(** ** Defects at concrete inputs *)

(** C2. The scan of [find_similar_tags] at the tags "abcd", "xbc"
    and the new name "abc": "abcd" is a substring match, yet the tag reported
    is "xbc", as an edit-distance match of distance 1; with the two rows in
    the other order the report is the substring match "abcd".  The
    edit-distance branch overwrites a substring match found earlier, so the
    report depends on the scan order. *)
Theorem substring_match_overwritten :
  let store_of rows :=
    Database (Some []) (Some []) (Some []) (Some rows) (Some []) (Some []) in
  let world_of rows :=
    World true true true true (fun _ => alloc_ok) true (store_of rows) true
      [] [] in
  let found_in rows :=
    (find_similar_tags (str "abc") MAX_TAG_LENGTH (world_of rows)).1 in
  is_substring_match (str "abc") (str "abcd") = true /\
  is_substring_match (str "abc") (str "xbc") = false /\
  found_in [NameRow 1 (str "abcd"); NameRow 2 (str "xbc")] =
    Similar 2 1 (str "xbc") (Some 1) false /\
  found_in [NameRow 2 (str "xbc"); NameRow 1 (str "abcd")] =
    Similar 2 1 (str "abcd") (Some 1) true.
Proof. by vm_compute. Qed.

(** C5. [create_category] at the name "games" on the freshly
    seeded store, which holds the category "Games": the insertion succeeds,
    returns the new id 6 and leaves both rows in the table, although
    [get_category_id] resolves "games" to the existing row 1. *)
Theorem create_category_case_variant :
  let seeded :=
    (init_database
       (World true true true true (fun _ => alloc_ok) false empty_database
          false [] [])).2 in
  let r := create_category (str "games") seeded in
  (get_category_id (str "games") seeded).1 = 1 /\
  r.1 = 6 /\
  categories (store r.2) =
    Some [NameRow 1 (str "Games"); NameRow 2 (str "Music");
          NameRow 3 (str "Photos"); NameRow 4 (str "Documents");
          NameRow 5 (str "Uncategorized"); NameRow 6 (str "games")].
Proof. by vm_compute. Qed.

(** What the [UNIQUE] constraint does catch: a name equal byte for byte. *)
Lemma create_category_same_bytes (name : cstring) (w : world)
    (rows : list name_row) :
  categories (store w) = Some rows ->
  name ∈ n_name <$> rows ->
  let r := create_category name w in
  r.1 = -1 /\ store r.2 = store w.
Proof.
  intros Hcat Hin. simpl.
  unfold create_category, mbind, M_bind, sql, emit, get_world.
  cbn [store log]. rewrite Hcat. unfold insert_name.
  by rewrite bool_decide_true.
Qed.

(** ** Fuzzy search *)

Lemma bytes_leb_total (a b : cstring) :
  bytes_leb a b = true \/ bytes_leb b a = true.
Proof.
  revert b. induction a as [|x a IH]; intros [|y b]; simpl; auto.
  destruct (N.ltb_spec (N_of_ascii x) (N_of_ascii y));
    destruct (N.ltb_spec (N_of_ascii y) (N_of_ascii x)); auto; lia.
Qed.

Global Instance fuzzy_le_total {A : Type} (name_of : A -> cstring) :
  Total (fuzzy_le name_of).
Proof.
  intros x y. unfold fuzzy_le.
  destruct (Z.lt_trichotomy x.2 y.2) as [?|[?|?]]; auto.
  destruct (bytes_leb_total (name_of x.1) (name_of y.1)); auto.
Qed.

Global Instance by_path_total : Total by_path.
Proof. intros x y. apply bytes_leb_total. Qed.

Lemma Sorted_take {A : Type} (R : relation A) (n : nat) (l : list A) :
  Sorted R l -> Sorted R (take n l).
Proof.
  revert n. induction l as [|x l IH]; intros [|n] Hs; simpl; try constructor.
  - apply IH. by inversion Hs.
  - inversion Hs as [|? ? _ Hhd]; subst.
    destruct Hhd; destruct n; simpl; by constructor.
Qed.

Lemma sql_limit_Sorted {A : Type} (R : relation A) (n : Z) (l : list A) :
  Sorted R l -> Sorted R (sql_limit n l).
Proof. unfold sql_limit. case_match; [done|]. apply Sorted_take. Qed.

Lemma sql_limit_elem_of {A : Type} (n : Z) (l : list A) (x : A) :
  x ∈ sql_limit n l -> x ∈ l.
Proof.
  unfold sql_limit. case_match; [done|].
  intros Hin. by apply subseteq_take in Hin.
Qed.

Lemma sql_limit_length {A : Type} (n : Z) (l : list A) :
  0 <= n -> Z.of_nat (length (sql_limit n l)) <= n.
Proof.
  intros Hn. unfold sql_limit.
  destruct (Z.ltb_spec n 0); [lia|]. rewrite length_take. lia.
Qed.

Lemma alloc_ok_never_fails (a b : cstring) : alloc_failed alloc_ok a b = false.
Proof. unfold alloc_failed. simpl. apply andb_false_r. Qed.

Lemma fuzzy_select_outcome {A : Type} (al : nat -> alloc)
    (name_of : A -> cstring) (query : cstring) (threshold max_results : Z)
    (rows : list A) :
  (forall k, al k = alloc_ok) ->
  fits_int query ->
  Forall (fun r => fits_int (name_of r)) rows ->
  fuzzy_outcome name_of rows query threshold max_results
    (fuzzy_select al name_of query threshold max_results rows).
Proof.
  intros Hal Hq Hrows. unfold fuzzy_outcome, fuzzy_select.
  split; [|split].
  - apply Forall_forall. intros h Hin.
    apply sql_limit_elem_of in Hin.
    rewrite merge_sort_Permutation in Hin.
    apply list_elem_of_omap in Hin as ([k r] & Hkr & Hh). simpl in Hh.
    apply elem_of_zip_r in Hkr.
    unfold dist_column, sqlite_levenshtein in Hh. rewrite Hal in Hh.
    destruct (Z.leb_spec (levenshtein alloc_ok (name_of r) query) threshold);
      [|done].
    injection Hh as <-. simpl.
    rewrite Forall_forall in Hrows.
    rewrite levenshtein_spec, alloc_ok_never_fails in *
      by (done || by apply Hrows).
    split; [done|]. split; [done|].
    eexists. split; [done|]. apply lev_is_edit_distance.
  - apply sql_limit_Sorted, Sorted_merge_sort. apply _.
  - apply sql_limit_length.
Qed.

Lemma search_paths_fuzzy_run (query : cstring) (max_distance : Z) (w : world) :
  (search_paths_fuzzy query max_distance w).1 =
    match paths (store w) with
    | None => []
    | Some rows =>
        fuzzy_select (malloc_outcome w) p_name query
          (effective_distance (store w) max_distance)
          (read_int_setting (store w) (str "max_results") DEFAULT_MAX_RESULTS)
          rows
    end.
Proof.
  unfold search_paths_fuzzy, effective_distance, mbind, M_bind.
  rewrite get_int_setting_run.
  destruct (max_distance <? 0); simpl; by destruct (paths (store w)).
Qed.

Lemma search_tags_fuzzy_run (query : cstring) (w : world) :
  (search_tags_fuzzy query w).1.2 =
    match tags (store w) with
    | None => []
    | Some rows =>
        fuzzy_select (malloc_outcome w) n_name query
          (read_int_setting (store w) (str "fuzzy_default_distance")
             DEFAULT_FUZZY_DISTANCE)
          (read_int_setting (store w) (str "max_results") DEFAULT_MAX_RESULTS)
          rows
    end.
Proof.
  unfold search_tags_fuzzy, mbind, M_bind.
  rewrite get_int_setting_run. simpl. by destruct (tags (store w)).
Qed.

(** C3, as stated, fails twice over.  With the paths named "a" and "B" both
    at distance 1 from the query "c", the hits come out in the order "B",
    "a", the order of the bytes, which is not case-insensitive order.  And
    with the setting [max_results] at -1 a search returns a hit, more than
    [max_results]: a negative [LIMIT] is no limit. *)
Lemma fuzzy_ties_in_byte_order :
  let row_a := PathRow 1 (str "/a") (str "a") 0 (Some 1) None in
  let row_B := PathRow 2 (str "/B") (str "B") 0 (Some 1) None in
  let world_of rows settings :=
    World true true true true (fun _ => alloc_ok) true
      (Database (Some rows) (Some []) (Some []) (Some []) (Some [])
         (Some settings))
      true [] [] in
  let w := world_of [row_a; row_B] [] in
  let hits := (search_paths_fuzzy (str "c") 1 w).1 in
  let w' := world_of [row_a] [(str "max_results", str "-1")] in
  let hits' := (search_paths_fuzzy (str "c") 1 w').1 in
  (hits = [(row_B, 1); (row_a, 1)] /\
   ~ fuzzy_claim p_name 1
       (read_int_setting (store w) (str "max_results") DEFAULT_MAX_RESULTS)
       hits) /\
  (hits' = [(row_a, 1)] /\
   ~ fuzzy_claim p_name 1
       (read_int_setting (store w') (str "max_results") DEFAULT_MAX_RESULTS)
       hits').
Proof.
  intros row_a row_B world_of w hits w' hits'.
  assert (hits = [(row_B, 1); (row_a, 1)]) as -> by (by vm_compute).
  assert (hits' = [(row_a, 1)]) as -> by (by vm_compute).
  split; (split; [done|]).
  - intros (_ & Hsorted & _).
    inversion Hsorted as [|? ? _ Hhd]; subst.
    inversion Hhd as [|? ? Hle]; subst.
    destruct Hle as [Hlt|[_ Hname]];
      [by vm_compute in Hlt|by vm_compute in Hname].
  - intros (_ & _ & Hbound). by vm_compute in Hbound.
Qed.

(** C3, amended. With every allocation succeeding, a fuzzy search over paths
    or over tags returns only rows whose edit distance to the query is at
    most the threshold in force (for paths the caller's, or the configured
    default when the caller's is negative; for tags the configured default),
    in ascending order of distance with ties in the byte order of the name,
    and no more than [max_results] of them when [max_results] is not
    negative. *)
Theorem fuzzy_search_sorted (query : cstring) (max_distance : Z) (w : world)
    (ps : list path_row) (ts : list name_row) :
  mallocs_succeed w ->
  paths (store w) = Some ps ->
  tags (store w) = Some ts ->
  fits_int query ->
  Forall (fun p => fits_int (p_name p)) ps ->
  Forall (fun t => fits_int (n_name t)) ts ->
  let max_results :=
    read_int_setting (store w) (str "max_results") DEFAULT_MAX_RESULTS in
  fuzzy_outcome p_name ps query (effective_distance (store w) max_distance)
    max_results (search_paths_fuzzy query max_distance w).1 /\
  fuzzy_outcome n_name ts query
    (read_int_setting (store w) (str "fuzzy_default_distance")
       DEFAULT_FUZZY_DISTANCE)
    max_results (search_tags_fuzzy query w).1.2.
Proof.
  intros Hal Hps Hts Hq Hpfit Htfit. simpl.
  rewrite search_paths_fuzzy_run, search_tags_fuzzy_run, Hps, Hts.
  split; by apply fuzzy_select_outcome.
Qed.

Lemma fuzzy_search_sorted_witness :
  let ps := [PathRow 1 (str "/a") (str "a") 0 (Some 1) None;
             PathRow 2 (str "/B") (str "B") 0 (Some 1) None;
             PathRow 3 (str "/docs") (str "docs") 1 None None] in
  let ts := [NameRow 1 (str "Finance"); NameRow 2 (str "cat")] in
  let w := World true true true true (fun _ => alloc_ok) true
             (Database (Some ps) (Some []) (Some []) (Some ts) (Some [])
                (Some [(str "max_results", str "2")]))
             true [] [] in
  let max_results :=
    read_int_setting (store w) (str "max_results") DEFAULT_MAX_RESULTS in
  (mallocs_succeed w /\ paths (store w) = Some ps /\ tags (store w) = Some ts /\
   fits_int (str "c") /\
   Forall (fun p => fits_int (p_name p)) ps /\
   Forall (fun t => fits_int (n_name t)) ts) /\
  fuzzy_outcome p_name ps (str "c") (effective_distance (store w) (-1))
    max_results (search_paths_fuzzy (str "c") (-1) w).1 /\
  fuzzy_outcome n_name ts (str "c")
    (read_int_setting (store w) (str "fuzzy_default_distance")
       DEFAULT_FUZZY_DISTANCE)
    max_results (search_tags_fuzzy (str "c") w).1.2.
Proof.
  intros ps ts w max_results.
  assert (mallocs_succeed w) as H1 by (intros k; reflexivity).
  assert (fits_int (str "c")) as H2 by (by vm_compute).
  assert (Forall (fun p => fits_int (p_name p)) ps) as H3
    by (repeat constructor; by vm_compute).
  assert (Forall (fun t => fits_int (n_name t)) ts) as H4
    by (repeat constructor; by vm_compute).
  split; [by repeat split|].
  apply (fuzzy_search_sorted (str "c") (-1) w ps ts H1 eq_refl eq_refl H2 H3 H4).
Defined.

(** ** Structured search *)

Lemma like_match_percent (pat s : cstring) :
  like_match ("%"%char :: pat) s =
    like_match pat s ||
    match s with
    | [] => false
    | _ :: s' => like_match ("%"%char :: pat) s'
    end.
Proof. by destruct s. Qed.

Lemma like_match_any (s : cstring) : like_match ["%"%char] s = true.
Proof.
  induction s as [|c s IH]; [done|].
  rewrite like_match_percent. rewrite IH. apply orb_true_r.
Qed.

Lemma like_match_percent_iff (pat s : cstring) :
  like_match ("%"%char :: pat) s = true <->
  exists l r, s = l ++ r /\ like_match pat r = true.
Proof.
  induction s as [|c s IH]; rewrite like_match_percent.
  - rewrite orb_false_r. split.
    + intros H. by exists [], [].
    + intros (l & r & Hs & H). symmetry in Hs.
      apply app_eq_nil in Hs as [-> ->]. done.
  - rewrite orb_true_iff, IH. split.
    + intros [H|(l & r & -> & H)].
      * by exists [], (c :: s).
      * by exists (c :: l), r.
    + intros ([|x l] & r & Hs & H); simpl in Hs.
      * left. by subst.
      * right. injection Hs as -> ->. by exists l, r.
Qed.

Lemma like_match_plain_prefix (arg s : cstring) :
  plain arg ->
  like_match (arg ++ ["%"%char]) s = true <->
  exists r, str_to_lower s = str_to_lower arg ++ r.
Proof.
  intros Hplain. revert s.
  induction Hplain as [|c arg [Hc1 Hc2] _ IH]; intros s.
  - simpl app. rewrite like_match_any. split; [|done].
    intros _. by exists (str_to_lower s).
  - simpl. rewrite (bool_decide_false _ Hc1).
    destruct s as [|d s]; [split; [done|by intros (? & ?)]|].
    rewrite (bool_decide_false _ Hc2). simpl.
    rewrite andb_true_iff, bool_decide_eq_true, IH.
    unfold str_to_lower. simpl. split.
    + intros (-> & r & ->). by exists r.
    + intros (r & Hr). injection Hr as -> ->. split; [done|by exists r].
Qed.

Lemma like_contains_plain (name arg : cstring) :
  plain arg ->
  like_contains name arg = true <->
  exists l r, str_to_lower name = l ++ str_to_lower arg ++ r.
Proof.
  intros Hplain. unfold like_contains. rewrite like_match_percent_iff.
  split.
  - intros (l & r & -> & H).
    apply like_match_plain_prefix in H as (r' & Hr'); [|done].
    exists (str_to_lower l), r'.
    unfold str_to_lower in *. by rewrite fmap_app, Hr'.
  - intros (l & r & H).
    exists (take (length l) name), (drop (length l) name).
    split; [by rewrite take_drop|].
    apply like_match_plain_prefix; [done|]. exists r.
    unfold str_to_lower in *. rewrite fmap_drop, H.
    by rewrite drop_app_length.
Qed.

Lemma has_prefix_app (y r : cstring) : has_prefix y (y ++ r) = true.
Proof.
  induction y as [|c y IH]; [done|]. simpl.
  by rewrite bool_decide_true, IH.
Qed.

Lemma strstr_infix (l y r : cstring) : strstr (l ++ y ++ r) y = true.
Proof.
  induction l as [|c l IH].
  - destruct (y ++ r) eqn:E; simpl; rewrite <- ?E, has_prefix_app; done.
  - simpl. rewrite IH. apply orb_true_r.
Qed.

Lemma join_names_ok (enabled : bool) (links : option (list (Z * Z)))
    (names : option (list name_row)) (p : path_row) (c : option name_row) :
  negb enabled ||
    (bool_decide (is_Some links) && bool_decide (is_Some names)) = true ->
  c ∈ join_names enabled (default [] links) (default [] names) p <->
  joined_ok enabled links names p c.
Proof.
  unfold join_names, joined_ok. destruct enabled; simpl.
  - rewrite andb_true_iff, !bool_decide_eq_true.
    intros [[ls ->] [ns ->]]. simpl. rewrite list_elem_of_bind. split.
    + intros ([a b] & Hc & Hl). simpl in Hc.
      destruct (decide (p_id p = a)) as [<-|]; [|by apply elem_of_nil in Hc].
      apply list_elem_of_bind in Hc as (n & Hc & Hn).
      destruct (decide (b = n_id n)) as [->|]; [|by apply elem_of_nil in Hc].
      apply list_elem_of_singleton in Hc as ->. by exists ls, ns, n.
    + intros (ls' & ns' & n & [= <-] & [= <-] & -> & Hn & Hl).
      exists (p_id p, n_id n). split; [|done]. simpl.
      rewrite decide_True by done. apply list_elem_of_bind.
      exists n. split; [|done]. rewrite decide_True by done. by left.
  - intros _. by rewrite list_elem_of_singleton.
Qed.

Lemma joined_ok_prepared (enabled : bool) (links : option (list (Z * Z)))
    (names : option (list name_row)) (p : path_row) (c : option name_row) :
  joined_ok enabled links names p c ->
  negb enabled ||
    (bool_decide (is_Some links) && bool_decide (is_Some names)) = true.
Proof.
  unfold joined_ok. destruct enabled; [|done].
  by intros (ls & ns & n & -> & -> & _).
Qed.

Lemma run_unlimited_elem (d : database) (q : select_paths)
    (ps : list path_row) (r : path_result) :
  paths d = Some ps ->
  r ∈ run_unlimited d q <->
  exists p c g,
    p ∈ ps /\ r = project p /\
    joined_ok (join_categories q) (path_categories d) (categories d) p c /\
    joined_ok (join_tags q) (path_tags d) (tags d) p g /\
    forallb (term_holds (p, c, g)) (where_terms q) = true.
Proof.
  intros Hps. unfold run_unlimited. rewrite Hps.
  destruct (negb (join_categories q) || _) eqn:Hc; simpl.
  2:{ split; [by intros ?%elem_of_nil|].
      intros (p & c & g & _ & _ & Hjc & _).
      apply joined_ok_prepared in Hjc. congruence. }
  destruct (negb (join_tags q) || _) eqn:Ht; simpl.
  2:{ split; [by intros ?%elem_of_nil|].
      intros (p & c & g & _ & _ & _ & Hjt & _).
      apply joined_ok_prepared in Hjt. congruence. }
  rewrite merge_sort_Permutation, elem_of_remove_dups, list_elem_of_fmap.
  split.
  - intros ([[p c] g] & -> & Hin). simpl.
    apply list_elem_of_filter in Hin as [Hterms Hin].
    apply list_elem_of_bind in Hin as (p' & Hin & Hp').
    apply list_elem_of_bind in Hin as (c' & Hin & Hc').
    apply list_elem_of_bind in Hin as (g' & Hin & Hg').
    apply list_elem_of_singleton in Hin. injection Hin as -> -> ->.
    apply join_names_ok in Hc'; [|done].
    apply join_names_ok in Hg'; [|done].
    by exists p', c', g'.
  - intros (p & c & g & Hp & -> & Hjc & Hjt & Hterms).
    exists (p, c, g). split; [done|].
    apply list_elem_of_filter. split; [done|].
    apply list_elem_of_bind. exists p. split; [|done].
    apply list_elem_of_bind. exists c. split; [|by apply join_names_ok].
    apply list_elem_of_bind. exists g. split; [|by apply join_names_ok].
    by left.
Qed.

Lemma nocase_eqb_true (a b : cstring) :
  nocase_eqb a b = true <-> str_to_lower a = str_to_lower b.
Proof. unfold nocase_eqb. apply bool_decide_eq_true. Qed.

Lemma in_category_joined (d : database) (p : path_row) (name : cstring) :
  in_category d p name <->
  exists c, joined_ok true (path_categories d) (categories d) p c /\
            term_holds (p, c, None) (CategoryIs name) = true.
Proof.
  unfold in_category, joined_ok. simpl. split.
  - intros (cs & links & c & Hcs & Hlinks & Hc & Hl & Hname).
    exists (Some c). split; [by exists links, cs, c|].
    by apply nocase_eqb_true.
  - intros (c & (ls & ns & n & Hls & Hns & -> & Hn & Hl) & Hname).
    exists ns, ls, n. by rewrite nocase_eqb_true in Hname.
Qed.

Lemma has_tag_joined (d : database) (p : path_row) (name : cstring) :
  has_tag d p name <->
  exists g, joined_ok true (path_tags d) (tags d) p g /\
            term_holds (p, None, g) (TagIs name) = true.
Proof.
  unfold has_tag, joined_ok. simpl. split.
  - intros (ts & links & t & Hts & Hlinks & Ht & Hl & Hname).
    exists (Some t). split; [by exists links, ts, t|].
    by apply nocase_eqb_true.
  - intros (g & (ls & ns & n & Hls & Hns & -> & Hn & Hl) & Hname).
    exists ns, ls, n. by rewrite nocase_eqb_true in Hname.
Qed.

Lemma build_query_meets (d : database) (category tag name : option cstring)
    (m : Z) (p : path_row) :
  (exists c g,
      joined_ok (join_categories (build_query category tag name m))
        (path_categories d) (categories d) p c /\
      joined_ok (join_tags (build_query category tag name m))
        (path_tags d) (tags d) p g /\
      forallb (term_holds (p, c, g))
        (where_terms (build_query category tag name m)) = true) <->
  meets name_like d category tag name p.
Proof.
  unfold build_query, meets, name_like.
  destruct (supplied category) as [c0|], (supplied tag) as [t0|],
    (supplied name) as [n0|]; simpl; split.
  all: match goal with
       | |- (exists _, _) -> _ =>
           intros (c & g & Hc & Hg & Hterms);
           rewrite ?andb_true_iff in Hterms;
           (split; [|split]); intros x [= <-];
           first [ apply in_category_joined; exists c
                 | apply has_tag_joined; exists g
                 | idtac ];
           simpl in *; intuition
       | |- _ -> exists _, _ =>
           intros (Hcat & Htag & Hname);
           try (specialize (Hcat _ eq_refl);
                apply in_category_joined in Hcat as (c & Hc & Hct));
           try (specialize (Htag _ eq_refl);
                apply has_tag_joined in Htag as (g & Hg & Hgt));
           try specialize (Hname _ eq_refl);
           eexists _, _;
           (split; [first [exact Hc | reflexivity]|]);
           (split; [first [exact Hg | reflexivity]|]);
           simpl in *; rewrite ?andb_true_iff; intuition
       end.
Qed.

Lemma NoDup_fmap_inj_on {A B : Type} (f : A -> B) (l : list A) (x y : A) :
  NoDup (f <$> l) -> x ∈ l -> y ∈ l -> f x = f y -> x = y.
Proof.
  induction l as [|a l IH]; intros Hnd Hx Hy Hf; [by apply elem_of_nil in Hx|].
  rewrite fmap_cons in Hnd. apply NoDup_cons in Hnd as [Ha Hnd].
  apply elem_of_cons in Hx as [->|Hx]; apply elem_of_cons in Hy as [->|Hy].
  - done.
  - destruct Ha. rewrite Hf. by apply list_elem_of_fmap_2.
  - destruct Ha. rewrite <- Hf. by apply list_elem_of_fmap_2.
  - by apply IH.
Qed.

Lemma structured_search_run (category tag name : option cstring) (w : world) :
  (structured_search category tag name w).1 =
    run_query (store w)
      (build_query category tag name
         (read_int_setting (store w) (str "max_results") DEFAULT_MAX_RESULTS)).
Proof. reflexivity. Qed.

(** C8, as stated, fails twice over.  The name filter "_" returns the path
    named "abc", whose name does not contain "_": the filter is a [LIKE]
    pattern, in which [_] stands for any one character.  And with the setting
    [max_results] at -1 a search returns a row, more than [max_results]: a
    negative [LIMIT] is no limit. *)
Lemma like_wildcard_matches_more :
  let row := PathRow 1 (str "/abc") (str "abc") 0 (Some 3) None in
  let world_of settings :=
    World true true true true (fun _ => alloc_ok) true
      (Database (Some [row]) (Some []) (Some []) (Some []) (Some [])
         (Some settings))
      true [] [] in
  let name := Some (str "_") in
  let w := world_of [] in
  let results := (structured_search None None name w).1 in
  let w' := world_of [(str "max_results", str "-1")] in
  let results' := (structured_search None None (Some (str "b")) w').1 in
  (results = [project row] /\
   ~ structured_claim (store w) None None name
       (read_int_setting (store w) (str "max_results") DEFAULT_MAX_RESULTS)
       results) /\
  (results' = [project row] /\
   ~ structured_claim (store w') None None (Some (str "b"))
       (read_int_setting (store w') (str "max_results") DEFAULT_MAX_RESULTS)
       results').
Proof.
  intros row world_of name w results w' results'.
  assert (results = [project row]) as -> by (by vm_compute).
  assert (results' = [project row]) as -> by (by vm_compute).
  split; (split; [done|]).
  - intros [Hclaim _].
    destruct (Hclaim (project row)) as (ps & p & Hps & Hp & Hr & _ & _ & Hname);
      [by left|].
    injection Hps as <-. apply list_elem_of_singleton in Hp as ->.
    destruct (Hname (str "_") eq_refl) as (l & r & Hl).
    pose proof (strstr_infix l (str_to_lower (str "_")) r) as Hstr.
    rewrite <- Hl in Hstr. by vm_compute in Hstr.
  - intros [_ Hbound]. by vm_compute in Hbound.
Qed.

(** C8, amended. Structured search returns the first [max_results] rows
    (all of them when [max_results] is negative) of a list [full] that holds
    exactly the paths satisfying every supplied filter, each once, in the
    byte order of the path.  Category and tag are compared up to case; the
    name filter is the [LIKE] pattern [%name%], which for a name without [%]
    and [_] is containment up to case.  When a name filter is supplied, it
    and the names of the stored paths are taken to be ASCII text. *)
Theorem structured_search_results (category tag name : option cstring)
    (w : world) (ps : list path_row) :
  paths (store w) = Some ps ->
  NoDup (p_path <$> ps) ->
  (forall n, supplied name = Some n -> ascii_only n /\ ascii_names ps) ->
  let max_results :=
    read_int_setting (store w) (str "max_results") DEFAULT_MAX_RESULTS in
  let results := (structured_search category tag name w).1 in
  exists full,
    results = sql_limit max_results full /\
    (forall r, r ∈ full <->
       exists p, p ∈ ps /\ r = project p /\
                 meets name_like (store w) category tag name p) /\
    NoDup (r_path <$> full) /\
    Sorted by_path full /\
    (0 <= max_results -> Z.of_nat (length results) <= max_results) /\
    (forall n p, supplied name = Some n -> plain n -> p ∈ ps ->
       name_like p n <-> name_contains p n).
Proof.
  intros Hps Hunique _. cbv zeta. rewrite structured_search_run.
  set (q := build_query _ _ _ _).
  exists (run_unlimited (store w) q).
  assert (forall r, r ∈ run_unlimited (store w) q <->
            exists p, p ∈ ps /\ r = project p /\
                      meets name_like (store w) category tag name p) as Hfull.
  { intros r. rewrite (run_unlimited_elem _ _ ps) by done. split.
    - intros (p & c & g & Hp & -> & Hrest). exists p.
      split; [done|]. split; [done|].
      apply (build_query_meets (store w) category tag name
               (read_int_setting (store w) (str "max_results")
                  DEFAULT_MAX_RESULTS) p).
      by exists c, g.
    - intros (p & Hp & -> & Hmeets).
      apply (build_query_meets (store w) category tag name
               (read_int_setting (store w) (str "max_results")
                  DEFAULT_MAX_RESULTS) p) in Hmeets as (c & g & Hrest).
      by exists p, c, g. }
  split; [done|]. split; [done|]. split; [|split; [|split]].
  - apply NoDup_fmap_2_strong.
    + intros x y Hx Hy Hxy.
      apply Hfull in Hx as (px & Hpx & -> & _).
      apply Hfull in Hy as (py & Hpy & -> & _).
      f_equal. by apply (NoDup_fmap_inj_on p_path ps).
    + unfold run_unlimited. rewrite Hps. case_match; [|constructor].
      rewrite merge_sort_Permutation. apply NoDup_remove_dups.
  - unfold run_unlimited. rewrite Hps. case_match; [|constructor].
    apply Sorted_merge_sort. apply _.
  - apply sql_limit_length.
  - intros n p _ Hplain _. by apply like_contains_plain.
Qed.

Lemma structured_search_results_witness :
  let ps := [PathRow 1 (str "/g/zelda") (str "Zelda") 0 (Some 10) None;
             PathRow 2 (str "/g/doom") (str "doom") 0 (Some 20) None;
             PathRow 3 (str "/m/zelda.mp3") (str "zelda.mp3") 0 (Some 30) None] in
  let w := World true true true true (fun _ => alloc_ok) true
             (Database (Some ps)
                (Some [NameRow 1 (str "Games"); NameRow 2 (str "Music")])
                (Some [(1, 1); (2, 1); (3, 2)]) (Some []) (Some [])
                (Some [(str "max_results", str "20")]))
             true [] [] in
  let category := Some (str "games") in
  let name := Some (str "zel") in
  let max_results :=
    read_int_setting (store w) (str "max_results") DEFAULT_MAX_RESULTS in
  let results := (structured_search category None name w).1 in
  (paths (store w) = Some ps /\ NoDup (p_path <$> ps) /\
   (forall n, supplied name = Some n -> ascii_only n /\ ascii_names ps)) /\
  exists full,
    results = sql_limit max_results full /\
    (forall r, r ∈ full <->
       exists p, p ∈ ps /\ r = project p /\
                 meets name_like (store w) category None name p) /\
    NoDup (r_path <$> full) /\
    Sorted by_path full /\
    (0 <= max_results -> Z.of_nat (length results) <= max_results) /\
    (forall n p, supplied name = Some n -> plain n -> p ∈ ps ->
       name_like p n <-> name_contains p n).
Proof.
  intros ps w category name max_results results.
  assert (NoDup (p_path <$> ps)) as Hunique.
  { apply (bool_decide_unpack (NoDup (p_path <$> ps))). by vm_compute. }
  assert (forall n, supplied name = Some n -> ascii_only n /\ ascii_names ps)
    as Hascii.
  { intros n [= <-]. split.
    - apply (bool_decide_unpack (ascii_only (str "zel"))). by vm_compute.
    - apply (bool_decide_unpack (ascii_names ps)). by vm_compute. }
  split; [split; [done|split; [done|exact Hascii]]|].
  apply (structured_search_results category None name w ps eq_refl Hunique
           Hascii).
Defined.

(* ===================================================================== *)
(** * Further properties of the code *)
(* ===================================================================== *)

(** ** The distance as a metric *)

Lemma alloc_failed_sym (al : alloc) (a b : cstring) :
  alloc_failed al a b = alloc_failed al b a.
Proof.
  unfold alloc_failed.
  by rewrite (andb_comm (negb (strlen a =? 0))).
Qed.

(** X1. [levenshtein] is symmetric in its two strings, whatever the
    allocator answers: the swap that puts the shorter string on the row
    dimension does not show in the result. *)
Theorem levenshtein_symmetric (al : alloc) (a b : cstring) :
  fits_int a -> fits_int b ->
  levenshtein al a b = levenshtein al b a.
Proof.
  intros Ha Hb. rewrite !levenshtein_spec by done.
  by rewrite alloc_failed_sym, lev_sym.
Qed.

Lemma levenshtein_symmetric_witness :
  (fits_int (str "flaw") /\ fits_int (str "lawnmower")) /\
  levenshtein alloc_ok (str "flaw") (str "lawnmower") =
    levenshtein alloc_ok (str "lawnmower") (str "flaw").
Proof.
  assert (fits_int (str "flaw")) as Ha by (by vm_compute).
  assert (fits_int (str "lawnmower")) as Hb by (by vm_compute).
  split; [by split|].
  apply (levenshtein_symmetric alloc_ok (str "flaw") (str "lawnmower") Ha Hb).
Defined.

Lemma lev_triangle (a b c : cstring) : (lev a c <= lev a b + lev b c)%nat.
Proof.
  destruct (aligned_trans _ _ _ (lev_aligned a b) _ _ (lev_aligned b c))
    as (k & Hk & Hal).
  apply aligned_lev_le in Hal. lia.
Qed.

(** X2. With its allocations succeeding, [levenshtein] satisfies the
    triangle inequality. *)
Theorem levenshtein_triangle (a b c : cstring) :
  fits_int a -> fits_int b -> fits_int c ->
  levenshtein alloc_ok a c <=
    levenshtein alloc_ok a b + levenshtein alloc_ok b c.
Proof.
  intros Ha Hb Hc.
  rewrite !levenshtein_spec, !alloc_ok_never_fails by done.
  pose proof (lev_triangle (str_to_lower a) (str_to_lower b) (str_to_lower c)).
  lia.
Qed.

Lemma levenshtein_triangle_witness :
  (fits_int (str "kitten") /\ fits_int (str "sitten") /\
   fits_int (str "sitting")) /\
  levenshtein alloc_ok (str "kitten") (str "sitting") <=
    levenshtein alloc_ok (str "kitten") (str "sitten") +
    levenshtein alloc_ok (str "sitten") (str "sitting").
Proof.
  assert (fits_int (str "kitten")) as Ha by (by vm_compute).
  assert (fits_int (str "sitten")) as Hb by (by vm_compute).
  assert (fits_int (str "sitting")) as Hc by (by vm_compute).
  split; [by repeat split|].
  apply (levenshtein_triangle (str "kitten") (str "sitten") (str "sitting")
           Ha Hb Hc).
Defined.

Lemma aligned_zero (a b : cstring) (n : nat) :
  aligned a b n -> n = 0%nat -> a = b.
Proof.
  induction 1 as [|c a b n _ IH|c a b n _ IH|c d a b n _ IH|c a b n _ IH];
    intros Hn; try done.
  by rewrite IH.
Qed.

Lemma lev_zero (a b : cstring) : lev a b = 0%nat <-> a = b.
Proof.
  split.
  - intros H. apply (aligned_zero a b (lev a b)); [apply lev_aligned|done].
  - intros ->. apply lev_refl.
Qed.

(** X3. With its allocations succeeding, [levenshtein] returns 0 exactly for
    two strings that are equal up to ASCII case. *)
Theorem levenshtein_zero_iff (a b : cstring) :
  fits_int a -> fits_int b ->
  levenshtein alloc_ok a b = 0 <-> str_to_lower a = str_to_lower b.
Proof.
  intros Ha Hb. rewrite levenshtein_spec, alloc_ok_never_fails by done.
  rewrite <- lev_zero. lia.
Qed.

Lemma levenshtein_zero_iff_witness :
  (fits_int (str "Urgent") /\ fits_int (str "URGENT")) /\
  (levenshtein alloc_ok (str "Urgent") (str "URGENT") = 0 <->
   str_to_lower (str "Urgent") = str_to_lower (str "URGENT")).
Proof.
  assert (fits_int (str "Urgent")) as Ha by (by vm_compute).
  assert (fits_int (str "URGENT")) as Hb by (by vm_compute).
  split; [by split|].
  apply (levenshtein_zero_iff (str "Urgent") (str "URGENT") Ha Hb).
Defined.

Lemma aligned_length (a b : cstring) (n : nat) :
  aligned a b n ->
  (length a <= length b + n /\ length b <= length a + n)%nat.
Proof. induction 1; simpl; lia. Qed.

(** X4. With its allocations succeeding, the result of [levenshtein] lies
    between the difference of the two lengths and the greater of them. *)
Theorem levenshtein_bounds (a b : cstring) :
  fits_int a -> fits_int b ->
  Z.abs (strlen a - strlen b) <= levenshtein alloc_ok a b <=
    Z.max (strlen a) (strlen b).
Proof.
  intros Ha Hb. rewrite levenshtein_spec, alloc_ok_never_fails by done.
  pose proof (lev_le_max (str_to_lower a) (str_to_lower b)) as Hmax.
  pose proof (aligned_length _ _ _
                (lev_aligned (str_to_lower a) (str_to_lower b))) as Hlen.
  unfold str_to_lower, strlen in *. rewrite !length_fmap in *. lia.
Qed.

Lemma levenshtein_bounds_witness :
  (fits_int (str "tag") /\ fits_int (str "category")) /\
  Z.abs (strlen (str "tag") - strlen (str "category")) <=
    levenshtein alloc_ok (str "tag") (str "category") <=
    Z.max (strlen (str "tag")) (strlen (str "category")).
Proof.
  assert (fits_int (str "tag")) as Ha by (by vm_compute).
  assert (fits_int (str "category")) as Hb by (by vm_compute).
  split; [by split|].
  apply (levenshtein_bounds (str "tag") (str "category") Ha Hb).
Defined.

(** ** Trimming and reading answers *)

Lemma skip_spaces_split (s : cstring) :
  exists l, s = l ++ skip_spaces s /\ Forall (fun c => isspace c = true) l.
Proof.
  induction s as [|c s (l & Hs & Hl)]; [by exists []|].
  simpl. destruct (isspace c) eqn:Hc.
  - exists (c :: l). split; [by rewrite Hs at 1|by constructor].
  - by exists [].
Qed.

Lemma skip_spaces_head (s : cstring) (c : ascii) (t : cstring) :
  skip_spaces s = c :: t -> isspace c = false.
Proof.
  induction s as [|x s IH]; [done|]. simpl.
  destruct (isspace x) eqn:Hx; [done|]. by intros [= <- _].
Qed.

Lemma skip_spaces_id (s : cstring) :
  (forall c t, s = c :: t -> isspace c = false) -> skip_spaces s = s.
Proof.
  destruct s as [|c s]; [done|]. intros H. simpl.
  by rewrite (H c s eq_refl).
Qed.

Lemma skip_spaces_last (s t : cstring) (c : ascii) :
  skip_spaces s = t ++ [c] -> exists u, s = u ++ [c].
Proof.
  intros H. destruct (skip_spaces_split s) as (l & Hs & _).
  exists (l ++ t). by rewrite Hs, H, app_assoc.
Qed.

(** X5. [trim_whitespace] removes a run of white space from each end and
    nothing else: the input is the result between two runs of white space,
    the result neither begins nor ends with white space, and trimming twice
    is trimming once. *)
Theorem trim_whitespace_spec (s : cstring) :
  (exists l r,
      s = l ++ trim_whitespace s ++ r /\
      Forall (fun c => isspace c = true) l /\
      Forall (fun c => isspace c = true) r) /\
  (forall c t, trim_whitespace s = c :: t -> isspace c = false) /\
  (forall t c, trim_whitespace s = t ++ [c] -> isspace c = false) /\
  trim_whitespace (trim_whitespace s) = trim_whitespace s.
Proof.
  unfold trim_whitespace.
  destruct (skip_spaces_split s) as (l & Hs & Hl).
  destruct (skip_spaces_split (rev (skip_spaces s))) as (r & Hr & Hrs).
  set (m := skip_spaces (rev (skip_spaces s))) in *.
  assert (skip_spaces s = rev m ++ rev r) as Hmid.
  { rewrite <- rev_app_distr, <- Hr. by rewrite rev_involutive. }
  assert (forall t c, rev m = t ++ [c] -> isspace c = false) as Hlast.
  { intros t c Ht. apply (skip_spaces_head (rev (skip_spaces s)) c (rev t)).
    fold m. rewrite <- (rev_involutive m), Ht, rev_app_distr. done. }
  assert (forall c t, rev m = c :: t -> isspace c = false) as Hfirst.
  { intros c t Ht. destruct (skip_spaces s) as [|c' t'] eqn:E.
    - symmetry in Hmid. apply app_eq_nil in Hmid as [Hm _]. congruence.
    - rewrite Ht in Hmid. injection Hmid as -> _.
      by apply (skip_spaces_head s c t'). }
  split; [|split; [|split]]; try done.
  - exists l, (rev r). split; [by rewrite Hs at 1; rewrite Hmid|].
    split; [done|]. by apply Forall_rev.
  - rewrite (skip_spaces_id (rev m)) by done.
    rewrite rev_involutive. fold m.
    rewrite (skip_spaces_id m); [done|].
    intros c t Ht. apply (Hlast (rev t) c).
    by rewrite Ht.
Qed.

Lemma read_line_spec (k : nat) (input : list ascii) :
  exists line,
    (read_line k input).1 = line /\
    input = line ++ (read_line k input).2 /\
    (length line <= k)%nat /\
    (forall l1 l2, line = l1 ++ "010"%char :: l2 -> l2 = []) /\
    ((length line < k)%nat -> (read_line k input).2 <> [] ->
     last line = Some "010"%char).
Proof.
  revert input. induction k as [|k IH]; intros input.
  { exists []. simpl. repeat split; try done; try lia.
    intros [|??] ?; done. }
  destruct input as [|c rest].
  { exists []. simpl. repeat split; try done; try lia.
    intros [|??] ?; done. }
  simpl. case_bool_decide as Hc.
  - subst c. exists ["010"%char]. simpl. repeat split; try done; try lia.
    intros [|? [|??]] l2 [=]; by subst.
  - destruct (IH rest) as (line & Hline & Hin & Hlen & Hnl & Hend).
    destruct (read_line k rest) as [line' rest'] eqn:E. simpl in *. subst line'.
    exists (c :: line). simpl. repeat split; try done; try lia.
    + by rewrite Hin at 1.
    + intros [|x l1] l2 [= ? Hl]; [done|]. by apply (Hnl l1).
    + intros Hlt Hrest. specialize (Hend ltac:(lia) Hrest).
      destruct line; [done|]. done.
Qed.

Lemma read_answer_line (input : list ascii) :
  exists line,
    input = line ++ (read_answer input).2 /\
    (length line <= 15)%nat /\
    (forall l1 l2, line = l1 ++ "010"%char :: l2 -> l2 = []) /\
    ((length line < 15)%nat -> (read_answer input).2 <> [] ->
     last line = Some "010"%char).
Proof.
  unfold read_answer, fgets. destruct input as [|c rest].
  { exists []. split; [done|]. split; [simpl; lia|]. split; [|done].
    intros [|??] ?; done. }
  change (16 - 1)%nat with 15%nat.
  destruct (read_line_spec 15 (c :: rest)) as (line & Hline & Hin & Hrest).
  destruct (read_line 15 (c :: rest)) as [line' rest']. cbn [fst snd] in *.
  subst line'. by exists line.
Qed.

(** X6. A confirmation reads at most one line and at most 15 characters of
    it: the input is the characters read followed by the input left; a
    newline is read only as the last character; fewer than 15 characters are
    read only up to a newline or to the end of the input.  At the end of the
    input the answer is a refusal.  The call adds its question to the trace
    and changes neither the store nor anything else. *)
Theorem get_confirmation_reads_one_line (p : prompt) (w : world) :
  let r := get_confirmation p w in
  (exists line,
      stdin w = line ++ stdin r.2 /\
      (length line <= 15)%nat /\
      (forall l1 l2, line = l1 ++ "010"%char :: l2 -> l2 = []) /\
      ((length line < 15)%nat -> stdin r.2 <> [] ->
       last line = Some "010"%char)) /\
  (stdin w = [] -> r.1 = false) /\
  r.2 = set_stdin (stdin r.2) (log (EvPrompt p) w).
Proof.
  cbv zeta. rewrite get_confirmation_run. cbn [fst snd].
  rewrite stdin_set_stdin.
  split; [apply read_answer_line|]. split; [|done].
  by intros ->.
Qed.

(** ** Splitting a path *)

Lemma strrchr_split_Some (c : ascii) (s before after : cstring) :
  strrchr_split c s = Some (before, after) ->
  s = before ++ c :: after /\ c ∉ after.
Proof.
  revert before after. induction s as [|x s IH]; intros before after; [done|].
  simpl. destruct (strrchr_split c s) as [[b a]|] eqn:E.
  - intros [= <- <-]. destruct (IH b a eq_refl) as [-> Hnot]. done.
  - destruct (decide (x = c)) as [->|]; [|done].
    intros [= <- <-]. split; [done|].
    clear IH. induction s as [|y s IH]; [by apply not_elem_of_nil|].
    simpl in E. destruct (strrchr_split c s) as [[??]|]; [done|].
    destruct (decide (y = c)); [done|].
    apply not_elem_of_cons. split; [done|]. by apply IH.
Qed.

Lemma strrchr_split_None (c : ascii) (s : cstring) :
  strrchr_split c s = None -> c ∉ s.
Proof.
  induction s as [|y s IH]; [intros; by apply not_elem_of_nil|].
  simpl. destruct (strrchr_split c s) as [[??]|]; [done|].
  destruct (decide (y = c)); [done|]. intros _.
  apply not_elem_of_cons. split; [done|]. by apply IH.
Qed.

(** X7. For a path that fits the buffer, the directory part and the file
    name part put the path together again around its last separator, and the
    file name holds no separator; a path without separator is both its own
    directory part and its own file name. *)
Theorem path_split_join (path : cstring) (size : nat) :
  (length path < size)%nat ->
  let dir := get_directory_from_path path size in
  let name := get_filename_from_path path in
  (PATH_SEPARATOR ∉ name) /\
  (PATH_SEPARATOR ∈ path -> path = dir ++ PATH_SEPARATOR :: name) /\
  (PATH_SEPARATOR ∉ path -> dir = path /\ name = path).
Proof.
  intros Hsize. cbv zeta.
  unfold get_directory_from_path, get_filename_from_path, strncpy_buf.
  rewrite take_ge by lia.
  destruct (strrchr_split PATH_SEPARATOR path) as [[before after]|] eqn:E.
  - apply strrchr_split_Some in E as [-> Hnot].
    split; [done|]. split; [done|].
    intros Hno. destruct Hno. apply elem_of_app. right. by left.
  - apply strrchr_split_None in E. done.
Qed.

Lemma path_split_join_witness :
  (length (str "/home/ann/.filesearch/filesearch.db") < 4096)%nat /\
  let path := str "/home/ann/.filesearch/filesearch.db" in
  let dir := get_directory_from_path path 4096 in
  let name := get_filename_from_path path in
  (PATH_SEPARATOR ∉ name) /\
  (PATH_SEPARATOR ∈ path -> path = dir ++ PATH_SEPARATOR :: name) /\
  (PATH_SEPARATOR ∉ path -> dir = path /\ name = path).
Proof.
  assert (length (str "/home/ann/.filesearch/filesearch.db") < 4096)%nat as H
    by (vm_compute; lia).
  split; [exact H|].
  apply (path_split_join (str "/home/ann/.filesearch/filesearch.db") 4096 H).
Defined.

(** ** Substring matching *)

Lemma has_prefix_true (needle haystack : cstring) :
  has_prefix needle haystack = true <-> exists r, haystack = needle ++ r.
Proof.
  revert haystack. induction needle as [|c needle IH]; intros haystack.
  - split; [by exists haystack|done].
  - destruct haystack as [|d haystack]; simpl.
    + split; [done|by intros (? & ?)].
    + rewrite andb_true_iff, bool_decide_eq_true, IH. split.
      * intros (-> & r & ->). by exists r.
      * intros (r & [= -> ->]). split; [done|by exists r].
Qed.

Lemma strstr_true (haystack needle : cstring) :
  strstr haystack needle = true <-> exists l r, haystack = l ++ needle ++ r.
Proof.
  split; [|intros (l & r & ->); apply strstr_infix].
  induction haystack as [|c haystack IH]; simpl.
  - rewrite orb_false_r. intros (r & Hr)%has_prefix_true. by exists [], r.
  - rewrite orb_true_iff. intros [(r & Hr)%has_prefix_true|H].
    + by exists [], r.
    + destruct (IH H) as (l & r & ->). by exists (c :: l), r.
Qed.

(** X8. For two names that fit the 256-byte buffers, [is_substring_match]
    holds exactly when, after ASCII folding, one of the two occurs in the
    other as a run of consecutive characters; the test does not depend on the
    order of its arguments, and the empty name matches every name. *)
Theorem is_substring_match_spec (s1 s2 : cstring) :
  (length s1 < MAX_TAG_LENGTH)%nat ->
  (length s2 < MAX_TAG_LENGTH)%nat ->
  (is_substring_match s1 s2 = true <->
   (exists l r, str_to_lower s1 = l ++ str_to_lower s2 ++ r) \/
   (exists l r, str_to_lower s2 = l ++ str_to_lower s1 ++ r)) /\
  is_substring_match s1 s2 = is_substring_match s2 s1 /\
  is_substring_match [] s2 = true.
Proof.
  intros H1 H2. unfold is_substring_match, strncpy_buf, MAX_TAG_LENGTH in *.
  rewrite !take_ge by lia. split; [|split].
  - by rewrite orb_true_iff, !strstr_true.
  - apply orb_comm.
  - rewrite take_nil. apply orb_true_iff. right.
    apply strstr_true. exists [], (str_to_lower s2). done.
Qed.

Lemma is_substring_match_spec_witness :
  ((length (str "Work") < MAX_TAG_LENGTH)%nat /\
   (length (str "homework") < MAX_TAG_LENGTH)%nat) /\
  (is_substring_match (str "Work") (str "homework") = true <->
   (exists l r, str_to_lower (str "Work") =
                l ++ str_to_lower (str "homework") ++ r) \/
   (exists l r, str_to_lower (str "homework") =
                l ++ str_to_lower (str "Work") ++ r)) /\
  is_substring_match (str "Work") (str "homework") =
    is_substring_match (str "homework") (str "Work") /\
  is_substring_match [] (str "homework") = true.
Proof.
  assert (length (str "Work") < MAX_TAG_LENGTH)%nat as H1
    by (vm_compute; lia).
  assert (length (str "homework") < MAX_TAG_LENGTH)%nat as H2
    by (vm_compute; lia).
  split; [by split|].
  apply (is_substring_match_spec (str "Work") (str "homework") H1 H2).
Defined.

(** ** Settings *)

Lemma digit_value_pretty (d : N) :
  (d < 10)%N -> digit_value (pretty_N_char d) = Some (Z.of_N d).
Proof.
  intros Hd.
  assert (d = 0 \/ d = 1 \/ d = 2 \/ d = 3 \/ d = 4 \/ d = 5 \/ d = 6 \/
          d = 7 \/ d = 8 \/ d = 9)%N as Hcases by lia.
  by repeat destruct Hcases as [->|Hcases]; [..|subst d].
Qed.

Lemma str_String (c : ascii) (s : string) : str (String c s) = c :: str s.
Proof. reflexivity. Qed.

Lemma atoi_digits_pretty_N_go (x : N) :
  exists k : nat, forall s acc,
    atoi_digits acc (str (pretty_N_go x s)) =
      atoi_digits (acc * 10 ^ Z.of_nat k + Z.of_N x) (str s).
Proof.
  induction (N.lt_wf_0 x) as [x _ IH].
  destruct (decide (x = 0)%N) as [->|Hx].
  { exists 0%nat. intros s acc. rewrite pretty_N_go_0. f_equal. lia. }
  destruct (IH (x `div` 10)%N) as [k Hk]; [apply N.div_lt; lia|].
  exists (S k). intros s acc.
  rewrite pretty_N_go_step, Hk, str_String by lia. simpl atoi_digits.
  rewrite digit_value_pretty by (apply N.mod_lt; lia).
  f_equal. rewrite N2Z.inj_div, N2Z.inj_mod, Nat2Z.inj_succ, Z.pow_succ_r by lia.
  pose proof (Z.div_mod (Z.of_N x) 10 ltac:(lia)) as Hdm.
  change (Z.of_N 10) with 10.
  set (P := 10 ^ Z.of_nat k). clearbody P.
  replace (acc * (10 * P)) with (10 * (acc * P)) by ring. lia.
Qed.

Lemma pretty_N_go_head (x : N) (s : string) :
  (0 < x)%N ->
  exists d rest, (d < 10)%N /\ str (pretty_N_go x s) = pretty_N_char d :: rest.
Proof.
  revert s. induction (N.lt_wf_0 x) as [x _ IH]; intros s Hx.
  rewrite pretty_N_go_step by done.
  destruct (decide (x `div` 10 = 0)%N) as [->|Hdiv].
  - rewrite pretty_N_go_0, str_String.
    exists (x `mod` 10)%N, (str s). split; [apply N.mod_lt; lia|done].
  - apply IH; [apply N.div_lt; lia|by apply N.neq_0_lt_0].
Qed.

Lemma atoi_leading_digit (d : N) (rest : cstring) :
  (d < 10)%N ->
  atoi (pretty_N_char d :: rest) =
    to_int (atoi_digits 0 (pretty_N_char d :: rest)) /\
  atoi ("-"%char :: pretty_N_char d :: rest) =
    to_int (- atoi_digits 0 (pretty_N_char d :: rest)).
Proof.
  intros Hd.
  assert (d = 0 \/ d = 1 \/ d = 2 \/ d = 3 \/ d = 4 \/ d = 5 \/ d = 6 \/
          d = 7 \/ d = 8 \/ d = 9)%N as Hcases by lia.
  by repeat destruct Hcases as [->|Hcases]; [..|subst d].
Qed.

Lemma atoi_format_int (v : Z) :
  -2147483648 <= v <= INT_MAX -> atoi (format_int v) = v.
Proof.
  intros Hv. unfold format_int, pretty, pretty_Z.
  destruct v as [|p|p]; [done|..].
  - unfold pretty, pretty_positive, pretty, pretty_N.
    rewrite decide_False by done.
    destruct (pretty_N_go_head (N.pos p) "" ltac:(lia)) as (d & rest & Hd & Hs).
    destruct (atoi_digits_pretty_N_go (N.pos p)) as [k Hk].
    specialize (Hk ""%string 0).
    rewrite Hs in *. rewrite (proj1 (atoi_leading_digit d rest Hd)), Hk.
    simpl atoi_digits. rewrite to_int_id by (unfold INT_MAX in *; lia). lia.
  - unfold pretty, pretty_positive, pretty, pretty_N.
    rewrite decide_False by done.
    destruct (pretty_N_go_head (N.pos p) "" ltac:(lia)) as (d & rest & Hd & Hs).
    destruct (atoi_digits_pretty_N_go (N.pos p)) as [k Hk].
    specialize (Hk ""%string 0).
    change (str ("-" +:+ pretty_N_go (N.pos p) ""))
      with ("-"%char :: str (pretty_N_go (N.pos p) "")).
    rewrite Hs in *. rewrite (proj2 (atoi_leading_digit d rest Hd)), Hk.
    simpl atoi_digits. rewrite to_int_id by (unfold INT_MAX in *; lia). lia.
Qed.

Lemma set_string_setting_run (key value : cstring) (w : world) :
  set_string_setting key value w =
    match settings (store w) with
    | None => (-1, log (EvSql (ReplaceSetting key value)) w)
    | Some rows =>
        (0, set_store (set_settings (store w)
                         (Some (replace_setting key value rows)))
              (log (EvSql (ReplaceSetting key value)) w))
    end.
Proof.
  unfold set_string_setting, mbind, M_bind, sql, emit, get_world. simpl.
  by destruct (settings (store w)).
Qed.

Lemma get_string_setting_run (key : cstring) (size : nat) (dflt : cstring)
    (w : world) :
  get_string_setting key size dflt w =
    (strncpy_buf size
       (default dflt (settings (store w) ≫= select_setting key)),
     log (EvSql (SelectSetting key)) w).
Proof.
  unfold get_string_setting, mbind, M_bind, sql, emit, get_world. simpl.
  destruct (settings (store w)) as [rows|]; [|done]. simpl.
  by destruct (select_setting key rows).
Qed.

Lemma select_setting_None (key : cstring) (rows : list (cstring * cstring)) :
  select_setting key rows = None <-> key ∉ rows.*1.
Proof.
  induction rows as [|[k v] rows IH]; simpl.
  - split; [intros _; apply not_elem_of_nil|done].
  - rewrite not_elem_of_cons. destruct (decide (k = key)) as [->|Hne].
    + split; [done|]. by intros [? _].
    + rewrite IH. split; [by intros ?; split|by intros [_ ?]].
Qed.

Lemma select_setting_app (key : cstring) (l1 l2 : list (cstring * cstring)) :
  select_setting key (l1 ++ l2) =
    match select_setting key l1 with
    | Some v => Some v
    | None => select_setting key l2
    end.
Proof.
  induction l1 as [|[k v] l1 IH]; simpl; [done|].
  by destruct (decide (k = key)).
Qed.

Lemma select_setting_filter_ne (key key' : cstring)
    (rows : list (cstring * cstring)) :
  key' <> key ->
  select_setting key' (filter (fun kv => kv.1 <> key) rows) =
    select_setting key' rows.
Proof.
  intros Hne. induction rows as [|[k v] rows IH]; [done|].
  rewrite filter_cons. simpl. destruct (decide (k <> key)) as [Hk|Hk]; simpl.
  - by rewrite IH.
  - apply dec_stable in Hk. subst k. by rewrite decide_False.
Qed.

Lemma select_setting_replaced (key value : cstring)
    (rows : list (cstring * cstring)) :
  select_setting key (replace_setting key value rows) = Some value.
Proof.
  unfold replace_setting. rewrite select_setting_app.
  replace (select_setting key (filter (fun kv => kv.1 <> key) rows))
    with (@None cstring).
  - simpl. by rewrite decide_True.
  - symmetry. apply select_setting_None.
    intros (kv & Hk & Hin)%list_elem_of_fmap.
    apply list_elem_of_filter in Hin as [Hne _]. by destruct Hne.
Qed.

Lemma select_setting_replaced_other (key key' value : cstring)
    (rows : list (cstring * cstring)) :
  key' <> key ->
  select_setting key' (replace_setting key value rows) =
    select_setting key' rows.
Proof.
  intros Hne. unfold replace_setting.
  rewrite select_setting_app, select_setting_filter_ne by done.
  destruct (select_setting key' rows); [done|]. simpl.
  by rewrite decide_False.
Qed.

Lemma replace_setting_keys_NoDup (key value : cstring)
    (rows : list (cstring * cstring)) :
  NoDup rows.*1 -> NoDup (replace_setting key value rows).*1.
Proof.
  intros Hnd. unfold replace_setting. rewrite fmap_app. simpl.
  apply NoDup_app. split; [|split].
  - induction rows as [|[k v] rows IH]; [constructor|].
    rewrite fmap_cons in Hnd. apply NoDup_cons in Hnd as [Hk Hnd].
    rewrite filter_cons. destruct (decide _); simpl; [|by apply IH].
    apply NoDup_cons. split; [|by apply IH].
    intros (kv & Hkv & Hin)%list_elem_of_fmap.
    apply list_elem_of_filter in Hin as [_ Hin].
    apply Hk. apply list_elem_of_fmap. by exists kv.
  - intros k (kv & -> & Hin)%list_elem_of_fmap.
    apply list_elem_of_filter in Hin as [Hne _].
    rewrite list_elem_of_singleton. done.
  - apply NoDup_singleton.
Qed.





(** X11. A key that is not in the settings table, or a store without
    settings table, reads as the caller's default, as a string (cut to the
    buffer) and as an integer; and writing to a store without settings table
    fails with -1 and leaves the store as it was. *)
Theorem setting_missing_is_default (key : cstring) (w : world) :
  (settings (store w) = None \/
   exists rows, settings (store w) = Some rows /\ key ∉ rows.*1) ->
  (forall size dflt,
      (get_string_setting key size dflt w).1 = strncpy_buf size dflt) /\
  (forall dflt, (get_int_setting key dflt w).1 = dflt) /\
  (settings (store w) = None ->
   forall value,
     let r := set_string_setting key value w in
     r.1 = -1 /\ store r.2 = store w).
Proof.
  intros Hmissing. split; [|split].
  - intros size dflt. rewrite get_string_setting_run. cbn [fst].
    destruct Hmissing as [->|(rows & -> & Hkey)]; [done|]. simpl.
    apply select_setting_None in Hkey. by rewrite Hkey.
  - intros dflt. rewrite get_int_setting_run. cbn [fst].
    unfold read_int_setting.
    destruct Hmissing as [->|(rows & -> & Hkey)]; [done|].
    apply select_setting_None in Hkey. by rewrite Hkey.
  - intros Hnone value. cbv zeta.
    by rewrite set_string_setting_run, Hnone.
Qed.

Lemma setting_missing_is_default_witness :
  let w := World true true true true (fun _ => alloc_ok) true
             (Database (Some []) None None None None None) true [] [] in
  (settings (store w) = None \/
   exists rows, settings (store w) = Some rows /\
                str "max_results" ∉ rows.*1) /\
  (forall size dflt,
      (get_string_setting (str "max_results") size dflt w).1 =
        strncpy_buf size dflt) /\
  (forall dflt, (get_int_setting (str "max_results") dflt w).1 = dflt) /\
  (settings (store w) = None ->
   forall value,
     let r := set_string_setting (str "max_results") value w in
     r.1 = -1 /\ store r.2 = store w).
Proof.
  intros w.
  assert (settings (store w) = None \/
          exists rows, settings (store w) = Some rows /\
                       str "max_results" ∉ rows.*1) as H by (by left).
  split; [exact H|].
  apply (setting_missing_is_default (str "max_results") w H).
Defined.

(** ** Store initialization, case by case *)

(** X12. When the directory is missing, the file cannot be opened or the
    SQL function cannot be registered, [init_database] fails with -1 without
    asking anything and without changing the contents of the store. *)
Theorem init_blocked (w : world) :
  ~ openable w ->
  let r := init_database w in
  r.1 = -1 /\ store r.2 = store w /\ stdin r.2 = stdin w /\
  (forall p, EvPrompt p ∈ out r.2 -> EvPrompt p ∈ out w).
Proof.
  intros Hblocked. cbv zeta.
  unfold init_database, mbind, M_bind, get_world.
  destruct (dir_exists w) eqn:Hd; cbn [negb].
  2:{ repeat split; try done. simpl. intros p Hp.
      apply elem_of_app in Hp as [Hp|Hp]; [done|].
      by apply list_elem_of_singleton in Hp. }
  destruct (open_ok w) eqn:Ho; cbn [negb].
  2:{ repeat split; try done. simpl. intros p Hp.
      apply elem_of_app in Hp as [Hp|Hp]; [done|].
      by apply list_elem_of_singleton in Hp. }
  destruct (register_ok w) eqn:Hr.
  { destruct Hblocked. by repeat split. }
  simpl. repeat split; try done. intros p Hp.
  rewrite !elem_of_app, !list_elem_of_singleton in Hp.
  by destruct Hp as [[Hp|Hp]|Hp].
Qed.

Lemma init_blocked_witness :
  let w := World true false true true (fun _ => alloc_ok) true
             (Database (Some []) None None None None None)
             false ["y"; "010"]%char [] in
  ~ openable w /\
  let r := init_database w in
  r.1 = -1 /\ store r.2 = store w /\ stdin r.2 = stdin w /\
  (forall p, EvPrompt p ∈ out r.2 -> EvPrompt p ∈ out w).
Proof.
  intros w.
  assert (~ openable w) as H by (by intros (_ & ? & _)).
  split; [exact H|]. apply (init_blocked w H).
Defined.

(** X13. Opening a store that already has a settings table, whatever version
    it records, changes nothing in it and asks nothing: [init_database]
    returns 0 with the connection open. *)
Theorem init_versioned_is_noop (w : world) :
  openable w ->
  file_exists w = true ->
  is_Some (settings (store w)) ->
  let r := init_database w in
  r.1 = 0 /\ store r.2 = store w /\ stdin r.2 = stdin w /\ handle r.2 = true.
Proof.
  intros (Hd & Ho & Hr) Hfile Hsettings. cbv zeta.
  unfold init_database, mbind, M_bind, get_world.
  rewrite Hd, Ho, Hr, Hfile.
  cbn [negb touch_file put_handle sql print emit].
  rewrite get_int_setting_run.
  change (store (log _ (log _ (set_handle _ (set_file _ _ w)))))
    with (store w).
  set (v := read_int_setting (store w) (str "schema_version") 0).
  destruct (Z.eqb_spec v 0) as [Hv|Hv].
  - rewrite table_exists_run.
    change (store (log _ (log _ (log _ (set_handle _ (set_file _ _ w))))))
      with (store w).
    rewrite table_present_settings, bool_decide_true by done.
    cbn [negb andb]. by destruct (v <? DEFAULT_SCHEMA_VERSION).
  - cbn [andb]. by destruct (v <? DEFAULT_SCHEMA_VERSION).
Qed.

Lemma init_versioned_is_noop_witness :
  let w := World true true true true (fun _ => alloc_ok) true
             (Database (Some []) (Some []) (Some []) (Some []) (Some [])
                (Some [(str "schema_version", str "1")]))
             false ["y"; "010"]%char [] in
  (openable w /\ file_exists w = true /\ is_Some (settings (store w))) /\
  let r := init_database w in
  r.1 = 0 /\ store r.2 = store w /\ stdin r.2 = stdin w /\ handle r.2 = true.
Proof.
  intros w.
  assert (openable w) as H1 by (by repeat split).
  assert (is_Some (settings (store w))) as H2 by (by eexists).
  split; [by repeat split|].
  apply (init_versioned_is_noop w H1 eq_refl H2).
Defined.

(** X14. On a new store (no file yet), with nothing in the way,
    [init_database] returns 0 without asking anything and leaves a complete
    store: the five tables of paths, tags and memberships empty, the five
    seed categories, the five default settings; opening that store again
    changes nothing. *)
Theorem init_new_store (w : world) :
  openable w ->
  schema_ok w = true ->
  file_exists w = false ->
  store w = empty_database ->
  let r := init_database w in
  let d := store r.2 in
  r.1 = 0 /\ file_exists r.2 = true /\ handle r.2 = true /\
  stdin r.2 = stdin w /\
  (paths d = Some [] /\ tags d = Some [] /\
   path_categories d = Some [] /\ path_tags d = Some []) /\
  n_name <$> default [] (categories d) = default_categories /\
  (read_int_setting d (str "schema_version") 0 = DEFAULT_SCHEMA_VERSION /\
   read_int_setting d (str "app_version") 0 = DEFAULT_APP_VERSION /\
   read_int_setting d (str "similarity_threshold") 0 =
     DEFAULT_SIMILARITY_THRESHOLD /\
   read_int_setting d (str "max_results") 0 = DEFAULT_MAX_RESULTS /\
   read_int_setting d (str "fuzzy_default_distance") 0 =
     DEFAULT_FUZZY_DISTANCE) /\
  (init_database r.2).1 = 0 /\
  store (init_database r.2).2 = d.
Proof.
  intros (Hd & Ho & Hr) Hs Hf Hstore.
  destruct w as [de op re sc ma fi st ha inp ou]. simpl in *. subst.
  by vm_compute.
Qed.

Lemma init_new_store_witness :
  let w := World true true true true (fun _ => alloc_ok) false empty_database
             false [] [] in
  (openable w /\ schema_ok w = true /\ file_exists w = false /\
   store w = empty_database) /\
  let r := init_database w in
  let d := store r.2 in
  r.1 = 0 /\ file_exists r.2 = true /\ handle r.2 = true /\
  stdin r.2 = stdin w /\
  (paths d = Some [] /\ tags d = Some [] /\
   path_categories d = Some [] /\ path_tags d = Some []) /\
  n_name <$> default [] (categories d) = default_categories /\
  (read_int_setting d (str "schema_version") 0 = DEFAULT_SCHEMA_VERSION /\
   read_int_setting d (str "app_version") 0 = DEFAULT_APP_VERSION /\
   read_int_setting d (str "similarity_threshold") 0 =
     DEFAULT_SIMILARITY_THRESHOLD /\
   read_int_setting d (str "max_results") 0 = DEFAULT_MAX_RESULTS /\
   read_int_setting d (str "fuzzy_default_distance") 0 =
     DEFAULT_FUZZY_DISTANCE) /\
  (init_database r.2).1 = 0 /\
  store (init_database r.2).2 = d.
Proof.
  intros w.
  assert (openable w) as H by (by repeat split).
  split; [by repeat split|].
  apply (init_new_store w H eq_refl eq_refl eq_refl).
Defined.

Lemma insert_or_ignore_name_keeps (name : cstring) (rows : list name_row)
    (r : name_row) :
  r ∈ rows -> r ∈ insert_or_ignore_name name rows.
Proof.
  unfold insert_or_ignore_name, insert_name. case_bool_decide; [done|].
  intros Hr. apply elem_of_app. by left.
Qed.

Lemma insert_or_ignore_name_has (name : cstring) (rows : list name_row) :
  exists r, r ∈ insert_or_ignore_name name rows /\ n_name r = name.
Proof.
  unfold insert_or_ignore_name, insert_name. case_bool_decide as Hin.
  - apply list_elem_of_fmap in Hin as (r & -> & Hr). by exists r.
  - eexists. split; [apply elem_of_app; right; by left|done].
Qed.

Lemma foldl_insert_or_ignore_link (links selected : list (Z * Z)) (l : Z * Z) :
  l ∈ foldl (fun rows l => insert_or_ignore_link l rows) links selected <->
  l ∈ links \/ l ∈ selected.
Proof.
  revert links. induction selected as [|s selected IH]; intros links; simpl.
  - split; [by left|]. intros [?|?%elem_of_nil]; done.
  - rewrite IH. unfold insert_or_ignore_link. case_bool_decide as Hs.
    + rewrite elem_of_cons. split; [intros [?|?]; auto|].
      intros [?|[->|?]]; auto.
    + rewrite elem_of_app, list_elem_of_singleton, elem_of_cons. tauto.
Qed.

(** *** Running the migration *)

Lemma bind_run {A B : Type} (m : M A) (f : A -> M B) (w : world) :
  (m ≫= f) w = f (m w).1 (m w).2.
Proof. unfold mbind, M_bind. by destruct (m w). Qed.

Lemma create_schema_v1_run (w : world) :
  schema_ok w = true ->
  exists w', create_schema_v1 w = (0, w') /\
    store w' =
      Database (create_if_missing (paths (store w)))
        (create_if_missing (categories (store w)))
        (create_if_missing (path_categories (store w)))
        (create_if_missing (tags (store w)))
        (create_if_missing (path_tags (store w)))
        (create_if_missing (settings (store w))).
Proof.
  intros Hok. unfold create_schema_v1, mbind, M_bind, sql, emit, get_world.
  cbn -[create_if_missing]. rewrite Hok. by eexists.
Qed.

Lemma set_int_setting_run (key : cstring) (value : Z) (w : world)
    (rows : list (cstring * cstring)) :
  settings (store w) = Some rows ->
  exists w', set_int_setting key value w = (0, w') /\
    store w' =
      set_settings (store w)
        (Some (replace_setting key (format_int value) rows)).
Proof.
  intros Hrows. unfold set_int_setting.
  rewrite set_string_setting_run, Hrows. by eexists.
Qed.

Lemma insert_default_settings_run (w : world)
    (rows : list (cstring * cstring)) :
  settings (store w) = Some rows ->
  exists w', insert_default_settings w = (0, w') /\
    store w' =
      set_settings (store w)
        (Some (replace_setting (str "fuzzy_default_distance")
                 (format_int DEFAULT_FUZZY_DISTANCE)
              (replace_setting (str "max_results")
                 (format_int DEFAULT_MAX_RESULTS)
              (replace_setting (str "similarity_threshold")
                 (format_int DEFAULT_SIMILARITY_THRESHOLD)
              (replace_setting (str "app_version")
                 (format_int DEFAULT_APP_VERSION)
              (replace_setting (str "schema_version")
                 (format_int DEFAULT_SCHEMA_VERSION) rows)))))).
Proof.
  intros H0. unfold insert_default_settings.
  destruct (set_int_setting_run (str "schema_version")
              DEFAULT_SCHEMA_VERSION w _ H0) as (w1 & E1 & S1).
  rewrite bind_run, E1. cbn [fst snd].
  assert (settings (store w1) = Some (replace_setting (str "schema_version")
            (format_int DEFAULT_SCHEMA_VERSION) rows)) as H1
    by (by rewrite S1).
  destruct (set_int_setting_run (str "app_version")
              DEFAULT_APP_VERSION w1 _ H1) as (w2 & E2 & S2).
  rewrite bind_run, E2. cbn [fst snd].
  assert (settings (store w2) = Some (replace_setting (str "app_version")
            (format_int DEFAULT_APP_VERSION)
            (replace_setting (str "schema_version")
            (format_int DEFAULT_SCHEMA_VERSION) rows))) as H2
    by (by rewrite S2).
  destruct (set_int_setting_run (str "similarity_threshold")
              DEFAULT_SIMILARITY_THRESHOLD w2 _ H2) as (w3 & E3 & S3).
  rewrite bind_run, E3. cbn [fst snd].
  assert (settings (store w3) = Some (replace_setting
            (str "similarity_threshold")
            (format_int DEFAULT_SIMILARITY_THRESHOLD)
            (replace_setting (str "app_version")
            (format_int DEFAULT_APP_VERSION)
            (replace_setting (str "schema_version")
            (format_int DEFAULT_SCHEMA_VERSION) rows)))) as H3
    by (by rewrite S3).
  destruct (set_int_setting_run (str "max_results")
              DEFAULT_MAX_RESULTS w3 _ H3) as (w4 & E4 & S4).
  rewrite bind_run, E4. cbn [fst snd].
  assert (settings (store w4) = Some (replace_setting (str "max_results")
            (format_int DEFAULT_MAX_RESULTS)
            (replace_setting (str "similarity_threshold")
            (format_int DEFAULT_SIMILARITY_THRESHOLD)
            (replace_setting (str "app_version")
            (format_int DEFAULT_APP_VERSION)
            (replace_setting (str "schema_version")
            (format_int DEFAULT_SCHEMA_VERSION) rows))))) as H4
    by (by rewrite S4).
  destruct (set_int_setting_run (str "fuzzy_default_distance")
              DEFAULT_FUZZY_DISTANCE w4 _ H4) as (w5 & E5 & S5).
  rewrite bind_run, E5. cbn [fst snd].
  exists w5. split; [done|].
  rewrite S5, S4, S3, S2, S1. reflexivity.
Qed.

Lemma insert_categories_run (names : list cstring) (m : M unit)
    (w w0 : world) (cs : list name_row) :
  m w = (tt, w0) ->
  categories (store w0) = Some cs ->
  exists w',
    foldl (fun (m : M unit) name =>
             m ;;
             sql (InsertOrIgnoreCategory name) ;;
             w ← get_world;
             put_store (set_categories (store w)
                          (insert_or_ignore_name name <$> categories (store w))))
          m names w = (tt, w') /\
    store w' =
      set_categories (store w0)
        (Some (foldl (fun rows name => insert_or_ignore_name name rows)
                 cs names)).
Proof.
  revert m w0 cs. induction names as [|name names IH]; intros m w0 cs Hm Hcs.
  - exists w0. split; [done|]. destruct (store w0). simpl in *. by subst.
  - cbn [foldl].
    edestruct (IH (m ;;
                   sql (InsertOrIgnoreCategory name) ;;
                   w ← get_world;
                   put_store (set_categories (store w)
                     (insert_or_ignore_name name <$> categories (store w))))
                 (set_store (set_categories (store w0)
                    (Some (insert_or_ignore_name name cs)))
                    (log (EvSql (InsertOrIgnoreCategory name)) w0))
                 (insert_or_ignore_name name cs)) as (w' & E & S).
    + rewrite bind_run, Hm. cbn [fst snd].
      unfold mbind, M_bind, sql, emit, get_world, put_store.
      cbn -[insert_or_ignore_name]. by rewrite Hcs.
    + reflexivity.
    + exists w'. split; [done|]. rewrite S. reflexivity.
Qed.

Lemma insert_default_categories_run (w : world) (cs : list name_row) :
  categories (store w) = Some cs ->
  exists w', insert_default_categories w = (0, w') /\
    store w' =
      set_categories (store w)
        (Some (foldl (fun rows name => insert_or_ignore_name name rows)
                 cs default_categories)).
Proof.
  intros Hcs. unfold insert_default_categories.
  rewrite bind_run. change (get_world w) with (w, w). cbn [fst snd].
  rewrite Hcs.
  destruct (insert_categories_run default_categories (mret tt) w w cs
              eq_refl Hcs) as (w' & E & S).
  rewrite bind_run, E. by exists w'.
Qed.

Lemma migrate_paths_run (w : world) (ps : list path_row)
    (cs : list name_row) (links : list (Z * Z)) :
  paths (store w) = Some ps ->
  categories (store w) = Some cs ->
  path_categories (store w) = Some links ->
  exists w', migrate_paths w = (tt, w') /\
    store w' =
      set_path_categories (store w)
        (Some (foldl (fun rows l => insert_or_ignore_link l rows) links
                 (p ← ps;
                  c ← filter (fun c => n_name c = str "Uncategorized") cs;
                  [(p_id p, n_id c)]))).
Proof.
  intros Hps Hcs Hlinks.
  unfold migrate_paths, mbind at 1 2, M_bind, sql, emit, get_world, put_store.
  cbn [fst snd]. rewrite store_log, Hps, Hcs, Hlinks. by eexists.
Qed.

Lemma init_database_migrates (w : world) (ps : list path_row) :
  openable w ->
  schema_ok w = true ->
  legacy_store w ->
  paths (store w) = Some ps ->
  (read_answer (stdin w)).1 = true ->
  let cs := foldl (fun rows name => insert_or_ignore_name name rows)
              (default [] (categories (store w))) default_categories in
  (init_database w).1 = 0 /\
  store (init_database w).2 =
    Database (Some ps) (Some cs)
      (Some (foldl (fun rows l => insert_or_ignore_link l rows)
               (default [] (path_categories (store w)))
               (p ← ps;
                c ← filter (fun c => n_name c = str "Uncategorized") cs;
                [(p_id p, n_id c)])))
      (Some (default [] (tags (store w))))
      (Some (default [] (path_tags (store w))))
      (Some (replace_setting (str "fuzzy_default_distance")
               (format_int DEFAULT_FUZZY_DISTANCE)
            (replace_setting (str "max_results")
               (format_int DEFAULT_MAX_RESULTS)
            (replace_setting (str "similarity_threshold")
               (format_int DEFAULT_SIMILARITY_THRESHOLD)
            (replace_setting (str "app_version")
               (format_int DEFAULT_APP_VERSION)
            (replace_setting (str "schema_version")
               (format_int DEFAULT_SCHEMA_VERSION) [])))))).
Proof.
  intros (Hd & Ho & Hr) Hs (Hf & _ & Hsettings) Hps Hyes.
  destruct w as [de op re sc ma fi st ha inp ou].
  destruct st as [p c pc t pt s]. simpl in Hd, Ho, Hr, Hs, Hf, Hsettings, Hps.
  subst. cbn [stdin] in Hyes. cbv zeta.
  cbn [store categories path_categories tags path_tags].
  unfold init_database, mbind, M_bind, get_world.
  cbn -[get_confirmation read_answer insert_or_ignore_name
        insert_or_ignore_link replace_setting str].
  rewrite get_int_setting_run. unfold read_int_setting.
  cbn -[get_confirmation read_answer insert_or_ignore_name
        insert_or_ignore_link replace_setting str].
  rewrite table_exists_run.
  cbn -[get_confirmation read_answer insert_or_ignore_name
        insert_or_ignore_link replace_setting str table_present].
  rewrite table_present_settings.
  cbn -[get_confirmation read_answer insert_or_ignore_name
        insert_or_ignore_link replace_setting str].
  rewrite get_confirmation_run.
  cbn -[read_answer insert_or_ignore_name insert_or_ignore_link
        replace_setting str].
  rewrite Hyes.
  match goal with
  | |- context [(if negb true then _ else _) ?W] => set (w1 := W)
  end.
  cbn [negb].
  assert (store w1 = Database (Some ps) c pc t pt None) as S1 by reflexivity.
  assert (schema_ok w1 = true) as Hok by reflexivity.
  clearbody w1.
  destruct (create_schema_v1_run w1 Hok) as (w2 & E2 & S2).
  rewrite S1 in S2. cbn [paths categories path_categories tags path_tags
    settings] in S2.
  rewrite E2. cbn [Z.eqb negb].
  destruct (insert_default_settings_run w2 [])
    as (w3 & E3 & S3); [by rewrite S2|].
  rewrite E3.
  destruct (insert_default_categories_run w3 (default [] c))
    as (w4 & E4 & S4); [rewrite S3, S2; by destruct c|].
  rewrite E4.
  destruct (migrate_paths_run w4 ps
              (foldl (fun rows name => insert_or_ignore_name name rows)
                 (default [] c) default_categories) (default [] pc))
    as (w5 & E5 & S5);
    [by rewrite S4, S3, S2|by rewrite S4|
     rewrite S4, S3, S2; by destruct pc|].
  rewrite E5. unfold print, emit, mret, M_ret. cbn [fst snd].
  split; [done|]. rewrite store_log, S5, S4, S3, S2.
  by destruct t, pt.
Qed.

(** X15. On a legacy store, when the migration is consented to and nothing
    is in the way, [init_database] returns 0; the rows of [paths] are as they
    were; a category named "Uncategorized" exists and every path is a member
    of every category of that name; memberships and tags that existed are
    kept; and the store records schema version 1. *)
Theorem migration_assigns_uncategorized (w : world) (ps : list path_row) :
  openable w ->
  schema_ok w = true ->
  legacy_store w ->
  paths (store w) = Some ps ->
  (read_answer (stdin w)).1 = true ->
  let r := init_database w in
  let d := store r.2 in
  r.1 = 0 /\
  paths d = Some ps /\
  read_int_setting d (str "schema_version") 0 = DEFAULT_SCHEMA_VERSION /\
  tags d = Some (default [] (tags (store w))) /\
  exists cs links,
    categories d = Some cs /\ path_categories d = Some links /\
    (exists c, c ∈ cs /\ n_name c = str "Uncategorized") /\
    (forall p c, p ∈ ps -> c ∈ cs -> n_name c = str "Uncategorized" ->
                 (p_id p, n_id c) ∈ links) /\
    (forall l, l ∈ default [] (path_categories (store w)) -> l ∈ links).
Proof.
  intros Hopen Hs Hlegacy Hps Hyes. cbv zeta.
  destruct (init_database_migrates w ps Hopen Hs Hlegacy Hps Hyes)
    as [Hrc Hstore].
  rewrite Hstore. cbn [paths categories path_categories tags].
  split; [done|]. split; [done|]. split.
  { unfold read_int_setting. cbn [settings]. by vm_compute. }
  split; [done|].
  eexists _, _. split; [done|]. split; [done|]. split; [|split].
  - apply insert_or_ignore_name_has.
  - intros p0 c0 Hp0 Hc0 Hname.
    apply foldl_insert_or_ignore_link. right.
    apply list_elem_of_bind. exists p0. split; [|done].
    apply list_elem_of_bind. exists c0. split; [by left|].
    by apply list_elem_of_filter.
  - intros l Hl. by apply foldl_insert_or_ignore_link; left.
Qed.

Lemma migration_assigns_uncategorized_witness :
  let ps := [PathRow 1 (str "/srv") (str "srv") 1 None None;
             PathRow 2 (str "/srv/a.txt") (str "a.txt") 0 (Some 12)
               (Some (str "/srv"))] in
  let w := World true true true true (fun _ => alloc_ok) true
             (Database (Some ps) None None None None None)
             false ["y"; "010"]%char [] in
  (openable w /\ schema_ok w = true /\ legacy_store w /\
   paths (store w) = Some ps /\ (read_answer (stdin w)).1 = true) /\
  let r := init_database w in
  let d := store r.2 in
  r.1 = 0 /\
  paths d = Some ps /\
  read_int_setting d (str "schema_version") 0 = DEFAULT_SCHEMA_VERSION /\
  tags d = Some (default [] (tags (store w))) /\
  exists cs links,
    categories d = Some cs /\ path_categories d = Some links /\
    (exists c, c ∈ cs /\ n_name c = str "Uncategorized") /\
    (forall p c, p ∈ ps -> c ∈ cs -> n_name c = str "Uncategorized" ->
                 (p_id p, n_id c) ∈ links) /\
    (forall l, l ∈ default [] (path_categories (store w)) -> l ∈ links).
Proof.
  intros ps w.
  assert (openable w) as H1 by (by repeat split).
  assert (legacy_store w) as H2.
  { split; [reflexivity|]. split; [by eexists|reflexivity]. }
  assert ((read_answer (stdin w)).1 = true) as H3 by reflexivity.
  split; [by repeat split|].
  apply (migration_assigns_uncategorized w ps H1 eq_refl H2 eq_refl H3).
Defined.

(** ** The scan for similar tags *)

Lemma to_int_range (z : Z) : -2147483648 <= to_int z <= INT_MAX.
Proof.
  unfold to_int, INT_MAX.
  pose proof (Z.mod_pos_bound (z + 2147483648) 4294967296 ltac:(lia)). lia.
Qed.

Lemma atoi_range (s : cstring) : -2147483648 <= atoi s <= INT_MAX.
Proof. unfold atoi. repeat case_match; apply to_int_range. Qed.

Lemma read_int_setting_range (d : database) (key : cstring) (dflt : Z) :
  -2147483648 <= dflt <= INT_MAX ->
  -2147483648 <= read_int_setting d key dflt <= INT_MAX.
Proof.
  intros Hd. unfold read_int_setting. repeat case_match; try done.
  apply atoi_range.
Qed.

Lemma elem_of_zip_seq {A : Type} (l : list A) (k : nat) (x : A) :
  (k, x) ∈ zip (seq 0 (length l)) l <-> l !! k = Some x.
Proof.
  rewrite elem_of_lookup_zip_with. split.
  - intros (i & k' & x' & [= -> ->] & Hk & Hx).
    apply lookup_seq in Hk as [-> _]. done.
  - intros Hx. exists k, k, x. split; [done|]. split; [|done].
    apply lookup_seq. split; [done|]. by apply lookup_lt_Some in Hx.
Qed.

Section scan.
Variable al : nat -> alloc.
Variable new_tag : cstring.
Variable name_size : nat.
Variable threshold : Z.
Hypothesis Hthreshold : -2147483648 <= threshold < INT_MAX.

Local Abbreviation step := (find_similar_step al new_tag name_size threshold).
Local Abbreviation start := (Similar 0 (int_add threshold 1) [] None false).
Local Abbreviation sub row := (is_substring_match new_tag (snd row)).
Local Abbreviation dist row := (levenshtein (al (fst row)) new_tag (snd row)).

Lemma scan_invariant (rows : list (nat * cstring)) :
  Z.of_nat (length rows) < INT_MAX ->
  let acc := foldl step start rows in
  0 <= found_count acc <= Z.of_nat (length rows) /\
  (found_count acc = 0 ->
   is_substring acc = false /\ best_distance acc = threshold + 1 /\
   forall row, row ∈ rows ->
     sub row = false /\ ~ 0 < dist row <= threshold) /\
  best_distance acc <= threshold + 1 /\
  (forall row, row ∈ rows -> sub row = false -> 0 < dist row ->
     best_distance acc <= dist row) /\
  (0 < found_count acc -> is_substring acc = true ->
   exists row, row ∈ rows /\ sub row = true /\
     similar_name acc = strncpy_buf name_size row.2 /\
     similar_distance acc =
       Some (to_int (Z.abs (int_sub (to_int (strlen new_tag))
                                    (to_int (strlen row.2)))))) /\
  (0 < found_count acc -> is_substring acc = false ->
   exists row, row ∈ rows /\ sub row = false /\
     0 < dist row <= threshold /\
     best_distance acc = dist row /\
     similar_distance acc = Some (dist row) /\
     similar_name acc = strncpy_buf name_size row.2).
Proof.
  induction rows as [|row rows IH] using rev_ind; intros Hlen; cbv zeta.
  { simpl. unfold int_add. rewrite to_int_id by (unfold INT_MAX in *; lia).
    split; [lia|]. split.
    { intros _. split; [done|]. split; [done|].
      intros row Hrow. by apply elem_of_nil in Hrow. }
    split; [lia|]. split.
    { intros row Hrow. by apply elem_of_nil in Hrow. }
    split; intros; lia. }
  rewrite length_app in Hlen. simpl in Hlen.
  rewrite foldl_app, length_app. simpl foldl. simpl length.
  specialize (IH ltac:(lia)). cbv zeta in IH.
  set (acc := foldl step start rows) in *.
  destruct IH as (Hcount & Hzero & Hbest & Hmin & Hsub & Hlev).
  unfold find_similar_step. destruct row as [k existing].
  assert (int_add (found_count acc) 1 = found_count acc + 1) as Hinc.
  { unfold int_add. apply to_int_id. unfold INT_MAX in *. lia. }
  destruct (is_substring_match new_tag existing) eqn:Hmatch.
  - destruct ((found_count acc =? 0) || negb (is_substring acc)) eqn:Hfirst.
    + cbn [found_count best_distance is_substring similar_name
           similar_distance]. rewrite Hinc.
      split; [lia|]. split; [intros; lia|]. split; [done|]. split.
      { intros row [Hrow| ->%list_elem_of_singleton]%elem_of_app Hs Hd.
        - by apply Hmin.
        - simpl in Hs. congruence. }
      split; [|done]. intros _ _. exists (k, existing).
      split; [apply elem_of_app; right; by left|]. done.
    + apply orb_false_iff in Hfirst as [Hne Hissub].
      apply Z.eqb_neq in Hne. apply negb_false_iff in Hissub.
      split; [lia|]. split; [intros; lia|]. split; [done|]. split.
      { intros row [Hrow| ->%list_elem_of_singleton]%elem_of_app Hs Hd.
        - by apply Hmin.
        - simpl in Hs. congruence. }
      split.
      * intros Hpos Hs. destruct (Hsub Hpos Hs) as (row & Hrow & Hrest).
        exists row. split; [apply elem_of_app; by left|done].
      * intros _ Hs. congruence.
  - set (d := levenshtein (al k) new_tag existing).
    destruct ((d >? 0) && (d <=? threshold) && (d <? best_distance acc))
      eqn:Hupd.
    + apply andb_true_iff in Hupd as [[Hd0 Hdt]%andb_true_iff Hdb].
      apply Z.gtb_lt in Hd0. apply Z.leb_le in Hdt. apply Z.ltb_lt in Hdb.
      cbn [found_count best_distance is_substring similar_name
           similar_distance]. rewrite Hinc.
      split; [lia|]. split; [intros; lia|]. split; [lia|]. split.
      { intros row [Hrow| ->%list_elem_of_singleton]%elem_of_app Hs Hd.
        - specialize (Hmin row Hrow Hs Hd). lia.
        - simpl. fold d. lia. }
      split; [done|]. intros _ _. exists (k, existing).
      split; [apply elem_of_app; right; by left|]. simpl. fold d. done.
    + assert (~ (0 < d <= threshold /\ d < best_distance acc)) as Hno.
      { intros [[Hd0 Hdt] Hdb].
        apply Z.gtb_lt in Hd0. apply Z.leb_le in Hdt. apply Z.ltb_lt in Hdb.
        by rewrite Hd0, Hdt, Hdb in Hupd. }
      split; [lia|]. split.
      { intros Hz. destruct (Hzero Hz) as (Hs & Hb & Hnone).
        split; [done|]. split; [done|].
        intros row [Hrow| ->%list_elem_of_singleton]%elem_of_app.
        - by apply Hnone.
        - simpl. fold d. split; [done|]. lia. }
      split; [done|]. split.
      { intros row [Hrow| ->%list_elem_of_singleton]%elem_of_app Hs Hd.
        - by apply Hmin.
        - simpl in *. fold d in Hd |- *. lia. }
      split.
      * intros Hpos Hs. destruct (Hsub Hpos Hs) as (row & Hrow & Hrest).
        exists row. split; [apply elem_of_app; by left|done].
      * intros Hpos Hs. destruct (Hlev Hpos Hs) as (row & Hrow & Hrest).
        exists row. split; [apply elem_of_app; by left|done].
Qed.
End scan.

Lemma similar_tags_scan (w : world) (new_tag : cstring) (size : nat)
    (rows : list name_row) :
  tags (store w) = Some rows ->
  (find_similar_tags new_tag size w).1 =
    foldl (find_similar_step (malloc_outcome w) new_tag size
             (read_int_setting (store w) (str "similarity_threshold")
                DEFAULT_SIMILARITY_THRESHOLD))
      (Similar 0
         (int_add (read_int_setting (store w) (str "similarity_threshold")
                     DEFAULT_SIMILARITY_THRESHOLD) 1) [] None false)
      (zip (seq 0 (length (n_name <$> rows))) (n_name <$> rows)).
Proof.
  intros Htags. rewrite find_similar_tags_run. cbn [fst].
  unfold similar_tags. by rewrite Htags.
Qed.

(** X16. [find_similar_tags] reports a similar tag exactly when some
    existing tag is a substring match of the new name or lies at an edit
    distance between 1 and the similarity threshold; a tag equal to the new
    name up to case, at distance 0, counts only as the substring match it
    is. *)
Theorem similar_found_iff (new_tag : cstring) (w : world)
    (rows : list name_row) :
  tags (store w) = Some rows ->
  read_int_setting (store w) (str "similarity_threshold")
    DEFAULT_SIMILARITY_THRESHOLD < INT_MAX ->
  Z.of_nat (length rows) < INT_MAX ->
  let threshold :=
    read_int_setting (store w) (str "similarity_threshold")
      DEFAULT_SIMILARITY_THRESHOLD in
  let found := (find_similar_tags new_tag MAX_TAG_LENGTH w).1 in
  0 < found_count found <->
  exists k r, rows !! k = Some r /\
    (is_substring_match new_tag (n_name r) = true \/
     0 < levenshtein (malloc_outcome w k) new_tag (n_name r) <= threshold).
Proof.
  intros Htags Hthr Hlen. cbv zeta.
  rewrite (similar_tags_scan w new_tag MAX_TAG_LENGTH rows Htags).
  set (threshold := read_int_setting _ _ _) in *.
  assert (-2147483648 <= threshold < INT_MAX) as Hrange.
  { pose proof (read_int_setting_range (store w)
                  (str "similarity_threshold") DEFAULT_SIMILARITY_THRESHOLD
                  ltac:(unfold DEFAULT_SIMILARITY_THRESHOLD, INT_MAX; lia)).
    fold threshold in H. lia. }
  set (names := n_name <$> rows).
  destruct (scan_invariant (malloc_outcome w) new_tag MAX_TAG_LENGTH threshold
              Hrange (zip (seq 0 (length names)) names))
    as (Hcount & Hzero & _ & _ & Hsub & Hlev).
  { rewrite length_zip_with, length_seq. unfold names.
    rewrite length_fmap. lia. }
  set (acc := foldl _ _ _) in *. split.
  - intros Hpos. destruct (is_substring acc) eqn:Hs.
    + destruct (Hsub Hpos eq_refl) as ([k e] & Hin & Hm & _).
      apply elem_of_zip_seq in Hin. unfold names in Hin.
      rewrite list_lookup_fmap in Hin.
      destruct (rows !! k) as [r|] eqn:Hr; [|done].
      injection Hin as <-. exists k, r. split; [done|]. by left.
    + destruct (Hlev Hpos eq_refl) as ([k e] & Hin & _ & Hd & _).
      apply elem_of_zip_seq in Hin. unfold names in Hin.
      rewrite list_lookup_fmap in Hin.
      destruct (rows !! k) as [r|] eqn:Hr; [|done].
      injection Hin as <-. exists k, r. split; [done|]. by right.
  - intros (k & r & Hr & Hq).
    destruct (decide (found_count acc = 0)) as [Hz|Hnz]; [|lia].
    destruct (Hzero Hz) as (_ & _ & Hnone).
    destruct (Hnone (k, n_name r)) as [Hs Hd].
    { apply elem_of_zip_seq. unfold names.
      by rewrite list_lookup_fmap, Hr. }
    simpl in *. destruct Hq as [Hq|Hq]; [congruence|done].
Qed.

Lemma similar_found_iff_witness :
  let rows := [NameRow 1 (str "Work"); NameRow 2 (str "Urgent")] in
  let w := World true true true true (fun _ => alloc_ok) true
             (Database (Some []) (Some []) (Some []) (Some rows) (Some [])
                (Some [(str "similarity_threshold", str "2")]))
             true [] [] in
  let threshold :=
    read_int_setting (store w) (str "similarity_threshold")
      DEFAULT_SIMILARITY_THRESHOLD in
  (tags (store w) = Some rows /\ threshold < INT_MAX /\
   Z.of_nat (length rows) < INT_MAX) /\
  let found := (find_similar_tags (str "Urgant") MAX_TAG_LENGTH w).1 in
  0 < found_count found <->
  exists k r, rows !! k = Some r /\
    (is_substring_match (str "Urgant") (n_name r) = true \/
     0 < levenshtein (malloc_outcome w k) (str "Urgant") (n_name r)
       <= threshold).
Proof.
  intros rows w threshold.
  assert (threshold < INT_MAX) as H1 by (by vm_compute).
  assert (Z.of_nat (length rows) < INT_MAX) as H2 by (by vm_compute).
  split; [by repeat split|].
  apply (similar_found_iff (str "Urgant") w rows eq_refl H1 H2).
Defined.

(** X17. What [find_similar_tags] reports, when it reports.  A report marked
    as substring match names an existing tag that is a substring match of
    the new name, with the difference of the two lengths as its distance.  A
    report not so marked names an existing tag that is no substring match,
    with its edit distance, which lies between 1 and the threshold and is
    the least positive edit distance among the tags that are no substring
    match.  In both cases the name is cut to the caller's buffer. *)
Theorem similar_report_sound (new_tag : cstring) (w : world)
    (rows : list name_row) :
  tags (store w) = Some rows ->
  read_int_setting (store w) (str "similarity_threshold")
    DEFAULT_SIMILARITY_THRESHOLD < INT_MAX ->
  Z.of_nat (length rows) < INT_MAX ->
  fits_int new_tag ->
  Forall (fun r => fits_int (n_name r)) rows ->
  let threshold :=
    read_int_setting (store w) (str "similarity_threshold")
      DEFAULT_SIMILARITY_THRESHOLD in
  let found := (find_similar_tags new_tag MAX_TAG_LENGTH w).1 in
  0 < found_count found ->
  (is_substring found = true ->
   exists r, r ∈ rows /\
     is_substring_match new_tag (n_name r) = true /\
     similar_name found = strncpy_buf MAX_TAG_LENGTH (n_name r) /\
     similar_distance found =
       Some (Z.abs (strlen new_tag - strlen (n_name r)))) /\
  (is_substring found = false ->
   exists k r, rows !! k = Some r /\
     is_substring_match new_tag (n_name r) = false /\
     similar_name found = strncpy_buf MAX_TAG_LENGTH (n_name r) /\
     similar_distance found =
       Some (levenshtein (malloc_outcome w k) new_tag (n_name r)) /\
     0 < levenshtein (malloc_outcome w k) new_tag (n_name r) <= threshold /\
     forall k' r', rows !! k' = Some r' ->
       is_substring_match new_tag (n_name r') = false ->
       0 < levenshtein (malloc_outcome w k') new_tag (n_name r') ->
       levenshtein (malloc_outcome w k) new_tag (n_name r) <=
         levenshtein (malloc_outcome w k') new_tag (n_name r')).
Proof.
  intros Htags Hthr Hlen Hnew Hfit. cbv zeta.
  rewrite (similar_tags_scan w new_tag MAX_TAG_LENGTH rows Htags).
  set (threshold := read_int_setting _ _ _) in *.
  assert (-2147483648 <= threshold < INT_MAX) as Hrange.
  { pose proof (read_int_setting_range (store w)
                  (str "similarity_threshold") DEFAULT_SIMILARITY_THRESHOLD
                  ltac:(unfold DEFAULT_SIMILARITY_THRESHOLD, INT_MAX; lia)).
    fold threshold in H. lia. }
  set (names := n_name <$> rows).
  destruct (scan_invariant (malloc_outcome w) new_tag MAX_TAG_LENGTH threshold
              Hrange (zip (seq 0 (length names)) names))
    as (_ & _ & _ & Hmin & Hsub & Hlev).
  { rewrite length_zip_with, length_seq. unfold names.
    rewrite length_fmap. lia. }
  set (acc := foldl _ _ _) in *.
  assert (forall k e, (k, e) ∈ zip (seq 0 (length names)) names <->
            exists r, rows !! k = Some r /\ e = n_name r) as Hrow.
  { intros k e. rewrite elem_of_zip_seq. unfold names.
    rewrite list_lookup_fmap. destruct (rows !! k) as [r|]; simpl.
    - split; [intros [= <-]; by exists r|by intros (? & [= <-] & ->)].
    - split; [done|by intros (? & ? & _)]. }
  intros Hpos. split.
  - intros Hs. destruct (Hsub Hpos Hs) as ([k e] & Hin & Hm & Hname & Hdist).
    apply Hrow in Hin as (r & Hr & ->). simpl in *.
    exists r. split; [by apply list_elem_of_lookup_2 in Hr|].
    split; [done|]. split; [done|]. rewrite Hdist. f_equal.
    rewrite Forall_forall in Hfit.
    assert (fits_int (n_name r)) as Hfr
      by (apply Hfit; by apply list_elem_of_lookup_2 in Hr).
    rewrite !strlen_to_int by done. unfold int_sub.
    unfold fits_int, strlen, INT_MAX in *.
    rewrite (to_int_id (_ - _)) by (unfold INT_MAX; lia).
    apply to_int_id. unfold INT_MAX. lia.
  - intros Hs.
    destruct (Hlev Hpos Hs) as ([k e] & Hin & Hm & Hd & Hb & Hdist & Hname).
    apply Hrow in Hin as (r & Hr & ->). simpl in *.
    exists k, r. split; [done|]. split; [done|]. split; [done|].
    split; [done|]. split; [done|].
    intros k' r' Hr' Hm' Hd'. rewrite <- Hb.
    apply (Hmin (k', n_name r')); [|done|done].
    apply Hrow. by exists r'.
Qed.

Lemma similar_report_sound_witness :
  let rows := [NameRow 1 (str "Work"); NameRow 2 (str "Urgent")] in
  let w := World true true true true (fun _ => alloc_ok) true
             (Database (Some []) (Some []) (Some []) (Some rows) (Some [])
                (Some [(str "similarity_threshold", str "2")]))
             true [] [] in
  let new_tag := str "Urgant" in
  let threshold :=
    read_int_setting (store w) (str "similarity_threshold")
      DEFAULT_SIMILARITY_THRESHOLD in
  let found := (find_similar_tags new_tag MAX_TAG_LENGTH w).1 in
  (tags (store w) = Some rows /\ threshold < INT_MAX /\
   Z.of_nat (length rows) < INT_MAX /\ fits_int new_tag /\
   Forall (fun r => fits_int (n_name r)) rows /\ 0 < found_count found) /\
  (is_substring found = true ->
   exists r, r ∈ rows /\
     is_substring_match new_tag (n_name r) = true /\
     similar_name found = strncpy_buf MAX_TAG_LENGTH (n_name r) /\
     similar_distance found =
       Some (Z.abs (strlen new_tag - strlen (n_name r)))) /\
  (is_substring found = false ->
   exists k r, rows !! k = Some r /\
     is_substring_match new_tag (n_name r) = false /\
     similar_name found = strncpy_buf MAX_TAG_LENGTH (n_name r) /\
     similar_distance found =
       Some (levenshtein (malloc_outcome w k) new_tag (n_name r)) /\
     0 < levenshtein (malloc_outcome w k) new_tag (n_name r) <= threshold /\
     forall k' r', rows !! k' = Some r' ->
       is_substring_match new_tag (n_name r') = false ->
       0 < levenshtein (malloc_outcome w k') new_tag (n_name r') ->
       levenshtein (malloc_outcome w k) new_tag (n_name r) <=
         levenshtein (malloc_outcome w k') new_tag (n_name r')).
Proof.
  intros rows w new_tag threshold found.
  assert (threshold < INT_MAX) as H1 by (by vm_compute).
  assert (Z.of_nat (length rows) < INT_MAX) as H2 by (by vm_compute).
  assert (fits_int new_tag) as H3 by (by vm_compute).
  assert (Forall (fun r => fits_int (n_name r)) rows) as H4
    by (repeat constructor; by vm_compute).
  assert (0 < found_count found) as H5 by (by vm_compute).
  split; [by repeat split|].
  apply (similar_report_sound new_tag w rows eq_refl H1 H2 H3 H4 H5).
Defined.

(** *** Paths in the store *)

Lemma get_path_id_run (path : cstring) (w : world) :
  get_path_id path w = (path_id_of (store w) path, w).
Proof.
  unfold get_path_id, path_id_of, mbind, M_bind, get_world. simpl.
  destruct (paths (store w)) as [rows|]; [|done].
  by destruct (select_path_id path rows).
Qed.

Lemma get_category_id_run (name : cstring) (w : world) :
  get_category_id name w =
    (lookup_id (categories (store w)) name,
     log (EvSql (SelectCategoryId name)) w).
Proof. reflexivity. Qed.

Lemma store_set_store (d : database) (w : world) : store (set_store d w) = d.
Proof. reflexivity. Qed.

Lemma select_path_id_Some (path : cstring) (rows : list path_row) (id : Z) :
  select_path_id path rows = Some id ->
  exists p, p ∈ rows /\ p_path p = path /\ p_id p = id.
Proof.
  induction rows as [|p rows IH]; simpl; [done|].
  destruct (decide (p_path p = path)) as [Hp|Hp].
  - intros [= <-]. exists p. split; [by left|done].
  - intros (q & Hq & Hqp)%IH. exists q. split; [by right|done].
Qed.

Lemma select_path_id_None (path : cstring) (rows : list path_row) :
  select_path_id path rows = None <-> path ∉ p_path <$> rows.
Proof.
  induction rows as [|p rows IH]; simpl.
  - split; [intros _; apply not_elem_of_nil|done].
  - rewrite not_elem_of_cons.
    destruct (decide (p_path p = path)) as [Hp|Hp].
    + split; [discriminate|]. by intros [[] _].
    + rewrite IH. split; [by intros ?|by intros [_ ?]].
Qed.

Lemma select_path_id_app (path : cstring) (rows more : list path_row) :
  select_path_id path (rows ++ more) =
    match select_path_id path rows with
    | Some id => Some id
    | None => select_path_id path more
    end.
Proof.
  induction rows as [|p rows IH]; simpl; [done|].
  by destruct (decide (p_path p = path)).
Qed.

Lemma select_path_id_filter (path : cstring) (P : path_row -> Prop)
    `{!forall p, Decision (P p)} (rows : list path_row) :
  (forall p, p ∈ rows -> p_path p = path -> P p) ->
  select_path_id path (filter P rows) = select_path_id path rows.
Proof.
  induction rows as [|p rows IH]; intros HP; [done|].
  rewrite filter_cons. simpl.
  destruct (decide (p_path p = path)) as [Hp|Hp].
  - rewrite decide_True by (apply HP; [by left|done]). simpl.
    by rewrite decide_True.
  - assert (select_path_id path (filter P rows) = select_path_id path rows)
      as Hrest by (apply IH; intros q Hq; apply HP; by right).
    destruct (decide (P p)); simpl; [by rewrite decide_False|done].
Qed.

Lemma foldl_max_ge (ids : list Z) (i : Z) :
  i <= foldl Z.max i ids /\ Forall (fun j => j <= foldl Z.max i ids) ids.
Proof.
  revert i. induction ids as [|j ids IH]; intros i; simpl.
  - split; [lia|constructor].
  - destruct (IH (Z.max i j)) as [H1 H2]. split; [lia|].
    constructor; [lia|done].
Qed.

Lemma foldl_max_bound (ids : list Z) (i b : Z) :
  i <= b -> Forall (fun j => j <= b) ids -> foldl Z.max i ids <= b.
Proof.
  revert i. induction ids as [|j ids IH]; intros i Hi Hids; simpl; [done|].
  apply Forall_cons in Hids as [Hj Hids]. apply IH; [lia|done].
Qed.

Lemma new_rowid_fresh (ids : list Z) : Forall (fun j => j < new_rowid ids) ids.
Proof.
  destruct ids as [|i ids]; [constructor|]. unfold new_rowid.
  destruct (foldl_max_ge ids i) as [H1 H2].
  constructor; [lia|]. eapply Forall_impl; [exact H2|]. simpl. lia.
Qed.

Lemma new_rowid_range (ids : list Z) (b : Z) :
  0 <= b -> Forall (fun j => 1 <= j <= b) ids -> 1 <= new_rowid ids <= b + 1.
Proof.
  intros Hb Hids. destruct ids as [|i ids]; simpl; [lia|].
  apply Forall_cons in Hids as [Hi Hids].
  destruct (foldl_max_ge ids i) as [H1 _].
  pose proof (foldl_max_bound ids i b ltac:(lia)
                ltac:(eapply Forall_impl; [exact Hids|simpl; lia])).
  lia.
Qed.

Lemma column_int_id (v : Z) : 1 <= v <= INT_MAX -> column_int v = v.
Proof. intros Hv. apply to_int_id. unfold INT_MAX in *. lia. Qed.

Lemma path_id_of_found (d : database) (rows : list path_row) (path : cstring) :
  paths d = Some rows ->
  path_ids_ok rows ->
  path ∈ p_path <$> rows ->
  exists p, p ∈ rows /\ p_path p = path /\
    select_path_id path rows = Some (p_id p) /\
    path_id_of d path = p_id p /\ 1 <= p_id p <= INT_MAX.
Proof.
  intros Hd Hok Hin. unfold path_id_of. rewrite Hd.
  destruct (select_path_id path rows) as [id|] eqn:Hsel.
  - apply select_path_id_Some in Hsel as Hp. destruct Hp as (p & Hp & Hpp & <-).
    unfold path_ids_ok in Hok. rewrite Forall_forall in Hok.
    exists p. repeat split; try done; try apply (Hok p Hp).
    apply column_int_id, (Hok p Hp).
  - by apply select_path_id_None in Hsel.
Qed.

Lemma path_id_of_missing (d : database) (path : cstring) :
  (forall rows, paths d = Some rows -> path ∉ p_path <$> rows) ->
  path_id_of d path = -1.
Proof.
  intros Hmiss. unfold path_id_of. destruct (paths d) as [rows|]; [|done].
  specialize (Hmiss rows eq_refl). apply select_path_id_None in Hmiss.
  by rewrite Hmiss.
Qed.

Lemma add_path_to_db_run (path name : cstring) (is_directory size : Z)
    (parent_path : option cstring) (w : world) (rows : list path_row) :
  paths (store w) = Some rows ->
  add_path_to_db path name is_directory size parent_path w =
    ((0, []),
     set_store
       (set_paths (store w)
          (Some (insert_or_ignore_path path name is_directory
                   (if size >=? 0 then Some size else None) parent_path
                   rows))) w).
Proof.
  intros Hrows. unfold add_path_to_db, mbind, M_bind, get_world. simpl.
  by rewrite Hrows.
Qed.



Lemma remove_path_from_db_run (foreign_keys : bool) (path : cstring)
    (w : world) :
  remove_path_from_db foreign_keys path w =
    if path_id_of (store w) path <? 0 then ((-1, [PathNotFound path]), w)
    else
      match paths (store w) with
      | None => ((-1, []), w)
      | Some _ =>
          ((0, [Removed path]),
           set_store
             (delete_path foreign_keys (path_id_of (store w) path) (store w))
             w)
      end.
Proof.
  unfold remove_path_from_db. rewrite bind_run, get_path_id_run.
  cbn [fst snd]. destruct (path_id_of (store w) path <? 0); [done|].
  unfold mbind, M_bind, get_world. simpl.
  by destruct (paths (store w)).
Qed.



(** *** Categories and tags of a path *)

Lemma select_id_nocase_Some (name : cstring) (rows : list name_row) (id : Z) :
  select_id_nocase name rows = Some id ->
  exists r, r ∈ rows /\ n_id r = id /\
            str_to_lower (n_name r) = str_to_lower name.
Proof.
  induction rows as [|r rows IH]; simpl; [done|].
  destruct (nocase_eqb (n_name r) name) eqn:Hr.
  - intros [= <-]. exists r. split; [by left|].
    split; [done|]. by apply nocase_eqb_true.
  - intros (q & Hq & Hqr)%IH. exists q. split; [by right|done].
Qed.

Lemma lookup_id_found (rows : list name_row) (name : cstring) :
  rowids_ok rows ->
  0 <= lookup_id (Some rows) name ->
  exists c, c ∈ rows /\ lookup_id (Some rows) name = n_id c /\
            str_to_lower (n_name c) = str_to_lower name /\
            1 <= n_id c <= INT_MAX.
Proof.
  intros Hok. unfold lookup_id.
  destruct (select_id_nocase name rows) as [id|] eqn:Hsel; [|lia].
  intros _. apply select_id_nocase_Some in Hsel as (c & Hc & <- & Hname).
  unfold rowids_ok in Hok. rewrite Forall_forall in Hok.
  exists c. split; [done|]. split; [by apply column_int_id, Hok|].
  split; [done|]. by apply Hok.
Qed.

Lemma path_id_of_nonneg (d : database) (rows : list path_row) (path : cstring) :
  paths d = Some rows ->
  path_ids_ok rows ->
  0 <= path_id_of d path ->
  exists p, p ∈ rows /\ p_path p = path /\ path_id_of d path = p_id p /\
            1 <= p_id p <= INT_MAX.
Proof.
  intros Hd Hok Hid.
  destruct (decide (path ∈ p_path <$> rows)) as [Hin|Hout].
  - destruct (path_id_of_found d rows path Hd Hok Hin)
      as (p & Hp & Hpp & _ & Heq & Hr). by exists p.
  - rewrite path_id_of_missing in Hid; [lia|].
    intros rows' Hd'. rewrite Hd in Hd'. by injection Hd' as <-.
Qed.

Lemma link_accepted (foreign_keys : bool) (rows : list path_row)
    (names : list name_row) (p : path_row) (c : name_row) :
  p ∈ rows -> c ∈ names ->
  link_rejected foreign_keys (Some rows) (Some names) (p_id p, n_id c) = false.
Proof.
  intros Hp Hc. unfold link_rejected. simpl.
  rewrite !bool_decide_true by (by apply list_elem_of_fmap_2).
  by destruct foreign_keys.
Qed.

Lemma categorize_path_run (foreign_keys : bool) (path category_name : cstring)
    (w : world) :
  categorize_path foreign_keys path category_name w =
    let path_id := path_id_of (store w) path in
    let category_id := lookup_id (categories (store w)) category_name in
    let w1 := log (EvSql (SelectCategoryId category_name)) w in
    if path_id <? 0 then ((-1, [PathNotFound path]), w)
    else if category_id <? 0 then
      ((-1, [CategoryNotFound category_name;
             CreateCategoryFirst category_name]), w1)
    else
      match path_categories (store w) with
      | None => ((-1, []), w1)
      | Some links =>
          if bool_decide ((path_id, category_id) ∈ links) then
            ((0, [Categorized path category_name]), w1)
          else if link_rejected foreign_keys (paths (store w))
                    (categories (store w)) (path_id, category_id)
          then ((-1, []), w1)
          else
            ((0, [Categorized path category_name]),
             set_store
               (set_path_categories (store w)
                  (Some (links ++ [(path_id, category_id)]))) w1)
      end.
Proof.
  cbv zeta. unfold categorize_path. rewrite bind_run, get_path_id_run.
  cbn [fst snd]. destruct (path_id_of (store w) path <? 0); [done|].
  rewrite bind_run, get_category_id_run. cbn [fst snd].
  destruct (lookup_id (categories (store w)) category_name <? 0); [done|].
  rewrite bind_run. change (get_world ?x) with (x, x). cbn [fst snd].
  rewrite store_log.
  destruct (path_categories (store w)) as [links|]; [|done].
  case_bool_decide; [done|].
  by destruct (link_rejected _ _ _ _).
Qed.

Lemma uncategorize_path_run (path category_name : cstring) (w : world) :
  uncategorize_path path category_name w =
    let path_id := path_id_of (store w) path in
    let category_id := lookup_id (categories (store w)) category_name in
    let w1 := log (EvSql (SelectCategoryId category_name)) w in
    if path_id <? 0 then ((-1, [PathNotFound path]), w)
    else if category_id <? 0 then
      ((-1, [CategoryNotFound category_name]), w1)
    else
      match path_categories (store w) with
      | None => ((-1, []), w1)
      | Some links =>
          ((0, [Uncategorized path category_name]),
           set_store
             (set_path_categories (store w)
                (Some (filter (fun l => l <> (path_id, category_id)) links)))
             w1)
      end.
Proof.
  cbv zeta. unfold uncategorize_path. rewrite bind_run, get_path_id_run.
  cbn [fst snd]. destruct (path_id_of (store w) path <? 0); [done|].
  rewrite bind_run, get_category_id_run. cbn [fst snd].
  destruct (lookup_id (categories (store w)) category_name <? 0); [done|].
  rewrite bind_run. change (get_world ?x) with (x, x). cbn [fst snd].
  rewrite store_log.
  by destruct (path_categories (store w)) as [links|].
Qed.

Lemma untag_path_run (path tag_name : cstring) (w : world) :
  untag_path path tag_name w =
    let path_id := path_id_of (store w) path in
    let tag_id := lookup_id (tags (store w)) tag_name in
    let w1 := log (EvSql (SelectTagId tag_name)) w in
    if path_id <? 0 then ((-1, [PathNotFound path]), w)
    else if tag_id <? 0 then ((-1, [TagNotFound tag_name]), w1)
    else
      match path_tags (store w) with
      | None => ((-1, []), w1)
      | Some links =>
          ((0, [Untagged path tag_name]),
           set_store
             (set_path_tags (store w)
                (Some (filter (fun l => l <> (path_id, tag_id)) links)))
             w1)
      end.
Proof.
  cbv zeta. unfold untag_path. rewrite bind_run, get_path_id_run.
  cbn [fst snd]. destruct (path_id_of (store w) path <? 0); [done|].
  rewrite bind_run, get_tag_id_run. cbn [fst snd].
  destruct (lookup_id (tags (store w)) tag_name <? 0); [done|].
  rewrite bind_run. change (get_world ?x) with (x, x). cbn [fst snd].
  rewrite store_log.
  by destruct (path_tags (store w)) as [links|].
Qed.

Lemma sql_limit_or_full {A : Type} (n : Z) (l : list A) (x : A) :
  x ∈ l -> x ∈ sql_limit n l \/ Z.of_nat (length (sql_limit n l)) = n.
Proof.
  intros Hx. unfold sql_limit. destruct (Z.ltb_spec n 0) as [|Hn]; [by left|].
  destruct (decide (length l <= Z.to_nat n)%nat) as [Hle|Hgt].
  - left. by rewrite take_ge.
  - right. rewrite length_take. lia.
Qed.

Lemma found_or_full (d : database) (ps : list path_row) (p : path_row)
    (category tag name : option cstring) (m : Z) :
  paths d = Some ps ->
  p ∈ ps ->
  meets name_like d category tag name p ->
  project p ∈ run_query d (build_query category tag name m) \/
  Z.of_nat (length (run_query d (build_query category tag name m))) = m.
Proof.
  intros Hps Hp Hmeets. unfold run_query.
  change (limit (build_query category tag name m)) with m.
  apply sql_limit_or_full. apply (run_unlimited_elem d _ ps _ Hps).
  apply (build_query_meets d category tag name m p) in Hmeets
    as (c & g & Hc & Hg & Hterms).
  by exists p, c, g.
Qed.

(** X20. After [categorize_path] has returned 0, the path is in the
    category, and a structured search for that category lists it unless the
    listing is full.  The lookups go through [int]: ids are taken to be in
    its range. *)
Theorem categorize_then_find (foreign_keys : bool)
    (path category_name : cstring) (w : world) (rows : list path_row)
    (cs : list name_row) :
  paths (store w) = Some rows ->
  path_ids_ok rows ->
  categories (store w) = Some cs ->
  rowids_ok cs ->
  let r := categorize_path foreign_keys path category_name w in
  r.1.1 = 0 ->
  exists p, p ∈ rows /\ p_path p = path /\
    in_category (store r.2) p category_name /\
    let found := (structured_search (Some category_name) None None r.2).1 in
    project p ∈ found \/
    Z.of_nat (length found) =
      read_int_setting (store r.2) (str "max_results") DEFAULT_MAX_RESULTS.
Proof.
  intros Hrows Hok Hcs Hcok. cbv zeta. rewrite categorize_path_run. cbv zeta.
  destruct (Z.ltb_spec (path_id_of (store w) path) 0) as [|Hpid];
    [by intros [=]|].
  rewrite Hcs.
  destruct (Z.ltb_spec (lookup_id (Some cs) category_name) 0) as [|Hcid];
    [by intros [=]|].
  destruct (path_id_of_nonneg (store w) rows path Hrows Hok Hpid)
    as (p & Hp & Hpp & -> & Hprange).
  destruct (lookup_id_found cs category_name Hcok Hcid)
    as (c & Hc & -> & Hname & Hcrange).
  destruct (path_categories (store w)) as [links|] eqn:Hlinks;
    [|by intros [=]].
  assert (forall w' : world,
    paths (store w') = Some rows -> categories (store w') = Some cs ->
    (exists links', path_categories (store w') = Some links' /\
                    (p_id p, n_id c) ∈ links') ->
    exists p0, p0 ∈ rows /\ p_path p0 = path /\
      in_category (store w') p0 category_name /\
      (project p0 ∈ (structured_search (Some category_name) None None w').1 \/
       Z.of_nat
         (length (structured_search (Some category_name) None None w').1) =
       read_int_setting (store w') (str "max_results") DEFAULT_MAX_RESULTS))
    as Hgoal.
  { intros w' Hrows' Hcs' (links' & Hlinks' & Hin).
    assert (in_category (store w') p category_name) as Hcat
      by (by exists cs, links', c).
    exists p. split; [done|]. split; [done|]. split; [done|].
    rewrite structured_search_run. apply (found_or_full _ rows); [done..|].
    split; [|split]; [|done..].
    intros c0. unfold supplied. destruct (0 <? strlen category_name); [|done].
    by intros [= <-]. }
  case_bool_decide as Hin.
  - intros _. apply Hgoal; rewrite ?store_log; [done..|]. by exists links.
  - rewrite Hrows, link_accepted by done. intros _.
    apply Hgoal; rewrite ?store_set_store; [by destruct (store w)..|].
    exists (links ++ [(p_id p, n_id c)]). split; [done|].
    apply elem_of_app. right. by left.
Qed.

Lemma categorize_then_find_witness :
  let rows := [PathRow 1 (str "/srv") (str "srv") 1 None None;
               PathRow 2 (str "/srv/a.txt") (str "a.txt") 0 (Some 12)
                 (Some (str "/srv"))] in
  let cs := [NameRow 1 (str "Music"); NameRow 2 (str "Photos")] in
  let w := World true true true true (fun _ => alloc_ok) true
             (Database (Some rows) (Some cs) (Some [(1, 1)]) (Some [])
                (Some []) (Some [])) true [] [] in
  let path := str "/srv/a.txt" in
  let r := categorize_path true path (str "photos") w in
  (paths (store w) = Some rows /\ path_ids_ok rows /\
   categories (store w) = Some cs /\ rowids_ok cs /\ r.1.1 = 0) /\
  exists p, p ∈ rows /\ p_path p = path /\
    in_category (store r.2) p (str "photos") /\
    let found := (structured_search (Some (str "photos")) None None r.2).1 in
    project p ∈ found \/
    Z.of_nat (length found) =
      read_int_setting (store r.2) (str "max_results") DEFAULT_MAX_RESULTS.
Proof.
  intros rows cs w path r.
  assert (path_ids_ok rows) as H1 by (repeat constructor; by vm_compute).
  assert (rowids_ok cs) as H2 by (repeat constructor; by vm_compute).
  assert (r.1.1 = 0) as H3 by (by vm_compute).
  split; [done|].
  apply (categorize_then_find true path (str "photos") w rows cs
           eq_refl H1 eq_refl H2 H3).
Defined.

Lemma filter_all {A : Type} (P : A -> Prop) `{!forall x, Decision (P x)}
    (l : list A) :
  Forall P l -> filter P l = l.
Proof.
  induction 1 as [|x l Hx Hl IH]; [done|].
  by rewrite filter_cons_True, IH.
Qed.

Lemma filter_ne_id {A : Type} `{!EqDecision A} (x : A) (l : list A) :
  x ∉ l -> filter (fun y => y <> x) l = l.
Proof.
  intros Hx. apply filter_all, Forall_forall. intros y Hy ->. by apply Hx.
Qed.

Lemma set_path_categories_id (d : database) :
  set_path_categories d (path_categories d) = d.
Proof. by destruct d. Qed.

(** X21. [categorize_path] followed by [uncategorize_path] of the same path
    and category leaves the store as it was, when the path was not in the
    category before; in any case the second call returns 0 and all that has
    changed in the store is that the link is gone. *)
Theorem categorize_uncategorize (foreign_keys : bool)
    (path category_name : cstring) (w : world) :
  let link := ((get_path_id path w).1, (get_category_id category_name w).1) in
  let r1 := categorize_path foreign_keys path category_name w in
  let r2 := uncategorize_path path category_name r1.2 in
  r1.1.1 = 0 ->
  r2.1 = (0, [Uncategorized path category_name]) /\
  store r2.2 =
    set_path_categories (store w)
      (filter (fun l => l <> link) <$> path_categories (store w)) /\
  (link ∉ default [] (path_categories (store w)) -> store r2.2 = store w).
Proof.
  cbv zeta. rewrite get_path_id_run, get_category_id_run. cbn [fst snd].
  rewrite categorize_path_run. cbv zeta.
  pose proof (set_path_categories_id (store w)) as Hid.
  set (pid := path_id_of (store w) path) in *.
  set (cid := lookup_id (categories (store w)) category_name) in *.
  destruct (pid <? 0) eqn:Hpid; [by intros [=]|].
  destruct (cid <? 0) eqn:Hcid; [by intros [=]|].
  destruct (path_categories (store w)) as [links|] eqn:Hlinks;
    [|by intros [=]].
  case_bool_decide as Hin.
  - intros _. cbn [fst snd]. rewrite uncategorize_path_run. cbv zeta.
    rewrite !store_log. fold pid cid. rewrite Hpid, Hcid, Hlinks. cbn [fst snd].
    rewrite store_set_store. split; [done|]. split; [done|].
    intros Hout. by destruct Hout.
  - destruct (link_rejected _ _ _ _); [by intros [=]|]. intros _.
    cbn [fst snd]. rewrite uncategorize_path_run. cbv zeta.
    rewrite !store_set_store.
    change (path_id_of (set_path_categories (store w) _) path) with pid.
    change (categories (set_path_categories (store w) _))
      with (categories (store w)).
    fold cid. rewrite Hpid, Hcid.
    cbn [path_categories set_path_categories fst snd].
    rewrite store_set_store, filter_app, filter_cons_False by (by intros []).
    rewrite filter_nil, app_nil_r. split; [done|]. split; [done|].
    intros Hout. simpl in Hout. rewrite filter_ne_id by done.
    exact Hid.
Qed.

Lemma categorize_uncategorize_witness :
  let rows := [PathRow 1 (str "/srv") (str "srv") 1 None None] in
  let cs := [NameRow 1 (str "Music"); NameRow 2 (str "Photos")] in
  let w := World true true true true (fun _ => alloc_ok) true
             (Database (Some rows) (Some cs) (Some [(1, 1)]) (Some [])
                (Some []) (Some [])) true [] [] in
  let path := str "/srv" in
  let category_name := str "photos" in
  let link := ((get_path_id path w).1, (get_category_id category_name w).1) in
  let r1 := categorize_path true path category_name w in
  let r2 := uncategorize_path path category_name r1.2 in
  r1.1.1 = 0 /\
  r2.1 = (0, [Uncategorized path category_name]) /\
  store r2.2 =
    set_path_categories (store w)
      (filter (fun l => l <> link) <$> path_categories (store w)) /\
  (link ∉ default [] (path_categories (store w)) -> store r2.2 = store w).
Proof.
  intros rows cs w path category_name.
  assert ((categorize_path true path category_name w).1.1 = 0) as H
    by (by vm_compute).
  split; [done|].
  apply (categorize_uncategorize true path category_name w H).
Defined.

(** X22. A command that fails leaves the store as it was: whenever
    [remove_path_from_db], [categorize_path], [uncategorize_path] or
    [untag_path] returns something other than 0, no table has changed. *)
Theorem failed_command_keeps_store (foreign_keys : bool) (path name : cstring)
    (w : world) :
  ((remove_path_from_db foreign_keys path w).1.1 <> 0 ->
   store (remove_path_from_db foreign_keys path w).2 = store w) /\
  ((categorize_path foreign_keys path name w).1.1 <> 0 ->
   store (categorize_path foreign_keys path name w).2 = store w) /\
  ((uncategorize_path path name w).1.1 <> 0 ->
   store (uncategorize_path path name w).2 = store w) /\
  ((untag_path path name w).1.1 <> 0 ->
   store (untag_path path name w).2 = store w).
Proof.
  split; [|split; [|split]].
  - rewrite remove_path_from_db_run.
    destruct (_ <? 0); [done|]. by destruct (paths (store w)).
  - rewrite categorize_path_run. cbv zeta.
    destruct (_ <? 0); [done|]. destruct (_ <? 0); [done|].
    destruct (path_categories (store w)); [|done].
    case_bool_decide; [done|]. by destruct (link_rejected _ _ _ _).
  - rewrite uncategorize_path_run. cbv zeta.
    destruct (_ <? 0); [done|]. destruct (_ <? 0); [done|].
    by destruct (path_categories (store w)).
  - rewrite untag_path_run. cbv zeta.
    destruct (_ <? 0); [done|]. destruct (_ <? 0); [done|].
    by destruct (path_tags (store w)).
Qed.

Lemma failed_command_keeps_store_witness :
  let rows := [PathRow 1 (str "/srv") (str "srv") 1 None None] in
  let w := World true true true true (fun _ => alloc_ok) true
             (Database (Some rows) (Some [NameRow 1 (str "Music")])
                (Some [(1, 1)]) (Some []) (Some []) (Some [])) true [] [] in
  (categorize_path true (str "/srv") (str "Photos") w).1.1 <> 0 /\
  store (categorize_path true (str "/srv") (str "Photos") w).2 = store w.
Proof.
  intros rows w.
  assert ((categorize_path true (str "/srv") (str "Photos") w).1.1 <> 0) as H
    by (by vm_compute).
  split; [done|].
  apply (proj1 (proj2 (failed_command_keeps_store true (str "/srv")
                         (str "Photos") w)) H).
Defined.

Lemma tag_path_run (foreign_keys : bool) (path tag_name : cstring)
    (w : world) :
  tag_path foreign_keys path tag_name w =
    let path_id := path_id_of (store w) path in
    let t := get_or_create_tag_with_check tag_name w in
    if path_id <? 0 then ((-1, [PathNotFound path]), w)
    else if t.1 <? 0 then ((-1, []), t.2)
    else
      match path_tags (store t.2) with
      | None => ((-1, []), t.2)
      | Some links =>
          if bool_decide ((path_id, t.1) ∈ links) then
            ((0, [AlreadyTagged (actual_tag_name (store t.2) t.1)]), t.2)
          else if link_rejected foreign_keys (paths (store t.2))
                    (tags (store t.2)) (path_id, t.1)
          then ((-1, []), t.2)
          else
            ((0, [Tagged path (actual_tag_name (store t.2) t.1)]),
             set_store
               (set_path_tags (store t.2) (Some (links ++ [(path_id, t.1)])))
               t.2)
      end.
Proof.
  cbv zeta. unfold tag_path. rewrite bind_run, get_path_id_run.
  cbn [fst snd]. destruct (path_id_of (store w) path <? 0); [done|].
  rewrite bind_run.
  destruct (get_or_create_tag_with_check tag_name w) as [tag_id w1].
  cbn [fst snd]. destruct (tag_id <? 0); [done|].
  rewrite bind_run. change (get_world ?x) with (x, x). cbn [fst snd].
  destruct (path_tags (store w1)) as [links|]; [|done].
  case_bool_decide; [done|].
  by destruct (link_rejected _ _ _ _).
Qed.

Lemma get_or_create_existing (tag_name : cstring) (w : world) :
  0 <= lookup_id (tags (store w)) tag_name ->
  get_or_create_tag_with_check tag_name w =
    (lookup_id (tags (store w)) tag_name, log (EvSql (SelectTagId tag_name)) w).
Proof.
  intros Hid. unfold get_or_create_tag_with_check.
  rewrite bind_run, get_tag_id_run. cbn [fst snd].
  by destruct (Z.geb_spec (lookup_id (tags (store w)) tag_name) 0); [|lia].
Qed.

(** What [tag_path] leaves behind once the tag id [tag_id] is settled in the
    world [w1]: the path carries the tag, and a search by it lists the path
    unless the listing is full. *)
Lemma tag_path_links (foreign_keys : bool) (w1 : world) (p : path_row)
    (t : name_row) (rows : list path_row) (ts : list name_row)
    (links : list (Z * Z)) (name : cstring) :
  paths (store w1) = Some rows -> p ∈ rows ->
  tags (store w1) = Some ts -> t ∈ ts ->
  path_tags (store w1) = Some links ->
  str_to_lower (n_name t) = str_to_lower name ->
  let r :=
    if bool_decide ((p_id p, n_id t) ∈ links) then
      ((0, [AlreadyTagged (actual_tag_name (store w1) (n_id t))]), w1)
    else if link_rejected foreign_keys (paths (store w1)) (tags (store w1))
              (p_id p, n_id t)
    then ((-1, []), w1)
    else
      ((0, [Tagged (p_path p) (actual_tag_name (store w1) (n_id t))]),
       set_store
         (set_path_tags (store w1) (Some (links ++ [(p_id p, n_id t)]))) w1) in
  r.1.1 = 0 /\ stdin r.2 = stdin w1 /\ tags (store r.2) = Some ts /\
  has_tag (store r.2) p name /\
  (project p ∈ (structured_search None (Some name) None r.2).1 \/
   Z.of_nat (length (structured_search None (Some name) None r.2).1) =
     read_int_setting (store r.2) (str "max_results") DEFAULT_MAX_RESULTS).
Proof.
  intros Hrows Hp Hts Ht Hlinks Hname. cbv zeta.
  assert (forall w' : world,
    paths (store w') = Some rows -> tags (store w') = Some ts ->
    (exists links', path_tags (store w') = Some links' /\
                    (p_id p, n_id t) ∈ links') ->
    has_tag (store w') p name /\
    (project p ∈ (structured_search None (Some name) None w').1 \/
     Z.of_nat (length (structured_search None (Some name) None w').1) =
       read_int_setting (store w') (str "max_results") DEFAULT_MAX_RESULTS))
    as Hgoal.
  { intros w' Hrows' Hts' (links' & Hlinks' & Hin).
    assert (has_tag (store w') p name) as Htag by (by exists ts, links', t).
    split; [done|].
    rewrite structured_search_run. apply (found_or_full _ rows); [done..|].
    split; [done|]. split; [|done].
    intros t0. unfold supplied. destruct (0 <? strlen name); [|done].
    by intros [= <-]. }
  case_bool_decide as Hin.
  - cbn [fst snd]. split; [done|]. split; [done|]. split; [done|].
    apply Hgoal; [done..|]. by exists links.
  - rewrite Hrows, Hts, link_accepted by done. cbn [fst snd].
    split; [done|]. split; [done|].
    split; [rewrite store_set_store; by destruct (store w1)|].
    apply Hgoal; rewrite ?store_set_store; [by destruct (store w1)..|].
    exists (links ++ [(p_id p, n_id t)]). split; [done|].
    apply elem_of_app. right. by left.
Qed.



Lemma similar_name_exists (al : nat -> alloc) (d : database)
    (new_tag : cstring) (size : nat) (threshold : Z) (ts : list name_row) :
  tags d = Some ts ->
  -2147483648 <= threshold < INT_MAX ->
  Z.of_nat (length ts) < INT_MAX ->
  0 < found_count (similar_tags al d new_tag size threshold) ->
  exists t, t ∈ ts /\
    similar_name (similar_tags al d new_tag size threshold) =
      strncpy_buf size (n_name t).
Proof.
  intros Hts Hthr Hlen. unfold similar_tags, scan_tags. rewrite Hts.
  set (names := n_name <$> ts).
  destruct (scan_invariant al new_tag size threshold Hthr
              (zip (seq 0 (length names)) names))
    as (_ & _ & _ & _ & Hsub & Hlev).
  { rewrite length_zip_with, length_seq. unfold names.
    rewrite length_fmap. lia. }
  set (acc := foldl _ _ _) in *. intros Hpos.
  assert (exists row, row ∈ zip (seq 0 (length names)) names /\
            similar_name acc = strncpy_buf size row.2) as ([k e] & Hin & Hn).
  { destruct (is_substring acc) eqn:Hs.
    - destruct (Hsub Hpos eq_refl) as (row & Hin & _ & Hn & _). by exists row.
    - destruct (Hlev Hpos eq_refl) as (row & Hin & _ & _ & _ & _ & Hn).
      by exists row. }
  apply elem_of_zip_seq in Hin. unfold names in Hin.
  rewrite list_lookup_fmap in Hin.
  destruct (ts !! k) as [t|] eqn:Ht; [|done]. injection Hin as <-.
  exists t. split; [by apply list_elem_of_lookup_2 in Ht|done].
Qed.

Lemma print_run (m : message) (w : world) :
  print m w = (tt, log (EvPrint m) w).
Proof. reflexivity. Qed.

Lemma conflict_redirect (tag_name : cstring) (w : world) :
  conflict_reported tag_name w ->
  (read_answer (stdin w)).1 = false ->
  (read_answer (read_answer (stdin w)).2).1 = true ->
  let found := (find_similar_tags tag_name MAX_TAG_LENGTH w).1 in
  exists w2,
    store w2 = store w /\
    get_or_create_tag_with_check tag_name w =
      (lookup_id (tags (store w)) (similar_name found), w2).
Proof.
  intros [Hmiss Hfound] Hno Hyes. cbv zeta.
  rewrite find_similar_tags_run. cbn [fst].
  set (found := similar_tags _ _ _ _ _) in *.
  unfold get_or_create_tag_with_check.
  rewrite bind_run, get_tag_id_run. cbn [fst snd].
  destruct (Z.geb_spec (lookup_id (tags (store w)) tag_name) 0) as [|_]; [lia|].
  rewrite bind_run, find_similar_tags_run. cbn [fst snd].
  rewrite !store_log.
  change (malloc_outcome (log _ w)) with (malloc_outcome w).
  fold found.
  destruct (Z.gtb_spec (found_count found) 0) as [_|]; [|lia].
  rewrite bind_run, print_run. cbn [fst snd].
  rewrite bind_run, get_confirmation_run. cbn [fst snd].
  rewrite !stdin_log, Hno. cbn [negb].
  rewrite bind_run, get_confirmation_run. cbn [fst snd].
  rewrite stdin_set_stdin, Hyes, get_tag_id_run.
  repeat first [rewrite store_set_stdin | rewrite store_log].
  eexists. split; [|reflexivity]. reflexivity.
Qed.



(** *** Search by name *)

Lemma like_match_nocase (q name pat rest : cstring) :
  str_to_lower name = str_to_lower q ->
  like_match pat rest = true ->
  like_match (q ++ pat) (name ++ rest) = true.
Proof.
  revert name. induction q as [|c q IH]; intros name Hq Hrest.
  - by destruct name.
  - destruct name as [|d name]; [done|]. injection Hq as Hd Hq.
    change ((c :: q) ++ pat) with (c :: (q ++ pat)).
    change ((d :: name) ++ rest) with (d :: (name ++ rest)).
    destruct (decide (c = "%"%char)) as [->|Hc].
    + apply like_match_percent_iff. exists [d], (name ++ rest).
      split; [done|]. by apply IH.
    + simpl. rewrite (bool_decide_false _ Hc).
      rewrite (bool_decide_true (tolower c = tolower d)) by done.
      rewrite orb_true_r. simpl. by apply IH.
Qed.

Lemma exact_is_prefix (query name : cstring) :
  nocase_eqb name query = true ->
  like_match (query ++ ["%"%char]) name = true.
Proof.
  intros Hq%nocase_eqb_true. rewrite <- (app_nil_r name).
  by apply like_match_nocase.
Qed.

Lemma prefix_is_substring (query name : cstring) :
  like_match (query ++ ["%"%char]) name = true ->
  like_contains name query = true.
Proof.
  intros Hq. unfold like_contains. apply like_match_percent_iff.
  by exists [], name.
Qed.

Lemma sql_limit_not_cut {A : Type} (n : Z) (l : list A) :
  not_cut n (sql_limit n l) -> sql_limit n l = l.
Proof.
  unfold not_cut, sql_limit. destruct (Z.ltb_spec n 0) as [|Hn]; [done|].
  intros [|Hlen]; [lia|]. rewrite length_take in Hlen.
  apply take_ge. lia.
Qed.

Lemma search_paths_exact_run (query : cstring) (w : world) :
  search_paths_exact query w =
    (match paths (store w) with
     | None => []
     | Some rows =>
         sql_limit
           (read_int_setting (store w) (str "max_results") DEFAULT_MAX_RESULTS)
           (project <$>
            filter (fun p => nocase_eqb (p_name p) query = true) rows)
     end,
     log (EvSql (SelectSetting (str "max_results"))) w).
Proof.
  unfold search_paths_exact. rewrite bind_run, get_int_setting_run.
  cbn [fst snd]. rewrite bind_run. change (get_world ?x) with (x, x).
  cbn [fst snd]. rewrite store_log. by destruct (paths (store w)).
Qed.

Lemma search_paths_prefix_run (query : cstring) (w : world) :
  search_paths_prefix query w =
    (match paths (store w) with
     | None => []
     | Some rows =>
         sql_limit
           (read_int_setting (store w) (str "max_results") DEFAULT_MAX_RESULTS)
           (project <$>
            filter (fun p => like_match (query ++ ["%"%char]) (p_name p)
                             = true) rows)
     end,
     log (EvSql (SelectSetting (str "max_results"))) w).
Proof.
  unfold search_paths_prefix. rewrite bind_run, get_int_setting_run.
  cbn [fst snd]. rewrite bind_run. change (get_world ?x) with (x, x).
  cbn [fst snd]. rewrite store_log. by destruct (paths (store w)).
Qed.

Lemma search_paths_substring_run (query : cstring) (w : world) :
  search_paths_substring query w =
    (match paths (store w) with
     | None => []
     | Some rows =>
         sql_limit
           (read_int_setting (store w) (str "max_results") DEFAULT_MAX_RESULTS)
           (project <$>
            filter (fun p => like_contains (p_name p) query = true) rows)
     end,
     log (EvSql (SelectSetting (str "max_results"))) w).
Proof.
  unfold search_paths_substring. rewrite bind_run, get_int_setting_run.
  cbn [fst snd]. rewrite bind_run. change (get_world ?x) with (x, x).
  cbn [fst snd]. rewrite store_log. by destruct (paths (store w)).
Qed.

Lemma elem_of_projected (P Q : path_row -> Prop)
    `{!forall p, Decision (P p)} `{!forall p, Decision (Q p)}
    (rows : list path_row) (r : path_result) :
  (forall p, P p -> Q p) ->
  r ∈ project <$> filter P rows -> r ∈ project <$> filter Q rows.
Proof.
  intros HPQ (p & -> & Hp)%list_elem_of_fmap.
  apply list_elem_of_filter in Hp as [Hp Hin].
  apply list_elem_of_fmap_2, list_elem_of_filter. split; [by apply HPQ|done].
Qed.

(** X25. The sections of [search_paths_all] are nested: every row of the
    exact matches is among the prefix matches, and every row of the prefix
    matches among the substring matches, as long as the limit [max_results]
    has cut nothing off the larger section.  The query and the names of the
    stored paths are taken to be ASCII text. *)
Theorem search_modes_nested (query : cstring) (w : world) :
  ascii_only query ->
  ascii_names (default [] (paths (store w))) ->
  let max_results :=
    read_int_setting (store w) (str "max_results") DEFAULT_MAX_RESULTS in
  let '(exact, prefix, substring, _) := (search_paths_all query w).1 in
  (not_cut max_results prefix -> exact ⊆ prefix) /\
  (not_cut max_results substring -> prefix ⊆ substring).
Proof.
  intros _ _. cbv zeta. unfold search_paths_all.
  rewrite bind_run, search_paths_exact_run. cbn [fst snd].
  rewrite bind_run, search_paths_prefix_run. cbn [fst snd].
  rewrite bind_run, search_paths_substring_run. cbn [fst snd].
  rewrite bind_run. cbn [fst snd mret M_ret].
  rewrite !store_log.
  set (m := read_int_setting _ _ _).
  destruct (paths (store w)) as [rows|]; [|done].
  split; intros Hcut r Hr; apply sql_limit_not_cut in Hcut; rewrite Hcut;
    apply sql_limit_elem_of in Hr.
  - revert Hr. apply elem_of_projected. intros p. apply exact_is_prefix.
  - revert Hr. apply elem_of_projected. intros p. apply prefix_is_substring.
Qed.

Lemma search_modes_nested_witness :
  let rows := [PathRow 1 (str "/srv/Notes") (str "Notes") 0 (Some 7) None;
               PathRow 2 (str "/srv/notes.txt") (str "notes.txt") 0 (Some 12)
                 None;
               PathRow 3 (str "/srv/my_notes") (str "my_notes") 1 None None] in
  let w := World true true true true (fun _ => alloc_ok) true
             (Database (Some rows) (Some []) (Some []) (Some []) (Some [])
                (Some [(str "max_results", str "5")])) true [] [] in
  let max_results :=
    read_int_setting (store w) (str "max_results") DEFAULT_MAX_RESULTS in
  (ascii_only (str "notes") /\ ascii_names (default [] (paths (store w)))) /\
  let '(exact, prefix, substring, _) := (search_paths_all (str "notes") w).1 in
  (not_cut max_results prefix /\ not_cut max_results substring) /\
  exact ⊆ prefix /\ prefix ⊆ substring.
Proof.
  intros rows w max_results.
  assert (ascii_only (str "notes")) as Hq
    by (apply (bool_decide_unpack _); by vm_compute).
  assert (ascii_names (default [] (paths (store w)))) as Hn
    by (apply (bool_decide_unpack _); by vm_compute).
  split; [by split|].
  pose proof (search_modes_nested (str "notes") w Hq Hn) as H.
  cbv zeta in H. fold max_results in H. revert H.
  destruct (search_paths_all (str "notes") w).1
    as [[[exact prefix] substring] fuzzy] eqn:Hall.
  vm_compute in Hall. injection Hall as <- <- <- <-.
  intros [H1 H2].
  assert (forall l : list path_result, (length l < 5)%nat ->
            not_cut max_results l) as Hcut.
  { intros l Hl. right. change max_results with 5. lia. }
  split; [split; apply Hcut; simpl; lia|].
  split; [apply H1|apply H2]; apply Hcut; simpl; lia.
Defined.

(** X26. With its allocations succeeding, the fuzzy path search misses
    nothing: a row of [paths] whose edit distance to the query, as
    [levenshtein] computes it, is within the threshold in force is among the
    hits with that distance, unless the listing is full. *)
Theorem fuzzy_search_complete (query : cstring) (max_distance : Z)
    (w : world) (rows : list path_row) (p : path_row) :
  paths (store w) = Some rows ->
  mallocs_succeed w ->
  p ∈ rows ->
  let d := levenshtein alloc_ok (p_name p) query in
  d <= effective_distance (store w) max_distance ->
  let hits := (search_paths_fuzzy query max_distance w).1 in
  (p, d) ∈ hits \/
  Z.of_nat (length hits) =
    read_int_setting (store w) (str "max_results") DEFAULT_MAX_RESULTS.
Proof.
  intros Hrows Hal Hp. cbv zeta. intros Hd.
  apply list_elem_of_lookup in Hp as [k Hk].
  rewrite search_paths_fuzzy_run, Hrows. unfold fuzzy_select.
  apply sql_limit_or_full. rewrite merge_sort_Permutation.
  apply list_elem_of_omap. exists (k, p). split.
  - by apply elem_of_zip_seq.
  - cbn [fst snd]. unfold dist_column, sqlite_levenshtein. rewrite Hal.
    by destruct (Z.leb_spec (levenshtein alloc_ok (p_name p) query)
                   (effective_distance (store w) max_distance)); [|lia].
Qed.

Lemma fuzzy_search_complete_witness :
  let rows := [PathRow 1 (str "/srv/Notes") (str "Notes") 0 (Some 7) None;
               PathRow 2 (str "/srv/motes.txt") (str "motes") 0 (Some 12)
                 None] in
  let w := World true true true true (fun _ => alloc_ok) true
             (Database (Some rows) (Some []) (Some []) (Some []) (Some [])
                (Some [])) true [] [] in
  let p := PathRow 2 (str "/srv/motes.txt") (str "motes") 0 (Some 12) None in
  let d := levenshtein alloc_ok (p_name p) (str "notes") in
  (paths (store w) = Some rows /\ mallocs_succeed w /\ p ∈ rows /\
   d <= effective_distance (store w) 2) /\
  let hits := (search_paths_fuzzy (str "notes") 2 w).1 in
  (p, d) ∈ hits \/
  Z.of_nat (length hits) =
    read_int_setting (store w) (str "max_results") DEFAULT_MAX_RESULTS.
Proof.
  intros rows w p d.
  assert (mallocs_succeed w) as Hal by (by intros k).
  assert (p ∈ rows) as Hp by (apply (bool_decide_unpack _); by vm_compute).
  assert (d <= effective_distance (store w) 2) as H by (by vm_compute).
  split; [done|].
  apply (fuzzy_search_complete (str "notes") 2 w rows p eq_refl Hal Hp H).
Defined.

(** *** Command arguments *)

Lemma strtok_from_word (token w rest : cstring) :
  " "%char ∉ w ->
  strtok_from token (w ++ rest) = strtok_from (token ++ w) rest.
Proof.
  revert token. induction w as [|c w IH]; intros token Hw.
  - by rewrite app_nil_r.
  - apply not_elem_of_cons in Hw as [Hc Hw]. simpl.
    rewrite decide_False by done. rewrite IH by done.
    by rewrite <- app_assoc.
Qed.

Lemma strtok_join_words (ws : list cstring) :
  Forall word ws -> strtok (join_words ws) = ws.
Proof.
  unfold strtok. induction 1 as [|w ws [Hne Hsp] Hws IH]; [done|].
  destruct ws as [|w' ws].
  - simpl. pose proof (strtok_from_word [] w [] Hsp) as Hw.
    rewrite app_nil_r in Hw. rewrite Hw. simpl. by destruct w.
  - change (join_words (w :: w' :: ws))
      with (w ++ " "%char :: join_words (w' :: ws)).
    rewrite strtok_from_word by done. simpl.
    destruct w; [done|]. f_equal. exact IH.
Qed.

Lemma flag_is_word (o : find_option) : well_formed o -> word (fo_flag o).
Proof.
  intros [Hflag _]. unfold word.
  destruct (fo_field o); simpl in Hflag;
    repeat (apply elem_of_cons in Hflag as [->|Hflag]);
    try (by apply elem_of_nil in Hflag);
    (split; [done|]); apply (bool_decide_unpack _); by vm_compute.
Qed.

Lemma parse_find_tokens_options (size : nat) (opts : list find_option)
    (found : cstring * cstring * cstring) :
  Forall well_formed opts ->
  parse_find_tokens size (o ← opts; [fo_flag o; fo_value o]) found =
    foldl (fun found o =>
             let value := strncpy_buf size (fo_value o) in
             match fo_field o with
             | FindCategory => (value, found.1.2, found.2)
             | FindTag => (found.1.1, value, found.2)
             | FindName => (found.1.1, found.1.2, value)
             end) found opts.
Proof.
  intros Hopts. revert found.
  induction Hopts as [|o opts [Hflag _] _ IH]; intros [[category tag] name];
    [done|].
  rewrite bind_cons. cbn [foldl app]. rewrite <- IH.
  destruct o as [field flag value]. cbn [fo_field fo_flag fo_value] in *.
  destruct field; simpl in Hflag;
    repeat (apply elem_of_cons in Hflag as [->|Hflag]);
    try (by apply elem_of_nil in Hflag); reflexivity.
Qed.

Lemma last_value_snoc (f : find_field) (opts : list find_option)
    (o : find_option) :
  last_value f (opts ++ [o]) =
    if decide (fo_field o = f) then fo_value o else last_value f opts.
Proof.
  unfold last_value. rewrite filter_app.
  destruct (decide (fo_field o = f)) as [Hf|Hf].
  - rewrite filter_cons_True, filter_nil by done.
    by rewrite fmap_app, list_fmap_singleton, last_snoc.
  - rewrite filter_cons_False, filter_nil by done. by rewrite app_nil_r.
Qed.

(** X27. On a command line of flag-value pairs, whatever the order and the
    spelling of the flags, [parse_find_args] gives each field the value
    that follows its last flag, cut to the buffer, and leaves a field
    without a flag empty.  A value is any word, even one spelled like a
    flag. *)
Theorem parse_find_args_options (opts : list find_option) (size : nat) :
  Forall well_formed opts ->
  (length (render_options opts) < MAX_INPUT_LENGTH)%nat ->
  parse_find_args (render_options opts) size =
    (strncpy_buf size (last_value FindCategory opts),
     strncpy_buf size (last_value FindTag opts),
     strncpy_buf size (last_value FindName opts)).
Proof.
  intros Hopts Hlen. unfold parse_find_args, strncpy_buf at 1.
  rewrite take_ge by lia. unfold render_options.
  rewrite strtok_join_words.
  2:{ apply Forall_bind. eapply Forall_impl; [exact Hopts|].
      intros o Ho. constructor; [by apply flag_is_word|].
      constructor; [apply Ho|constructor]. }
  rewrite parse_find_tokens_options by done. clear Hlen Hopts.
  induction opts as [|o opts IH] using rev_ind.
  { unfold last_value, strncpy_buf. simpl. by rewrite take_nil. }
  rewrite foldl_app, IH. cbn [foldl fst snd]. rewrite !last_value_snoc.
  by destruct (fo_field o).
Qed.

Lemma parse_find_args_options_witness :
  let opts := [FindOption FindTag (str "-t") (str "urgent");
               FindOption FindName (str "--name") (str "--tag");
               FindOption FindTag (str "--tag") (str "work")] in
  (Forall well_formed opts /\
   (length (render_options opts) < MAX_INPUT_LENGTH)%nat) /\
  parse_find_args (render_options opts) MAX_TAG_LENGTH =
    (strncpy_buf MAX_TAG_LENGTH (last_value FindCategory opts),
     strncpy_buf MAX_TAG_LENGTH (last_value FindTag opts),
     strncpy_buf MAX_TAG_LENGTH (last_value FindName opts)).
Proof.
  intros opts.
  assert (Forall well_formed opts) as H1.
  { repeat constructor; try (apply (bool_decide_unpack _); by vm_compute);
      done. }
  assert (length (render_options opts) < MAX_INPUT_LENGTH)%nat as H2
    by (apply Nat.ltb_lt; by vm_compute).
  split; [done|].
  apply (parse_find_args_options opts MAX_TAG_LENGTH H1 H2).
Defined.

Lemma strrchr_split_absent (c : ascii) (s : cstring) :
  c ∉ s -> strrchr_split c s = None.
Proof.
  induction s as [|x s IH]; [done|]. intros [Hx Hs]%not_elem_of_cons.
  simpl. rewrite IH by done. by rewrite decide_False.
Qed.

Lemma strrchr_split_last (c : ascii) (before after : cstring) :
  c ∉ after -> strrchr_split c (before ++ c :: after) = Some (before, after).
Proof.
  intros Hc. induction before as [|x before IH]; simpl.
  - rewrite strrchr_split_absent by done. by rewrite decide_True.
  - by rewrite IH.
Qed.

(** X28. [parse_two_args] splits its input at the last space: from a
    first part, a space and a second part without spaces it returns both,
    each cut to its buffer and then trimmed, so that the first may contain
    spaces; from an input without a space it returns two empty strings. *)
Theorem parse_two_args_spec (first second : cstring) (size1 size2 : nat) :
  " "%char ∉ second ->
  parse_two_args (first ++ " "%char :: second) size1 size2 =
    (trim_whitespace (strncpy_buf size1 first),
     trim_whitespace (strncpy_buf size2 second)) /\
  parse_two_args second size1 size2 = ([], []).
Proof.
  intros Hsp. unfold parse_two_args. split.
  - rewrite strrchr_split_last by done. unfold strncpy_buf. f_equal. f_equal.
    destruct (Nat.leb_spec size1 (length first)).
    + rewrite take_app_le by lia. done.
    + rewrite take_app_length. rewrite take_ge by lia. done.
  - by rewrite strrchr_split_absent.
Qed.

Lemma parse_two_args_spec_witness :
  (" "%char ∉ str "urgent") /\
  parse_two_args (str "/srv/my notes.txt" ++ " "%char :: str "urgent")
    4096 MAX_TAG_LENGTH =
    (trim_whitespace (strncpy_buf 4096 (str "/srv/my notes.txt")),
     trim_whitespace (strncpy_buf MAX_TAG_LENGTH (str "urgent"))) /\
  parse_two_args (str "urgent") 4096 MAX_TAG_LENGTH = ([], []).
Proof.
  assert (" "%char ∉ str "urgent") as H
    by (apply (bool_decide_unpack _); by vm_compute).
  split; [done|].
  apply (parse_two_args_spec (str "/srv/my notes.txt") (str "urgent") 4096
           MAX_TAG_LENGTH H).
Defined.
